(** * ai-meeting-notes: the AI enrichment pipeline of [main.py]

    A shallow embedding of the request handlers of [main.py] and of the
    helpers they call, followed by the properties of the specification that
    concern them.  Python values are dynamically typed: they are embedded as
    the inductive [pyval], exceptions as the type [exn], and a computation
    that may raise as a [result]. *)

From Stdlib Require Import ZArith Bool Ascii String List Lia.
From Stdlib Require Import SpecFloat DecimalString.
Import ListNotations.
Set Warnings "-register-all".
Open Scope string_scope.
Open Scope list_scope.
Open Scope Z_scope.

(* ================================================================= *)
(** ** Python strings *)

(** A Python [str] is a sequence of Unicode code points. *)
Definition char : Type := N.
Definition str : Type := list char.

(** A literal of this file, which holds ASCII characters only. *)
Definition lit (s : string) : list char :=
  map N_of_ascii (list_ascii_of_string s).
Coercion lit : string >-> list.

Definition str_eqb (a b : str) : bool :=
  if list_eq_dec N.eq_dec a b then true else false.

(** [len(s)] *)
Definition len (s : str) : Z := Z.of_nat (length s).

(** [c.isspace()]: the Unicode white space, that is TAB to CR, FS to US,
    the space, NEL, the no-break space, the ogham space mark, the spaces
    U+2000 to U+200A, the line and paragraph separators, the narrow
    no-break space, the medium mathematical space and the ideographic
    space. *)
Definition isspace (c : char) : bool :=
  let n := Z.of_N c in
  ((9 <=? n) && (n <=? 13)) || ((28 <=? n) && (n <=? 32))
  || (n =? 133) || (n =? 160) || (n =? 5760)
  || ((8192 <=? n) && (n <=? 8202)) || (n =? 8232) || (n =? 8233)
  || (n =? 8239) || (n =? 8287) || (n =? 12288).

Fixpoint dropwhile (p : char -> bool) (s : str) : str :=
  match s with
  | [] => []
  | c :: s' => if p c then dropwhile p s' else s
  end.

(** [s.lstrip()], [s.rstrip()], [s.strip()] *)
Definition lstrip (s : str) : str := dropwhile isspace s.
Definition rstrip (s : str) : str := rev (dropwhile isspace (rev s)).
Definition strip (s : str) : str := rstrip (lstrip s).

(** [s.rstrip(chars)] for a one-character [chars] *)
Definition rstrip_char (c : char) (s : str) : str :=
  rev (dropwhile (N.eqb c) (rev s)).

(** [s.startswith(p)] *)
Fixpoint startswith (s p : str) {struct p} : bool :=
  match p, s with
  | [], _ => true
  | _ :: _, [] => false
  | c :: p', d :: s' => N.eqb c d && startswith s' p'
  end.

(** [s.find(sub)]: the lowest index at which [sub] occurs, [-1] if none.
    [find_from sub s i] searches [s], whose first character has index [i]. *)
Fixpoint find_from (sub s : str) (i : Z) : Z :=
  if startswith s sub then i
  else match s with
       | [] => -1
       | _ :: s' => find_from sub s' (i + 1)
       end.

Definition find (s sub : str) : Z := find_from sub s 0.

(** [s.rfind(sub)]: the highest index at which [sub] occurs, [-1] if none. *)
Fixpoint rfind_from (sub s : str) (i : Z) : Z :=
  match s with
  | [] => if startswith s sub then i else -1
  | _ :: s' =>
      let r := rfind_from sub s' (i + 1) in
      if r =? -1 then (if startswith s sub then i else -1) else r
  end.

Definition rfind (s sub : str) : Z := rfind_from sub s 0.

(** [s[i:j]] for [0 <= i], [0 <= j] (the handlers slice only there). *)
Definition slice (s : str) (i j : Z) : str :=
  firstn (Z.to_nat (j - i)) (skipn (Z.to_nat i) s).

(** [s[:n]] *)
Definition take (n : nat) (s : str) : str := firstn n s.

(** [sub in s] *)
Fixpoint contains (s sub : str) : bool :=
  startswith s sub ||
  match s with
  | [] => false
  | _ :: s' => contains s' sub
  end.



(** [sep.join(parts)] *)
Fixpoint join (sep : str) (parts : list str) : str :=
  match parts with
  | [] => []
  | [p] => p
  | p :: rest => p ++ sep ++ join sep rest
  end.

(** [s.lower()] on the ASCII letters.  The handlers only compare a
    lowered string with an ASCII word none of whose letters is the lower
    case of a character outside ASCII, so the comparison comes out the
    same. *)
Definition lower_char (c : char) : char :=
  if ((65 <=? c) && (c <=? 90))%N then (c + 32)%N else c.

Definition lower (s : str) : str := map lower_char s.

(** The line feed, the double quote and the backslash. *)
Definition nl : str := [10%N].
Definition dq : str := [34%N].
Definition bs : str := [92%N].

(** [str(n)] for an [int]. *)
Definition str_of_Z (z : Z) : str := lit (NilZero.string_of_int (Z.to_int z)).

(** [s.split()]: the maximal runs of non-space characters. *)
Fixpoint split_ws_go (cur : str) (s : str) : list str :=
  match s with
  | [] => match cur with [] => [] | _ => [rev cur] end
  | c :: s' =>
      if isspace c
      then match cur with
           | [] => split_ws_go [] s'
           | _ => rev cur :: split_ws_go [] s'
           end
      else split_ws_go (c :: cur) s'
  end.

Definition split_ws (s : str) : list str := split_ws_go [] s.

(* ================================================================= *)
(** ** Python values *)

(** The values [json.loads] builds, which are also the values the handlers
    pass around untyped.  A [dict] keeps its insertion order. *)
Inductive pyval : Type :=
| PNone
| PBool (b : bool)
| PInt (z : Z)
| PFloat (f : spec_float)
| PStr (s : str)
| PList (l : list pyval)
| PDict (d : list (str * pyval)).

(** [bool(v)] *)
Definition truthy (v : pyval) : bool :=
  match v with
  | PNone => false
  | PBool b => b
  | PInt z => negb (z =? 0)
  | PFloat (S754_zero _) => false
  | PFloat _ => true
  | PStr s => match s with [] => false | _ => true end
  | PList l => match l with [] => false | _ => true end
  | PDict d => match d with [] => false | _ => true end
  end.

(** [a or b] *)
Definition py_or (a b : pyval) : pyval := if truthy a then a else b.

(** Truthiness and [or] on an [Optional[str]]. *)
Definition truthy_opt (o : option str) : bool :=
  match o with
  | Some (_ :: _) => true
  | _ => false
  end.

Definition or_opt (a b : option str) : option str :=
  if truthy_opt a then a else b.

Definition or_str (a : option str) (b : str) : str :=
  match a with
  | Some (c :: s) => c :: s
  | _ => b
  end.

Fixpoint lookup (k : str) (d : list (str * pyval)) : option pyval :=
  match d with
  | [] => None
  | (k', v) :: d' => if str_eqb k k' then Some v else lookup k d'
  end.

(* ================================================================= *)
(** ** Exceptions *)

(** [HTTPException] is the one class the handlers catch by name; the other
    constructors are the built-in exceptions the modelled code can raise,
    all of them subclasses of [Exception]. *)
Inductive exn : Type :=
| HTTPException (status_code : Z) (detail : str)
| AttributeError
| TypeError
| KeyError
| IndexError
| ValueError
| ValidationError
| OverflowError
| UnicodeEncodeError
| OSError
| HttpError.

Inductive result (A : Type) : Type :=
| Ok (a : A)
| Raise (e : exn).
Arguments Ok {A} a.
Arguments Raise {A} e.

Definition rbind {A B} (r : result A) (k : A -> result B) : result B :=
  match r with
  | Ok a => k a
  | Raise e => Raise e
  end.

Declare Scope result_scope.
Delimit Scope result_scope with result.
Notation "'let?' x ':=' r 'in' k" := (rbind r (fun x => k))
  (at level 10, x pattern, r at level 100, k at level 200) : result_scope.
Open Scope result_scope.

(** [try: r  except Exception: h] *)
Definition try_except {A} (r : result A) (h : A) : A :=
  match r with
  | Ok a => a
  | Raise _ => h
  end.

(** [v.get(k)]: a method of [dict] only. *)
Definition py_get (v : pyval) (k : str) : result pyval :=
  match v with
  | PDict d => Ok (match lookup k d with Some x => x | None => PNone end)
  | _ => Raise AttributeError
  end.

(** [v.get(k, default)] *)
Definition py_get_default (v : pyval) (k : str) (default : pyval)
  : result pyval :=
  match v with
  | PDict d => Ok (match lookup k d with Some x => x | None => default end)
  | _ => Raise AttributeError
  end.

(** [v.strip()]: a method of [str] only. *)
Definition py_strip (v : pyval) : result str :=
  match v with
  | PStr s => Ok (strip s)
  | _ => Raise AttributeError
  end.

(** [for x in v]: a list yields its elements, a string its characters, a
    dict its keys; the other values are not iterable. *)
Definition py_iter (v : pyval) : result (list pyval) :=
  match v with
  | PList l => Ok l
  | PStr s => Ok (map (fun c => PStr [c]) s)
  | PDict d => Ok (map (fun kv => PStr (fst kv)) d)
  | _ => Raise TypeError
  end.

(** [v[0]] *)
Definition py_index0 (v : pyval) : result pyval :=
  match v with
  | PList (x :: _) => Ok x
  | PList [] => Raise IndexError
  | PStr (c :: _) => Ok (PStr [c])
  | PStr [] => Raise IndexError
  | PDict _ => Raise KeyError
  | _ => Raise TypeError
  end.

Definition is_dict (v : pyval) : bool :=
  match v with PDict _ => true | _ => false end.

Definition is_list (v : pyval) : bool :=
  match v with PList _ => true | _ => false end.

(** [isinstance(v, (str, int))]; [bool] is a subclass of [int]. *)
Definition is_str_or_int (v : pyval) : bool :=
  match v with
  | PStr _ | PInt _ | PBool _ => true
  | _ => false
  end.

(* ================================================================= *)
(** ** [datetime] *)

(** A [datetime]: the calendar fields and, when it is aware, the offset of
    its time zone from UTC in seconds. *)
Record datetime : Type := mk_datetime {
  year : Z;
  month : Z;
  day : Z;
  hour : Z;
  minute : Z;
  second : Z;
  microsecond : Z;
  utcoffset : option Z
}.

Definition is_leap (y : Z) : bool :=
  (y mod 4 =? 0) && (negb (y mod 100 =? 0) || (y mod 400 =? 0)).

Definition days_in_month (y m : Z) : Z :=
  if m =? 2 then (if is_leap y then 29 else 28)
  else if (m =? 4) || (m =? 6) || (m =? 9) || (m =? 11) then 30
  else 31.

(** Days in the months of year [y] that precede month [m]. *)
Definition days_before_month (y m : Z) : Z :=
  fold_right Z.add 0
    (map (days_in_month y) (map Z.of_nat (seq 1 (Z.to_nat (m - 1))))).

(** Days in the years that precede year [y]. *)
Definition days_before_year (y : Z) : Z :=
  let p := y - 1 in p * 365 + p / 4 - p / 100 + p / 400.

(** [date.toordinal()]: 1 for 0001-01-01. *)
Definition toordinal (dt : datetime) : Z :=
  days_before_year (year dt) + days_before_month (year dt) (month dt)
  + day dt.

(** The microseconds from 0001-01-01T00:00:00 to the wall-clock time of
    [dt]. *)
Definition wall_micros (dt : datetime) : Z :=
  ((((toordinal dt - 1) * 24 + hour dt) * 60 + minute dt) * 60 + second dt)
  * 1000000 + microsecond dt.

Definition MAXYEAR : Z := 9999.

Definition valid_datetime (dt : datetime) : Prop :=
  1 <= year dt <= MAXYEAR /\ 1 <= month dt <= 12 /\
  1 <= day dt <= days_in_month (year dt) (month dt) /\
  0 <= hour dt < 24 /\ 0 <= minute dt < 60 /\ 0 <= second dt < 60 /\
  0 <= microsecond dt < 1000000.

(** [dt + timedelta(hours=1)]: the hour is advanced and the carry is
    propagated into the day, the month and the year; a result after year
    9999 raises [OverflowError].  The time zone is kept. *)
Definition plus_one_hour (dt : datetime) : result datetime :=
  let with_date y m d h :=
    mk_datetime y m d h (minute dt) (second dt) (microsecond dt)
      (utcoffset dt) in
  let h := hour dt + 1 in
  if h <? 24 then Ok (with_date (year dt) (month dt) (day dt) h)
  else if day dt + 1 <=? days_in_month (year dt) (month dt)
  then Ok (with_date (year dt) (month dt) (day dt + 1) (h - 24))
  else if month dt + 1 <=? 12
  then Ok (with_date (year dt) (month dt + 1) 1 (h - 24))
  else if year dt + 1 <=? MAXYEAR
  then Ok (with_date (year dt + 1) 1 1 (h - 24))
  else Raise OverflowError.

Definition digit (n : Z) : char := (48 + Z.to_N (n mod 10))%N.

(** [n] in decimal, zero-padded to [w] digits. *)
Fixpoint zfill (w : nat) (n : Z) (acc : str) : str :=
  match w with
  | O => acc
  | S w' => zfill w' (n / 10) (digit n :: acc)
  end.

Definition format_offset (off : Z) : str :=
  let a := Z.abs off in
  (if off <? 0 then "-" else "+") ++ zfill 2 (a / 3600) []
  ++ ":" ++ zfill 2 (a mod 3600 / 60) []
  ++ (if a mod 60 =? 0 then [] else ":" ++ zfill 2 (a mod 60) []).

(** [dt.isoformat()] *)
Definition isoformat (dt : datetime) : str :=
  zfill 4 (year dt) [] ++ "-" ++ zfill 2 (month dt) [] ++ "-"
  ++ zfill 2 (day dt) [] ++ "T" ++ zfill 2 (hour dt) [] ++ ":"
  ++ zfill 2 (minute dt) [] ++ ":" ++ zfill 2 (second dt) []
  ++ (if microsecond dt =? 0 then [] else "." ++ zfill 6 (microsecond dt) [])
  ++ match utcoffset dt with
     | None => []
     | Some off => format_offset off
     end.

(** The order of [ORDER BY created_at]; the column holds naive datetimes. *)
Definition datetime_leb (a b : datetime) : bool :=
  wall_micros a <=? wall_micros b.

(* ================================================================= *)
(** ** Outbound requests *)

(** What the handlers hand to [client.post]: the address, the value of the
    [Authorization] header, and the JSON payload or the multipart form. *)
Inductive http_body : Type :=
| ChatBody (model prompt : str)
| AudioBody (model filename content : str).

Record http_request : Type := {
  url : str;
  authorization_header : str;
  body : http_body
}.

(** What [client.post] does: it raises, with the text of the exception, or
    it returns a response. *)
Inductive http_response : Type :=
| TransportFailure (message : str)
| Response (status_code : Z) (text : str).

(* ================================================================= *)
(** ** The libraries the handlers call *)

(** What [main.py] imports and does not define: [json.loads], the [repr] of
    a float and of a container, pydantic's coercion of a value into an
    [Optional[str]] field, [datetime.fromisoformat], and the encoding of a
    request by the HTTP client.  Their results differ between versions of
    the libraries on the inputs the laws below leave open, so the handlers
    are modelled over any implementation that satisfies the laws. *)
Class PyLib : Type := {
  (** [json.loads(s)]; [None] stands for [JSONDecodeError]. *)
  json_loads : str -> option pyval;
  (** [repr(f)] for a [float]. *)
  float_repr : spec_float -> str;
  (** [str(v)] for a [list] or a [dict]. *)
  container_repr : pyval -> str;
  (** The value an [Optional[str]] field takes from [v]; [None] stands for
      [ValidationError]. *)
  optional_str : pyval -> option (option str);
  optional_str_None : optional_str PNone = Some None;
  optional_str_str : forall s, optional_str (PStr s) = Some (Some s);
  (** [datetime.fromisoformat(s)]; [None] stands for [ValueError]. *)
  fromisoformat : str -> option datetime;
  fromisoformat_valid :
    forall s dt, fromisoformat s = Some dt -> valid_datetime dt;
  (** The text of the exception [client.post] raises while it builds the
      request, before anything leaves the process; [None] when the request
      is built and handed to the transport.  The client encodes the value
      of a header as ASCII, so a request whose [Authorization] header
      holds any other character is never sent. *)
  request_error : http_request -> option str;
  request_error_ascii :
    forall req, request_error req = None ->
      forallb (fun c => (c <? 128)%N) (authorization_header req) = true
}.

Section Serialisation.

Context `{PL : PyLib}.

(** [str(v)] *)
Definition py_str (v : pyval) : str :=
  match v with
  | PNone => "None"
  | PBool true => "True"
  | PBool false => "False"
  | PInt z => str_of_Z z
  | PFloat f => float_repr f
  | PStr s => s
  | PList _ | PDict _ => container_repr v
  end.

Definition hex_digit (n : N) : char :=
  (if n mod 16 <? 10 then 48 + n mod 16 else 87 + n mod 16)%N.

(** [n] as four hexadecimal digits after a backslash and a [u]. *)
Definition json_u_escape (n : N) : str :=
  (bs ++ "u" ++ [hex_digit (n / 4096); hex_digit (n / 256);
                 hex_digit (n / 16); hex_digit n])%N.

(** One character of a JSON string literal, as [json.dumps] writes it with
    [ensure_ascii]: a character outside the Basic Multilingual Plane
    becomes a surrogate pair. *)
Definition json_escape_char (c : char) : str :=
  (if c =? 34 then bs ++ [c]
   else if c =? 92 then bs ++ [c]
   else if c =? 10 then bs ++ "n"
   else if c =? 13 then bs ++ "r"
   else if c =? 9 then bs ++ "t"
   else if c =? 8 then bs ++ "b"
   else if c =? 12 then bs ++ "f"
   else if (32 <=? c) && (c <=? 126) then [c]
   else if c <? 65536 then json_u_escape c
   else json_u_escape (55296 + (c - 65536) / 1024)
        ++ json_u_escape (56320 + (c - 65536) mod 1024))%N.

Definition json_quote (s : str) : str :=
  dq ++ flat_map json_escape_char s ++ dq.

(** [json.dumps(v)] with the default separators. *)
Fixpoint json_dumps (v : pyval) : str :=
  match v with
  | PNone => "null"
  | PBool true => "true"
  | PBool false => "false"
  | PInt z => str_of_Z z
  | PFloat f => float_repr f
  | PStr s => json_quote s
  | PList l =>
      "[" ++
      (fix items (l : list pyval) : str :=
         match l with
         | [] => []
         | x :: r =>
             json_dumps x ++
             match r with [] => [] | _ => ", " ++ items r end
         end) l
      ++ "]"
  | PDict d =>
      "{" ++
      (fix members (d : list (str * pyval)) : str :=
         match d with
         | [] => []
         | (k, x) :: r =>
             json_quote k ++ ": " ++ json_dumps x ++
             match r with [] => [] | _ => ", " ++ members r end
         end) d
      ++ "}"
  end.

End Serialisation.

(* ================================================================= *)
(** ** Stored entities and boundary shapes *)

Module User.
Record t : Type := mk {
  id : str;
  email : str;
  google_sub : option str;
  google_creds_json : str;
  api_token : str;
  created_at : datetime
}.
End User.

Module Meeting.
Record t : Type := mk {
  id : str;
  title : str;
  folder_id : option str;
  created_at : datetime;
  start_time : option str;
  end_time : option str;
  status : option str;
  transcript : option str;
  summary : option str;
  audio_path : option str;
  calendar_event_id : option str;
  action_items : option str;
  is_favorite : option bool;
  owner_id : option str
}.
End Meeting.

(** The pydantic model [ActionItem]. *)
Module ActionItem.
Record t : Type := mk {
  task : str;
  owner : option str;
  due_date : option str;
  status : option str
}.
End ActionItem.

(** One element of ["action_items"] in the dict [meeting_to_dict] builds:
    the four values are whatever the stored JSON holds. *)
Module ItemDict.
Record t : Type := mk {
  task : pyval;
  owner : pyval;
  due_date : pyval;
  status : pyval
}.
End ItemDict.

(** The dict [meeting_to_dict] returns. *)
Module MeetingDict.
Record t : Type := mk {
  id : str;
  title : str;
  folder_id : option str;
  created_at : datetime;
  start_time : option str;
  end_time : option str;
  status : option str;
  transcript : option str;
  summary : option str;
  audio_path : option str;
  calendar_event_id : option str;
  is_favorite : bool;
  action_items : list ItemDict.t
}.
End MeetingDict.

Module QAReference.
Record t : Type := mk {
  meeting_id : str;
  title : str;
  created_at : datetime
}.
End QAReference.

Module QAResponse.
Record t : Type := mk {
  answer : str;
  references : list QAReference.t
}.
End QAResponse.

Module TopicCluster.
Record t : Type := mk {
  name : str;
  description : option str;
  meeting_ids : list str
}.
End TopicCluster.

Module CalendarSyncPayload.
Record t : Type := mk {
  event_id : option str;
  start_time : option str;
  end_time : option str
}.
End CalendarSyncPayload.

(** A Google Calendar event resource, with the members the handler reads
    or writes; [start] and [end] hold a [dateTime] and a [timeZone]. *)
Module Event.
Record t : Type := mk {
  id : option str;
  summary : option str;
  description : option str;
  start : option (str * str);
  end_ : option (str * str)
}.
End Event.

(* ================================================================= *)
(** ** Configuration and the world outside the process *)

(** The module-level constants read from the environment at import. *)
Record Config : Type := {
  AUDIO_DIR : str;
  LLM_API_BASE : str;
  LLM_API_KEY : option str;
  LLM_MODEL_NAME : str;
  STT_MODEL_NAME : str
}.

Definition GOOGLE_CALENDAR_ID : str := "primary".

(** Everything a handler reads or changes outside its own variables.
    [backend] is the behaviour of the hosted model: its answer to a request
    may depend on the requests sent before.  [sent] logs the outbound
    requests.  [disk] maps a path to the bytes written there.  The database
    is the two tables the handlers use.  The calendar is the store of
    events behind the Google client: [calendar_access] is the outcome of
    building the client for a user (an exception, or the refreshed
    credentials if any), and [event_error] the message of the exception
    the client raises for an event it cannot load. *)
Record World : Type := {
  backend : list http_request -> http_request -> http_response;
  sent : list http_request;
  disk : list (str * str);
  writable : str -> bool;
  uuid_source : nat -> str;
  uuid_count : nat;
  utcnow : datetime;
  users : list User.t;
  meetings : list Meeting.t;
  calendar_access : User.t -> result (option str);
  events : list (str * Event.t);
  event_error : str -> str
}.

Definition set_sent (w : World) (l : list http_request) : World :=
  {| backend := backend w; sent := l; disk := disk w;
     writable := writable w; uuid_source := uuid_source w;
     uuid_count := uuid_count w; utcnow := utcnow w; users := users w;
     meetings := meetings w; calendar_access := calendar_access w;
     events := events w; event_error := event_error w |}.

Definition set_disk (w : World) (d : list (str * str)) : World :=
  {| backend := backend w; sent := sent w; disk := d;
     writable := writable w; uuid_source := uuid_source w;
     uuid_count := uuid_count w; utcnow := utcnow w; users := users w;
     meetings := meetings w; calendar_access := calendar_access w;
     events := events w; event_error := event_error w |}.

Definition set_uuid_count (w : World) (n : nat) : World :=
  {| backend := backend w; sent := sent w; disk := disk w;
     writable := writable w; uuid_source := uuid_source w;
     uuid_count := n; utcnow := utcnow w; users := users w;
     meetings := meetings w; calendar_access := calendar_access w;
     events := events w; event_error := event_error w |}.

Definition set_users (w : World) (us : list User.t) : World :=
  {| backend := backend w; sent := sent w; disk := disk w;
     writable := writable w; uuid_source := uuid_source w;
     uuid_count := uuid_count w; utcnow := utcnow w; users := us;
     meetings := meetings w; calendar_access := calendar_access w;
     events := events w; event_error := event_error w |}.

Definition set_meetings (w : World) (ms : list Meeting.t) : World :=
  {| backend := backend w; sent := sent w; disk := disk w;
     writable := writable w; uuid_source := uuid_source w;
     uuid_count := uuid_count w; utcnow := utcnow w; users := users w;
     meetings := ms; calendar_access := calendar_access w;
     events := events w; event_error := event_error w |}.

Definition set_events (w : World) (es : list (str * Event.t)) : World :=
  {| backend := backend w; sent := sent w; disk := disk w;
     writable := writable w; uuid_source := uuid_source w;
     uuid_count := uuid_count w; utcnow := utcnow w; users := users w;
     meetings := meetings w; calendar_access := calendar_access w;
     events := es; event_error := event_error w |}.

(** A computation that reads and changes the world and may raise.  What it
    did to the world before raising stays done. *)
Definition M (A : Type) : Type := World -> result A * World.

Definition ret {A} (a : A) : M A := fun w => (Ok a, w).

Definition raise {A} (e : exn) : M A := fun w => (Raise e, w).

Definition bind {A B} (m : M A) (k : A -> M B) : M B :=
  fun w =>
    match m w with
    | (Ok a, w') => k a w'
    | (Raise e, w') => (Raise e, w')
    end.

(** A computation that cannot touch the world, run inside one that can. *)
Definition lift {A} (r : result A) : M A := fun w => (r, w).

Declare Scope M_scope.
Delimit Scope M_scope with M.
Notation "'let*' x ':=' m 'in' k" := (bind m (fun x => k))
  (at level 10, x pattern, m at level 100, k at level 200) : M_scope.
Open Scope M_scope.

(* ================================================================= *)
(** ** Helpers of [main.py] *)

Section Handlers.

Context `{PL : PyLib}.
Variable cfg : Config.

(** [json.loads(s)] as a computation that may raise. *)
Definition loads (s : str) : result pyval :=
  match json_loads s with
  | Some v => Ok v
  | None => Raise ValueError
  end.

(** A loop whose body may raise: it stops at the first element that does. *)
Fixpoint traverse {A B} (f : A -> result B) (l : list A) : result (list B) :=
  match l with
  | [] => Ok []
  | x :: r =>
      let? y := f x in
      let? ys := traverse f r in
      Ok (y :: ys)
  end.

(** The dict built for one element of the stored action items. *)
Definition item_dict (it : pyval) : result ItemDict.t :=
  let? task := py_get_default it "task" (PStr []) in
  let? owner := py_get it "owner" in
  let? due_date := py_get it "due_date" in
  let? status := py_get_default it "status" (PStr "open") in
  Ok (ItemDict.mk task owner due_date status).

(** The body of the [try] of [meeting_to_dict]. *)
Definition parse_stored_items (text : str) : result (list ItemDict.t) :=
  let? parsed := loads text in
  let? elements := py_iter parsed in
  traverse item_dict elements.

Definition meeting_to_dict (meeting : Meeting.t) : MeetingDict.t :=
  let items :=
    if truthy_opt (Meeting.action_items meeting)
    then try_except
           (parse_stored_items (or_str (Meeting.action_items meeting) []))
           []
    else [] in
  MeetingDict.mk
    (Meeting.id meeting)
    (Meeting.title meeting)
    (Meeting.folder_id meeting)
    (Meeting.created_at meeting)
    (Meeting.start_time meeting)
    (Meeting.end_time meeting)
    (Meeting.status meeting)
    (Meeting.transcript meeting)
    (Meeting.summary meeting)
    (Meeting.audio_path meeting)
    (Meeting.calendar_event_id meeting)
    (match Meeting.is_favorite meeting with Some b => b | None => false end)
    items.

(** [db.query(User).filter(User.api_token == token).first()] *)
Definition user_by_token (token : str) (us : list User.t) : option User.t :=
  List.find (fun u => str_eqb (User.api_token u) token) us.

Definition _get_current_user_from_header
  (authorization : option str) (us : list User.t) : result User.t :=
  if negb (truthy_opt authorization)
  then Raise (HTTPException 401
         "Missing Authorization header. Please connect Google Calendar first.")
  else
    match split_ws (or_str authorization []) with
    | [scheme; token] =>
        if negb (str_eqb (lower scheme) "bearer")
        then Raise (HTTPException 401 "Invalid Authorization header.")
        else
          match user_by_token token us with
          | Some user => Ok user
          | None => Raise (HTTPException 401 "Invalid or expired API token.")
          end
    | _ => Raise (HTTPException 401 "Invalid Authorization header.")
    end.

(** The current user, resolved against the users table of the world. *)
Definition current_user (authorization : option str) : M User.t :=
  fun w => (_get_current_user_from_header authorization (users w), w).

(** [(api_key or LLM_API_KEY or <empty>).strip()] *)
Definition resolve_key (api_key : option str) : str :=
  strip (or_str (or_opt api_key (LLM_API_KEY cfg)) []).

(** One outbound POST.  A request the client cannot build makes
    [client.post] raise with nothing sent; any other request is logged and
    the backend answers. *)
Definition post (req : http_request) : M http_response :=
  fun w =>
    match request_error req with
    | Some message => (Ok (TransportFailure message), w)
    | None => (Ok (backend w (sent w) req), set_sent w (sent w ++ [req]))
    end.

Definition ollama_chat (prompt : str) (api_key : option str) : M str :=
  let key := resolve_key api_key in
  match key with
  | [] =>
      raise (HTTPException 400
        ("No LLM API key provided. Set an API key in the app or configure "
         ++ "LLM_API_KEY / OPENAI_API_KEY on the server."))
  | _ =>
      let req :=
        {| url := rstrip_char 47%N (LLM_API_BASE cfg) ++ "/chat/completions";
           authorization_header := "Bearer " ++ key;
           body := ChatBody (LLM_MODEL_NAME cfg) prompt |} in
      let* resp := post req in
      match resp with
      | TransportFailure e =>
          raise (HTTPException 500 ("Error calling LLM: " ++ e))
      | Response status_code text =>
          if negb (status_code =? 200)
          then raise (HTTPException 500
                 ("LLM error " ++ str_of_Z status_code ++ ": "
                  ++ take 200 text))
          else
            lift (
              let? data := loads text in
              let? got := py_get data "choices" in
              let choices := py_or got (PList []) in
              if negb (truthy choices)
              then Raise (HTTPException 500
                     "LLM response did not contain any choices.")
              else
                let? first := py_index0 choices in
                let? got := py_get first "message" in
                let message := py_or got (PDict []) in
                let? got := py_get message "content" in
                let content := py_or got (PStr []) in
                Ok (py_str content))
      end
  end.

Definition generate_summary (transcript : str) (api_key : option str)
  : M str :=
  let prompt :=
    "You are an expert meeting summarizer. "
    ++ "Given the following transcript, produce a clear, concise summary in markdown. "
    ++ "Focus on key decisions, topics discussed, and outcomes." ++ nl ++ nl
    ++ "Transcript:" ++ nl ++ transcript in
  ollama_chat prompt api_key.

(** The text between the first opening and the last closing bracket, or
    the whole text when there is no such pair. *)
Definition bracketed (open_ close_ : str) (raw : str) : str :=
  let start := find raw open_ in
  let end_ := rfind raw close_ in
  if negb (start =? -1) && negb (end_ =? -1) && (end_ >? start)
  then slice raw start (end_ + 1)
  else raw.

(** The [ActionItem] built from one element of the parsed array; [None]
    when the element is skipped. *)
Definition action_item_of (obj : pyval) : result (option ActionItem.t) :=
  if negb (is_dict obj) then Ok None
  else
    let? got := py_get obj "task" in
    let? task := py_strip (py_or got (PStr [])) in
    match task with
    | [] => Ok None
    | _ =>
        let? owner := py_get obj "owner" in
        let? due_date := py_get obj "due_date" in
        let? got := py_get obj "status" in
        let status := py_or got (PStr "open") in
        match optional_str owner, optional_str due_date, optional_str status
        with
        | Some o, Some d, Some s => Ok (Some (ActionItem.mk task o d s))
        | _, _, _ => Raise ValidationError
        end
    end.

Fixpoint somes {A} (l : list (option A)) : list A :=
  match l with
  | [] => []
  | Some x :: r => x :: somes r
  | None :: r => somes r
  end.

(** The body of the [try] of [extract_action_items_via_llama]. *)
Definition parse_action_items (raw : str) : result (list ActionItem.t) :=
  let raw_json := bracketed "[" "]" raw in
  let? parsed := loads raw_json in
  match parsed with
  | PList l =>
      let? items := traverse action_item_of l in
      Ok (somes items)
  | _ => Ok []
  end.

Definition action_items_prompt (transcript : str) : str :=
  "You are an assistant that extracts ACTION ITEMS from meeting transcripts."
  ++ nl
  ++ "Return ONLY valid JSON in this exact format:" ++ nl ++ nl
  ++ "[" ++ nl
  ++ "  {" ++ nl
  ++ "    " ++ bs ++ dq ++ "task" ++ bs ++ dq ++ ": " ++ bs ++ dq
  ++ "string, the actual action" ++ bs ++ dq ++ "," ++ nl
  ++ "    " ++ bs ++ dq ++ "owner" ++ bs ++ dq ++ ": " ++ bs ++ dq
  ++ "string or null" ++ bs ++ dq ++ "," ++ nl
  ++ "    " ++ bs ++ dq ++ "due_date" ++ bs ++ dq ++ ": " ++ bs ++ dq
  ++ "YYYY-MM-DD or null" ++ bs ++ dq ++ "," ++ nl
  ++ "    " ++ bs ++ dq ++ "status" ++ bs ++ dq ++ ": " ++ bs ++ dq
  ++ "open" ++ bs ++ dq ++ nl
  ++ "  }" ++ nl
  ++ "]" ++ nl ++ nl
  ++ "If there are no action items, return an empty list []." ++ nl ++ nl
  ++ "Transcript:" ++ nl ++ transcript ++ nl.

Definition extract_action_items_via_llama
  (transcript : str) (api_key : option str) : M (list ActionItem.t) :=
  let* raw := ollama_chat (action_items_prompt transcript) api_key in
  ret (try_except (parse_action_items raw) []).

(** [os.path.join(a, b)] *)
Definition path_join (a b : str) : str :=
  if startswith b "/" then b
  else match a with
       | [] => b
       | _ => if startswith (rev a) "/" then a ++ b else a ++ "/" ++ b
       end.

(** [os.path.basename(p)]: what follows the last slash. *)
Definition basename (p : str) : str :=
  let i := rfind p "/" in
  skipn (Z.to_nat (i + 1)) p.

(** [str(uuid.uuid4())]: the next identifier of the world's source. *)
Definition uuid4 : M str :=
  fun w => (Ok (uuid_source w (uuid_count w)),
            set_uuid_count w (S (uuid_count w))).

Fixpoint read_file (path : str) (d : list (str * str)) : option str :=
  match d with
  | [] => None
  | (p, content) :: d' =>
      if str_eqb path p then Some content else read_file path d'
  end.

(** Writes the uploaded bytes at [dest_path]; [open] raises where the
    path cannot be written. *)
Definition save_upload_to_wav (upload : str) (dest_path : str) : M unit :=
  fun w =>
    if writable w dest_path
    then (Ok tt, set_disk w ((dest_path, upload) :: disk w))
    else (Raise OSError, w).

Definition transcribe_audio (file_path : str) (api_key : option str)
  : M str :=
  let key := resolve_key api_key in
  match key with
  | [] =>
      raise (HTTPException 400
        ("No LLM API key provided. Set an API key in the app or configure "
         ++ "LLM_API_KEY / OPENAI_API_KEY on the server to enable transcription."))
  | _ =>
      fun w =>
        match read_file file_path (disk w) with
        | None =>
            (Raise (HTTPException 500
               ("Error calling transcription service: "
                ++ "[Errno 2] No such file or directory: '" ++ file_path
                ++ "'")), w)
        | Some content =>
            let req :=
              {| url := rstrip_char 47%N (LLM_API_BASE cfg)
                        ++ "/audio/transcriptions";
                 authorization_header := "Bearer " ++ key;
                 body := AudioBody (STT_MODEL_NAME cfg) (basename file_path)
                           content |} in
            (let* resp := post req in
             match resp with
             | TransportFailure e =>
                 raise (HTTPException 500
                   ("Error calling transcription service: " ++ e))
             | Response status_code text =>
                 if negb (status_code =? 200)
                 then raise (HTTPException 500
                        ("Transcription error " ++ str_of_Z status_code
                         ++ ": " ++ take 200 text))
                 else ret text
             end) w
        end
  end.

(* ================================================================= *)
(** ** Ingestion: [POST /meetings/with-audio] *)

(** [await asyncio.gather(a, b)]: both operations are started, [a] first,
    and both run to their end; the results are returned when neither
    raised, and an exception is raised when one did.  Which of two
    exceptions the caller sees depends on which operation settles first;
    the handler treats every exception alike. *)
Definition gather {A B} (a : M A) (b : M B) : M (A * B) :=
  fun w =>
    match a w with
    | (ra, w1) =>
        match b w1 with
        | (rb, w2) =>
            (match ra, rb with
             | Ok x, Ok y => Ok (x, y)
             | Raise e, _ => Raise e
             | _, Raise e => Raise e
             end, w2)
        end
    end.

(** [try: m  except HTTPException: h  except Exception: h] *)
Definition catch {A} (m : M A) (h : M A) : M A :=
  fun w =>
    match m w with
    | (Ok a, w') => (Ok a, w')
    | (Raise _, w') => h w'
    end.

(** The transcript, the summary and the action items of the upload: the
    two nested [try] statements of the handler. *)
Definition enrich (audio_path : str) (x_llm_api_key : option str)
  : M (str * option str * list ActionItem.t) :=
  catch
    (let* transcript := transcribe_audio audio_path x_llm_api_key in
     catch
       (let* (summary, action_items) :=
          gather (generate_summary transcript x_llm_api_key)
                 (extract_action_items_via_llama transcript x_llm_api_key) in
        ret (transcript, Some summary, action_items))
       (ret (transcript, None, [])))
    (ret ([], None, [])).

Definition opt_pyval (o : option str) : pyval :=
  match o with
  | Some s => PStr s
  | None => PNone
  end.

(** The list of dicts the handlers serialise into the [action_items]
    column. *)
Definition action_items_payload (items : list ActionItem.t) : pyval :=
  PList (map (fun item =>
    PDict [ ("task" : str, PStr (ActionItem.task item));
            ("owner" : str, opt_pyval (ActionItem.owner item));
            ("due_date" : str, opt_pyval (ActionItem.due_date item));
            ("status" : str,
             PStr (or_str (ActionItem.status item) "open")) ]) items).

(** A string that holds a code point of the surrogate range cannot be
    encoded as UTF-8, which is how the database driver binds the value of
    a text column; a column left [None] is bound as NULL. *)
Definition has_surrogate (s : str) : bool :=
  existsb (fun c => (55296 <=? c) && (c <=? 57343))%N s.

(** [db.add(meeting); db.commit(); db.refresh(meeting)].  The commit raises
    and stores nothing when a text column cannot be bound.  Of the columns
    of the row the ingestion builds, only the summary can hold a surrogate:
    it is text [json.loads] decoded from the reply of the model, where an
    escaped lone surrogate is accepted.  The other columns are form fields
    the framework decoded from bytes, a uuid, the response text the client
    decoded with replacement, and the ASCII text [json.dumps] writes. *)
Definition bindable (column : option str) : bool :=
  match column with
  | Some text => negb (has_surrogate text)
  | None => true
  end.

Definition db_add (meeting : Meeting.t) : M Meeting.t :=
  fun w =>
    if bindable (Meeting.summary meeting)
    then (Ok meeting, set_meetings w (meetings w ++ [meeting]))
    else (Raise UnicodeEncodeError, w).

Definition now : M datetime := fun w => (Ok (utcnow w), w).

Definition create_meeting_with_audio
  (title : str) (folder_id start_time end_time calendar_event_id : option str)
  (audio : str) (authorization x_llm_api_key : option str)
  : M MeetingDict.t :=
  let* meeting_id := uuid4 in
  let audio_filename := meeting_id ++ ".wav" in
  let audio_path := path_join (AUDIO_DIR cfg) audio_filename in
  let* _ := save_upload_to_wav audio audio_path in
  let* (transcript, summary, action_items) :=
    enrich audio_path x_llm_api_key in
  let* user := current_user authorization in
  let action_items_json := json_dumps (action_items_payload action_items) in
  let* created_at := now in
  let* meeting :=
    db_add (Meeting.mk
      meeting_id title folder_id created_at start_time end_time
      (Some ("completed" : str))
      (Some transcript)
      summary
      (Some (path_join "audio" audio_filename))
      calendar_event_id
      (Some action_items_json)
      (Some false)
      (Some (User.id user))) in
  ret (meeting_to_dict meeting).

(* ================================================================= *)
(** ** Questions and topics: [POST /ai/qa], [POST /ai/topics] *)

Definition owned_by (user : User.t) (m : Meeting.t) : bool :=
  match Meeting.owner_id m with
  | Some o => str_eqb o (User.id user)
  | None => false
  end.

(** [ORDER BY created_at DESC]; rows with equal timestamps keep the order
    of the table. *)
Fixpoint insert_desc (m : Meeting.t) (l : list Meeting.t) : list Meeting.t :=
  match l with
  | [] => [m]
  | x :: r =>
      if datetime_leb (Meeting.created_at m) (Meeting.created_at x)
      then x :: insert_desc m r
      else m :: l
  end.

Definition order_desc (l : list Meeting.t) : list Meeting.t :=
  fold_right insert_desc [] l.

(** The most recent [n] meetings of [user]. *)
Definition recent_meetings (n : nat) (user : User.t) : M (list Meeting.t) :=
  fun w => (Ok (firstn n (order_desc (filter (owned_by user) (meetings w)))),
            w).

Definition qa_context_line (m : Meeting.t) : str :=
  "- id: " ++ Meeting.id m ++ nl
  ++ "  title: " ++ Meeting.title m ++ nl
  ++ "  created_at: " ++ isoformat (Meeting.created_at m) ++ nl
  ++ "  summary: " ++ or_str (Meeting.summary m) "No summary available."
  ++ nl.

Definition qa_prompt (ms : list Meeting.t) (question : str) : str :=
  "You are an assistant that answers questions about past meetings." ++ nl
  ++ "You are given a list of meetings with id, title, created_at, and summary."
  ++ nl
  ++ "Answer the user's question based ONLY on this context." ++ nl
  ++ "If you truly cannot answer from the data, say you don't know." ++ nl
  ++ "Respond in JSON with this exact shape:" ++ nl
  ++ "{" ++ nl
  ++ "  " ++ dq ++ "answer" ++ dq ++ ": " ++ dq ++ "short markdown answer"
  ++ dq ++ "," ++ nl
  ++ "  " ++ dq ++ "references" ++ dq ++ ": [ { " ++ dq ++ "meeting_id" ++ dq
  ++ ": " ++ dq ++ "..." ++ dq ++ " }, ... ]" ++ nl
  ++ "}" ++ nl ++ nl
  ++ "Meetings:" ++ nl ++ join (nl ++ nl) (map qa_context_line ms)
  ++ nl ++ nl
  ++ "Question: " ++ question ++ nl.

(** The body of the [try] of [ai_question_answer]: the answer and the raw
    references. *)
Definition parse_answer (raw : str) : result (str * pyval) :=
  let raw_json := bracketed "{" "}" raw in
  let? parsed := loads raw_json in
  let? got := py_get parsed "answer" in
  let stripped := strip (py_str (py_or got (PStr []))) in
  let answer_text := match stripped with [] => raw | _ => stripped end in
  let? got := py_get parsed "references" in
  Ok (answer_text, py_or got (PList [])).

Fixpoint dedup (l : list str) : list str :=
  match l with
  | [] => []
  | x :: r => if existsb (str_eqb x) r then dedup r else x :: dedup r
  end.

(** The set of the referenced ids; its order is of no consequence. *)
Definition referenced_ids (refs_raw : pyval) : result (list str) :=
  let? rs := py_iter refs_raw in
  let? ids :=
    traverse (fun r => let? got := py_get r "meeting_id" in Ok (py_str got))
             (filter is_dict rs) in
  Ok (dedup ids).

Definition meetings_among (ids : list str) (user : User.t)
  : M (list Meeting.t) :=
  fun w =>
    (Ok (order_desc
           (filter (fun m => owned_by user m
                             && existsb (str_eqb (Meeting.id m)) ids)
                   (meetings w))), w).

Definition ai_question_answer
  (payload_question : str) (authorization x_llm_api_key : option str)
  : M QAResponse.t :=
  let question := strip payload_question in
  match question with
  | [] => raise (HTTPException 400 "Question cannot be empty.")
  | _ =>
      let* user := current_user authorization in
      let* ms := recent_meetings 40 user in
      match ms with
      | [] =>
          ret (QAResponse.mk "There are no meetings in the system yet." [])
      | _ =>
          let* raw := ollama_chat (qa_prompt ms question) x_llm_api_key in
          match parse_answer raw with
          | Raise _ => ret (QAResponse.mk raw [])
          | Ok (answer_text, refs_raw) =>
              let* id_set := lift (referenced_ids refs_raw) in
              match id_set with
              | [] => ret (QAResponse.mk answer_text [])
              | _ =>
                  let* user := current_user authorization in
                  let* rows := meetings_among id_set user in
                  ret (QAResponse.mk answer_text
                         (map (fun m =>
                                 QAReference.mk (Meeting.id m)
                                   (Meeting.title m) (Meeting.created_at m))
                              rows))
              end
          end
      end
  end.

Definition topics_context_line (m : Meeting.t) : str :=
  "- id: " ++ Meeting.id m ++ nl
  ++ "  title: " ++ Meeting.title m ++ nl
  ++ "  created_at: " ++ isoformat (Meeting.created_at m) ++ nl
  ++ "  summary: " ++ or_str (Meeting.summary m) "No summary" ++ nl.

(** The en dash of the prompt is the code point U+2013. *)
Definition topics_prompt (ms : list Meeting.t) : str :=
  "You are an assistant that groups related meetings into topics." ++ nl
  ++ "Given the list of meetings below, create 3" ++ [8211%N]
  ++ "8 coherent clusters." ++ nl
  ++ "Respond ONLY as JSON with this shape:" ++ nl
  ++ "{ " ++ dq ++ "clusters" ++ dq ++ ": [" ++ nl
  ++ "  {" ++ nl
  ++ "    " ++ dq ++ "name" ++ dq ++ ": " ++ dq ++ "Short topic name" ++ dq
  ++ "," ++ nl
  ++ "    " ++ dq ++ "description" ++ dq ++ ": " ++ dq
  ++ "Optional one-sentence description" ++ dq ++ "," ++ nl
  ++ "    " ++ dq ++ "meeting_ids" ++ dq ++ ": [" ++ dq ++ "id1" ++ dq ++ ", "
  ++ dq ++ "id2" ++ dq ++ ", ...]" ++ nl
  ++ "  }," ++ nl
  ++ "  ..." ++ nl
  ++ "]}" ++ nl ++ nl
  ++ "Meetings:" ++ nl ++ join (nl ++ nl) (map topics_context_line ms) ++ nl.

(** The [TopicCluster] built from one candidate; [None] when the
    candidate is skipped. *)
Definition cluster_of (c : pyval) : result (option TopicCluster.t) :=
  if negb (is_dict c) then Ok None
  else
    let? got := py_get c "name" in
    let? name := py_strip (py_or got (PStr [])) in
    match name with
    | [] => Ok None
    | _ =>
        let? got := py_get c "meeting_ids" in
        let? mids := py_iter (py_or got (PList [])) in
        let meeting_ids := map py_str (filter is_str_or_int mids) in
        let? description := py_get c "description" in
        match optional_str description with
        | Some d => Ok (Some (TopicCluster.mk name d meeting_ids))
        | None => Raise ValidationError
        end
    end.

(** The body of the [try] of [ai_topics]. *)
Definition parse_clusters (raw : str) : result (list TopicCluster.t) :=
  let raw_json := bracketed "{" "}" raw in
  let? parsed := loads raw_json in
  let? got := py_get parsed "clusters" in
  let? clusters_raw := py_iter (py_or got (PList [])) in
  let? clusters := traverse cluster_of clusters_raw in
  Ok (somes clusters).

Definition ai_topics (authorization x_llm_api_key : option str)
  : M (list TopicCluster.t) :=
  let* user := current_user authorization in
  let* ms := recent_meetings 50 user in
  match ms with
  | [] => ret []
  | _ =>
      let* raw := ollama_chat (topics_prompt ms) x_llm_api_key in
      ret (try_except (parse_clusters raw) [])
  end.

(* ================================================================= *)
(** ** Calendar sync: [POST /meetings/{meeting_id}/sync_calendar] *)

(** The store of events behind [service.events()]: [get] and [update]
    raise for an identifier the calendar does not hold, [update] replaces
    the stored event by the body it is given, and [insert] stores the body
    under a new identifier. *)
Fixpoint lookup_event (id : str) (es : list (str * Event.t))
  : option Event.t :=
  match es with
  | [] => None
  | (k, ev) :: r => if str_eqb id k then Some ev else lookup_event id r
  end.

Fixpoint replace_event (id : str) (ev : Event.t) (es : list (str * Event.t))
  : list (str * Event.t) :=
  match es with
  | [] => []
  | (k, old) :: r =>
      if str_eqb id k then (k, ev) :: r else (k, old) :: replace_event id ev r
  end.

Definition events_get (eventId : str) : M Event.t :=
  fun w =>
    match lookup_event eventId (events w) with
    | Some ev => (Ok ev, w)
    | None => (Raise HttpError, w)
    end.

Definition events_update (eventId : str) (body : Event.t) : M Event.t :=
  fun w =>
    match lookup_event eventId (events w) with
    | Some _ => (Ok body, set_events w (replace_event eventId body (events w)))
    | None => (Raise HttpError, w)
    end.

Definition events_insert (body : Event.t) : M Event.t :=
  let* id := uuid4 in
  fun w =>
    let created :=
      Event.mk (Some id) (Event.summary body) (Event.description body)
        (Event.start body) (Event.end_ body) in
    (Ok created, set_events w (events w ++ [(id, created)])).

Definition replace_user (user : User.t) (us : list User.t) : list User.t :=
  map (fun u => if str_eqb (User.id u) (User.id user) then user else u) us.

(** The client is built from the stored credentials; credentials that were
    refreshed on the way are written back to the user. *)
Definition _get_calendar_service_for_user (user : User.t) : M unit :=
  match User.google_creds_json user with
  | [] =>
      raise (HTTPException 400
               "Google Calendar is not connected for this user.")
  | _ =>
      fun w =>
        match calendar_access w user with
        | Raise e => (Raise e, w)
        | Ok None => (Ok tt, w)
        | Ok (Some creds) =>
            let user' :=
              User.mk (User.id user) (User.email user) (User.google_sub user)
                creds (User.api_token user) (User.created_at user) in
            (Ok tt, set_users w (replace_user user' (users w)))
        end
  end.

Definition meeting_by_id (meeting_id : str) (user : User.t)
  : M (option Meeting.t) :=
  fun w =>
    (Ok (List.find (fun m => str_eqb (Meeting.id m) meeting_id
                             && owned_by user m) (meetings w)), w).

(** [db.commit()] after the attributes of [meeting] were assigned. *)
Definition db_update (meeting : Meeting.t) : M unit :=
  fun w =>
    (Ok tt,
     set_meetings w
       (map (fun m => if str_eqb (Meeting.id m) (Meeting.id meeting)
                      then meeting else m) (meetings w))).

(** The start of the event: the payload's, else the meeting's, else the
    creation time of the meeting. *)
Definition resolve_start
  (payload : CalendarSyncPayload.t) (meeting : Meeting.t) : str :=
  or_str (or_opt (CalendarSyncPayload.start_time payload)
                 (Meeting.start_time meeting))
         (isoformat (Meeting.created_at meeting)).

(** [datetime.fromisoformat(start_iso) + timedelta(hours=1)], as ISO
    text. *)
Definition one_hour_after (start_iso : str) : result str :=
  match fromisoformat start_iso with
  | None => Raise ValueError
  | Some dt_start =>
      let? dt_end := plus_one_hour dt_start in
      Ok (isoformat dt_end)
  end.

(** The end of the event: the payload's, else the meeting's, else one hour
    after the start, else the start. *)
Definition resolve_end
  (payload : CalendarSyncPayload.t) (meeting : Meeting.t) (start_iso : str)
  : str :=
  match or_opt (CalendarSyncPayload.end_time payload)
               (Meeting.end_time meeting) with
  | Some (c :: s) => c :: s
  | _ => try_except (one_hour_after start_iso) start_iso
  end.

Definition description_snippet (meeting : Meeting.t) : str :=
  let snippet_lines : list str :=
    [ ("Meeting notes from AI Meeting Notes:" : str);
      "Title: " ++ Meeting.title meeting;
      "Created at: " ++ isoformat (Meeting.created_at meeting) ]
    ++ match Meeting.summary meeting with
       | Some (c :: s) => [ ([] : str); ("Summary:" : str); c :: s ]
       | _ => []
       end in
  join nl snippet_lines.

(** The description of the updated event. *)
Definition merged_description (snippet existing_desc : str) : str :=
  if negb (contains existing_desc snippet)
  then match existing_desc with
       | [] => snippet
       | _ => existing_desc ++ nl ++ nl ++ "---" ++ nl ++ snippet
       end
  else existing_desc.

Definition sync_meeting_calendar
  (meeting_id : str) (payload : CalendarSyncPayload.t)
  (authorization : option str) : M MeetingDict.t :=
  let* user := current_user authorization in
  let* _ := _get_calendar_service_for_user user in
  let* found := meeting_by_id meeting_id user in
  match found with
  | None => raise (HTTPException 404 "Meeting not found")
  | Some meeting =>
      let start_iso := resolve_start payload meeting in
      let end_iso := resolve_end payload meeting start_iso in
      let snippet := description_snippet meeting in
      let utc : str := "UTC" in
      let* event_id :=
        match CalendarSyncPayload.event_id payload with
        | Some (c :: s) =>
            let eid := c :: s in
            let* ev :=
              fun w =>
                match events_get eid w with
                | (Ok ev, w') => (Ok ev, w')
                | (Raise _, w') =>
                    (Raise (HTTPException 400
                       ("Failed to load existing event " ++ eid ++ ": "
                        ++ event_error w' eid)), w')
                end in
            let existing_desc := or_str (Event.description ev) [] in
            let new_desc := merged_description snippet existing_desc in
            let body :=
              Event.mk (Event.id ev)
                (if truthy_opt (Event.summary ev) then Event.summary ev
                 else Some (Meeting.title meeting))
                (Some new_desc)
                (Some (start_iso, utc))
                (Some (end_iso, utc)) in
            let* updated := events_update eid body in
            ret (or_opt (Event.id updated) (Some eid))
        | _ =>
            let body :=
              Event.mk None (Some (Meeting.title meeting)) (Some snippet)
                (Some (start_iso, utc)) (Some (end_iso, utc)) in
            let* created := events_insert body in
            ret (Event.id created)
        end in
      match event_id with
      | Some (c :: s) =>
          let meeting' :=
            Meeting.mk (Meeting.id meeting) (Meeting.title meeting)
              (Meeting.folder_id meeting) (Meeting.created_at meeting)
              (Some start_iso) (Some end_iso)
              (Meeting.status meeting) (Meeting.transcript meeting)
              (Meeting.summary meeting) (Meeting.audio_path meeting)
              (Some (c :: s)) (Meeting.action_items meeting)
              (Meeting.is_favorite meeting) (Meeting.owner_id meeting) in
          let* _ := db_update meeting' in
          ret (meeting_to_dict meeting')
      | _ =>
          raise (HTTPException 500
                   "Failed to create or update calendar event.")
      end
  end.

End Handlers.

(* ================================================================= *)
(** ** An implementation of the libraries *)

(** A parser for the JSON texts that hold no number with a fraction or an
    exponent, a pydantic that accepts a string or [None] for an
    [Optional[str]] field and nothing else, and a [fromisoformat] for the
    texts [isoformat] writes.  On such inputs they answer as [json.loads],
    pydantic 2 and [datetime.fromisoformat] do; they are what the examples
    of this file run on. *)
Module Impl.

Definition json_space (c : char) : bool :=
  ((c =? 32) || (c =? 9) || (c =? 10) || (c =? 13))%N.

Definition skip_ws (s : str) : str := dropwhile json_space s.

Definition is_digit (c : char) : bool := ((48 <=? c) && (c <=? 57))%N.

Definition hex_value (c : char) : option N :=
  (if (48 <=? c) && (c <=? 57) then Some (c - 48)
   else if (97 <=? c) && (c <=? 102) then Some (c - 87)
   else if (65 <=? c) && (c <=? 70) then Some (c - 55)
   else None)%N.

(** The four hexadecimal digits after a backslash and a [u]. *)
Definition hex4 (s : str) : option (N * str) :=
  match s with
  | a :: b :: c :: d :: r =>
      match hex_value a, hex_value b, hex_value c, hex_value d with
      | Some x, Some y, Some z, Some t =>
          Some (((x * 16 + y) * 16 + z) * 16 + t, r)%N
      | _, _, _, _ => None
      end
  | _ => None
  end.

(** The characters of a string literal after its opening quote, up to the
    closing one; a surrogate pair of escapes is one character. *)
Fixpoint string_body (fuel : nat) (s : str) (acc : str)
  : option (str * str) :=
  match fuel with
  | O => None
  | S fuel =>
      match s with
      | [] => None
      | c :: r =>
          if (c =? 34)%N then Some (rev acc, r)
          else if (c =? 92)%N then
            match r with
            | e :: r' =>
                if (e =? 34)%N then string_body fuel r' (34%N :: acc)
                else if (e =? 92)%N then string_body fuel r' (92%N :: acc)
                else if (e =? 47)%N then string_body fuel r' (47%N :: acc)
                else if (e =? 98)%N then string_body fuel r' (8%N :: acc)
                else if (e =? 102)%N then string_body fuel r' (12%N :: acc)
                else if (e =? 110)%N then string_body fuel r' (10%N :: acc)
                else if (e =? 114)%N then string_body fuel r' (13%N :: acc)
                else if (e =? 116)%N then string_body fuel r' (9%N :: acc)
                else if (e =? 117)%N then
                  match hex4 r' with
                  | Some (u, r2) =>
                      if ((55296 <=? u) && (u <? 56320))%N then
                        match r2 with
                        | b1 :: b2 :: r3 =>
                            match hex4 r3 with
                            | Some (v, r4) =>
                                if ((b1 =? 92) && (b2 =? 117)
                                    && (56320 <=? v) && (v <? 57344))%N
                                then string_body fuel r4
                                       ((65536 + (u - 55296) * 1024
                                         + (v - 56320))%N :: acc)
                                else string_body fuel r2 (u :: acc)
                            | None => string_body fuel r2 (u :: acc)
                            end
                        | _ => string_body fuel r2 (u :: acc)
                        end
                      else string_body fuel r2 (u :: acc)
                  | None => None
                  end
                else None
            | [] => None
            end
          else if (c <? 32)%N then None
          else string_body fuel r (c :: acc)
      end
  end.

Fixpoint digits (s : str) (acc : Z) : Z * str :=
  match s with
  | c :: r =>
      if is_digit c then digits r (acc * 10 + Z.of_N (c - 48)) else (acc, s)
  | [] => (acc, s)
  end.

(** An integer: an optional minus sign, then a zero or digits that do not
    start with a zero.  A fraction or an exponent after it is outside the
    subset. *)
Definition number (s : str) : option (Z * str) :=
  let '(neg, s1) :=
    match s with
    | c :: r => if (c =? 45)%N then (true, r) else (false, s)
    | [] => (false, s)
    end in
  match s1 with
  | c :: r =>
      if is_digit c then
        let '(n, rest) := if (c =? 48)%N then (0, r) else digits s1 0 in
        match rest with
        | d :: _ =>
            if ((d =? 46) || (d =? 101) || (d =? 69))%N then None
            else Some (if neg then - n else n, rest)
        | [] => Some (if neg then - n else n, rest)
        end
      else None
  | [] => None
  end.

(** [d[k] = v]: a key that is there keeps its place. *)
Fixpoint dict_set (k : str) (v : pyval) (d : list (str * pyval))
  : list (str * pyval) :=
  match d with
  | [] => [(k, v)]
  | (k', x) :: r =>
      if str_eqb k k' then (k', v) :: r else (k', x) :: dict_set k v r
  end.

Fixpoint value (fuel : nat) (s : str) : option (pyval * str) :=
  match fuel with
  | O => None
  | S fuel =>
      let s := skip_ws s in
      if startswith s "null" then Some (PNone, skipn 4 s)
      else if startswith s "true" then Some (PBool true, skipn 4 s)
      else if startswith s "false" then Some (PBool false, skipn 5 s)
      else if startswith s "NaN" then Some (PFloat S754_nan, skipn 3 s)
      else if startswith s "Infinity"
      then Some (PFloat (S754_infinity false), skipn 8 s)
      else if startswith s "-Infinity"
      then Some (PFloat (S754_infinity true), skipn 9 s)
      else
        match s with
        | [] => None
        | c :: r =>
            if (c =? 34)%N then
              match string_body (S (length r)) r [] with
              | Some (x, rest) => Some (PStr x, rest)
              | None => None
              end
            else if (c =? 91)%N then
              match skip_ws r with
              | c' :: r' =>
                  if (c' =? 93)%N then Some (PList [], r')
                  else elements fuel r []
              | [] => None
              end
            else if (c =? 123)%N then
              match skip_ws r with
              | c' :: r' =>
                  if (c' =? 125)%N then Some (PDict [], r')
                  else members fuel r []
              | [] => None
              end
            else
              match number s with
              | Some (n, rest) => Some (PInt n, rest)
              | None => None
              end
        end
  end

with elements (fuel : nat) (s : str) (acc : list pyval)
  : option (pyval * str) :=
  match fuel with
  | O => None
  | S fuel =>
      match value fuel s with
      | Some (v, rest) =>
          match skip_ws rest with
          | c :: r =>
              if (c =? 44)%N then elements fuel r (v :: acc)
              else if (c =? 93)%N then Some (PList (rev (v :: acc)), r)
              else None
          | [] => None
          end
      | None => None
      end
  end

with members (fuel : nat) (s : str) (acc : list (str * pyval))
  : option (pyval * str) :=
  match fuel with
  | O => None
  | S fuel =>
      match skip_ws s with
      | q :: r =>
          if (q =? 34)%N then
            match string_body (S (length r)) r [] with
            | Some (k, rest) =>
                match skip_ws rest with
                | c :: r' =>
                    if (c =? 58)%N then
                      match value fuel r' with
                      | Some (v, rest') =>
                          match skip_ws rest' with
                          | c' :: r2 =>
                              if (c' =? 44)%N
                              then members fuel r2 (dict_set k v acc)
                              else if (c' =? 125)%N
                              then Some (PDict (dict_set k v acc), r2)
                              else None
                          | [] => None
                          end
                      | None => None
                      end
                    else None
                | [] => None
                end
            | None => None
            end
          else None
      | [] => None
      end
  end.

(** [json.loads]: one value, with nothing but white space around it. *)
Definition loads (s : str) : option pyval :=
  match value (S (length s)) s with
  | Some (v, rest) =>
      match skip_ws rest with
      | [] => Some v
      | _ => None
      end
  | None => None
  end.

(** pydantic 2 on an [Optional[str]] field: [None] and strings pass, any
    other value is refused. *)
Definition optional_str (v : pyval) : option (option str) :=
  match v with
  | PNone => Some None
  | PStr s => Some (Some s)
  | _ => None
  end.

(** [n] digits read as a number. *)
Fixpoint take_digits (n : nat) (s : str) (acc : Z) : option (Z * str) :=
  match n with
  | O => Some (acc, s)
  | S n' =>
      match s with
      | c :: r =>
          if is_digit c then take_digits n' r (acc * 10 + Z.of_N (c - 48))
          else None
      | [] => None
      end
  end.

Definition expect (c : char) (s : str) : option str :=
  match s with
  | d :: r => if (c =? d)%N then Some r else None
  | [] => None
  end.

Definition valid_datetimeb (dt : datetime) : bool :=
  (1 <=? year dt) && (year dt <=? MAXYEAR)
  && (1 <=? month dt) && (month dt <=? 12)
  && (1 <=? day dt) && (day dt <=? days_in_month (year dt) (month dt))
  && (0 <=? hour dt) && (hour dt <? 24)
  && (0 <=? minute dt) && (minute dt <? 60)
  && (0 <=? second dt) && (second dt <? 60)
  && (0 <=? microsecond dt) && (microsecond dt <? 1000000).

(** [HH[:MM[:SS[.fff[fff]]]]]: the hour, the minute, the second and the
    microsecond, and what follows them. *)
Definition time_fields (s : str) : option (Z * Z * Z * Z * str) :=
  match take_digits 2 s 0 with
  | None => None
  | Some (hh, s1) =>
      match expect 58%N s1 with
      | None => Some (hh, 0, 0, 0, s1)
      | Some s2 =>
          match take_digits 2 s2 0 with
          | None => None
          | Some (mm, s3) =>
              match expect 58%N s3 with
              | None => Some (hh, mm, 0, 0, s3)
              | Some s4 =>
                  match take_digits 2 s4 0 with
                  | None => None
                  | Some (ss, s5) =>
                      match expect 46%N s5 with
                      | None => Some (hh, mm, ss, 0, s5)
                      | Some s6 =>
                          match take_digits 6 s6 0 with
                          | Some (us, s7) => Some (hh, mm, ss, us, s7)
                          | None =>
                              match take_digits 3 s6 0 with
                              | Some (ms, s7) =>
                                  Some (hh, mm, ss, ms * 1000, s7)
                              | None => None
                              end
                          end
                      end
                  end
              end
          end
      end
  end.

(** A sign, then [HH:MM] or [HH:MM:SS], up to the end of the text: the
    offset in seconds. *)
Definition offset_field (s : str) : option Z :=
  match s with
  | sign :: r =>
      if ((sign =? 43) || (sign =? 45))%N then
        match time_fields r with
        | Some (hh, mm, ss, 0, []) =>
            if (hh <? 24) && (mm <? 60) && (ss <? 60)
               && (match r with
                   | [_; _; _; _; _] | [_; _; _; _; _; _; _; _] => true
                   | _ => false
                   end)
            then
              let off := hh * 3600 + mm * 60 + ss in
              Some (if (sign =? 45)%N then - off else off)
            else None
        | _ => None
        end
      else None
  | [] => None
  end.

(** [YYYY-MM-DD], then nothing or one separator, a time of day and
    possibly an offset; the fields must make a date and a time that
    exist. *)
Definition fromisoformat (s : str) : option datetime :=
  match take_digits 4 s 0 with
  | None => None
  | Some (y, s1) =>
      match expect 45%N s1 with
      | None => None
      | Some s2 =>
          match take_digits 2 s2 0 with
          | None => None
          | Some (m, s3) =>
              match expect 45%N s3 with
              | None => None
              | Some s4 =>
                  match take_digits 2 s4 0 with
                  | None => None
                  | Some (d, s5) =>
                      let checked dt :=
                        if valid_datetimeb dt then Some dt else None in
                      match s5 with
                      | [] => checked (mk_datetime y m d 0 0 0 0 None)
                      | _ :: s6 =>
                          match time_fields s6 with
                          | None => None
                          | Some (hh, mm, ss, us, rest) =>
                              match rest with
                              | [] =>
                                  checked
                                    (mk_datetime y m d hh mm ss us None)
                              | _ =>
                                  match offset_field rest with
                                  | Some off =>
                                      checked
                                        (mk_datetime y m d hh mm ss us
                                           (Some off))
                                  | None => None
                                  end
                              end
                          end
                      end
                  end
              end
          end
      end
  end.

(** [repr] of the floats this parser can build. *)
Definition float_repr (f : spec_float) : str :=
  match f with
  | S754_nan => "nan"
  | S754_infinity false => "inf"
  | S754_infinity true => "-inf"
  | S754_zero false => "0.0"
  | S754_zero true => "-0.0"
  | S754_finite _ _ _ => "<float>"
  end.

(** [repr] of a string without quote, backslash or control character. *)
Definition str_repr (s : str) : str := "'" ++ s ++ "'".

Fixpoint repr (v : pyval) : str :=
  match v with
  | PNone => "None"
  | PBool true => "True"
  | PBool false => "False"
  | PInt z => str_of_Z z
  | PFloat f => float_repr f
  | PStr s => str_repr s
  | PList l =>
      "[" ++
      (fix items (l : list pyval) : str :=
         match l with
         | [] => []
         | x :: r => repr x ++ match r with [] => [] | _ => ", " ++ items r end
         end) l
      ++ "]"
  | PDict d =>
      "{" ++
      (fix members (d : list (str * pyval)) : str :=
         match d with
         | [] => []
         | (k, x) :: r =>
             str_repr k ++ ": " ++ repr x ++
             match r with [] => [] | _ => ", " ++ members r end
         end) d
      ++ "}"
  end.

(** The length of the run of characters outside ASCII that [s] starts
    with. *)
Fixpoint non_ascii_run (s : str) : nat :=
  match s with
  | c :: r => if (128 <=? c)%N then S (non_ascii_run r) else O
  | [] => O
  end.

(** A character outside ASCII as [repr] escapes it. *)
Definition char_escape (c : char) : str :=
  (if c <? 256
   then bs ++ "x" ++ [hex_digit (c / 16); hex_digit c]
   else if c <? 65536
   then bs ++ "u" ++ [hex_digit (c / 4096); hex_digit (c / 256);
                      hex_digit (c / 16); hex_digit c]
   else bs ++ "U" ++ [hex_digit (c / 268435456); hex_digit (c / 16777216);
                      hex_digit (c / 1048576); hex_digit (c / 65536);
                      hex_digit (c / 4096); hex_digit (c / 256);
                      hex_digit (c / 16); hex_digit c])%N.

(** [str(e)] for the [UnicodeEncodeError] of [value.encode(<ascii>)], where
    [s] is what is left of the value from [position] on. *)
Fixpoint ascii_error (position : Z) (s : str) : option str :=
  match s with
  | [] => None
  | c :: r =>
      if (128 <=? c)%N
      then Some ("'ascii' codec can't encode "
                 ++ match non_ascii_run r with
                    | O => "character '" ++ char_escape c
                           ++ "' in position " ++ str_of_Z position
                    | S n => "characters in position " ++ str_of_Z position
                             ++ "-"
                             ++ str_of_Z (position + Z.of_nat (S n))
                    end
                 ++ ": ordinal not in range(128)")
      else ascii_error (position + 1) r
  end.

(** The client builds the request by encoding the value of the header as
    ASCII; the payload is written as ASCII JSON, which never fails.  What
    happens to a request once it is built is the part of the backend. *)
Definition request_error (req : http_request) : option str :=
  ascii_error 0 (authorization_header req).

End Impl.

(* ================================================================= *)
(** * Properties *)

(** ** Strings *)

Lemma str_eqb_eq (a b : str) : str_eqb a b = true <-> a = b.
Proof.
  unfold str_eqb. destruct (list_eq_dec N.eq_dec a b); split; congruence.
Qed.

Lemma str_eqb_refl (a : str) : str_eqb a a = true.
Proof. apply str_eqb_eq. reflexivity. Qed.

Lemma startswith_app (p r : str) : startswith (p ++ r) p = true.
Proof.
  induction p as [|c p IH]; simpl.
  - reflexivity.
  - rewrite N.eqb_refl. exact IH.
Qed.

Lemma startswith_inv (s p : str) :
  startswith s p = true -> exists r, s = p ++ r.
Proof.
  revert s. induction p as [|c p IH]; intros s H.
  - exists s. reflexivity.
  - destruct s as [|d s]; simpl in H; [discriminate|].
    apply andb_true_iff in H. destruct H as [Hc Hp].
    apply N.eqb_eq in Hc. subst d.
    destruct (IH s Hp) as [r ->]. exists r. reflexivity.
Qed.

Lemma contains_app (a sub b : str) : contains (a ++ sub ++ b) sub = true.
Proof.
  induction a as [|c a IH].
  - simpl app. destruct (sub ++ b) eqn:E; simpl.
    + destruct sub; [reflexivity | discriminate].
    + rewrite <- E. rewrite startswith_app. reflexivity.
  - simpl. rewrite IH. apply orb_true_r.
Qed.

Lemma contains_inv (s sub : str) :
  contains s sub = true -> exists a b, s = a ++ sub ++ b.
Proof.
  induction s as [|c s IH]; simpl; intros H.
  - rewrite orb_false_r in H. apply startswith_inv in H.
    destruct H as [r H]. exists [], r. exact H.
  - apply orb_true_iff in H. destruct H as [H|H].
    + apply startswith_inv in H. destruct H as [r H].
      exists [], r. exact H.
    + destruct (IH H) as (a & b & ->). exists (c :: a), b. reflexivity.
Qed.

Lemma contains_refl (s : str) : contains s s = true.
Proof.
  pose proof (contains_app [] s []) as H. simpl in H.
  rewrite app_nil_r in H. exact H.
Qed.

Lemma contains_suffix (a s : str) : contains (a ++ s) s = true.
Proof.
  pose proof (contains_app a s []) as H.
  rewrite app_nil_r in H. exact H.
Qed.

Lemma dropwhile_idem (p : char -> bool) (s : str) :
  dropwhile p (dropwhile p s) = dropwhile p s.
Proof.
  induction s as [|c s IH]; simpl.
  - reflexivity.
  - destruct (p c) eqn:E.
    + exact IH.
    + simpl. rewrite E. reflexivity.
Qed.

Lemma dropwhile_head (p : char -> bool) (s : str) (c : char) (r : str) :
  dropwhile p s = c :: r -> p c = false.
Proof.
  induction s as [|d s IH]; simpl.
  - discriminate.
  - destruct (p d) eqn:E.
    + exact IH.
    + intros H. injection H as -> _. exact E.
Qed.

(** Dropping at the front of a text whose last character stays keeps that
    last character in place. *)
Lemma dropwhile_snoc (p : char -> bool) (s : str) (c : char) :
  p c = false -> dropwhile p (s ++ [c]) = dropwhile p s ++ [c].
Proof.
  intros Hc. induction s as [|d s IH]; simpl.
  - rewrite Hc. reflexivity.
  - destruct (p d); [exact IH | reflexivity].
Qed.

Lemma rstrip_idem (s : str) : rstrip (rstrip s) = rstrip s.
Proof.
  unfold rstrip. rewrite rev_involutive, dropwhile_idem. reflexivity.
Qed.

(** Stripping on the right does not uncover white space on the left. *)
Lemma lstrip_rstrip (s : str) : lstrip (rstrip (lstrip s)) = rstrip (lstrip s).
Proof.
  unfold rstrip, lstrip.
  remember (dropwhile isspace s) as t eqn:Ht.
  assert (Hd : dropwhile isspace t = t) by (subst t; apply dropwhile_idem).
  clear Ht s.
  destruct (dropwhile isspace (rev t)) as [|c u] eqn:Eu.
  - reflexivity.
  - pose proof (dropwhile_head _ _ _ _ Eu) as Hc.
    (* rev t = w ++ c :: u with w white space, so t = rev u ++ c :: rev w *)
    assert (Hsplit : exists w, rev t = w ++ c :: u).
    { clear Hd Hc. revert Eu. generalize (rev t) as v.
      induction v as [|d v IH]; simpl; [discriminate|].
      destruct (isspace d).
      - intros H. destruct (IH H) as [w ->]. exists (d :: w). reflexivity.
      - intros H. injection H as -> ->. exists []. reflexivity. }
    destruct Hsplit as [w Hw].
    assert (Ht : t = rev u ++ c :: rev w).
    { rewrite <- (rev_involutive t), Hw, rev_app_distr. simpl.
      rewrite <- app_assoc. reflexivity. }
    simpl rev.
    destruct (rev u) as [|d ru] eqn:Eru.
    + simpl. rewrite Hc. reflexivity.
    + assert (Hdsp : isspace d = false).
      { rewrite Ht in Hd. simpl in Hd. destruct (isspace d) eqn:E; [|reflexivity].
        exfalso.
        assert (Hlen : (length (dropwhile isspace (ru ++ c :: rev w))
                        <= length (ru ++ c :: rev w))%nat).
        { generalize (ru ++ c :: rev w) as v.
          induction v as [|x v IH]; simpl; [lia|].
          destruct (isspace x); simpl; lia. }
        rewrite Hd in Hlen. simpl in Hlen. lia. }
      simpl. rewrite Hdsp. reflexivity.
Qed.

Lemma strip_idem (s : str) : strip (strip s) = strip s.
Proof.
  unfold strip. rewrite lstrip_rstrip. apply rstrip_idem.
Qed.

Lemma strip_nil : strip [] = [].
Proof. reflexivity. Qed.

(** ** The implementation of the libraries satisfies their laws *)

Lemma valid_datetimeb_spec (dt : datetime) :
  Impl.valid_datetimeb dt = true -> valid_datetime dt.
Proof.
  unfold Impl.valid_datetimeb, valid_datetime. intros H.
  repeat (apply andb_true_iff in H; destruct H as [H ?]).
  repeat match goal with
         | H : (_ <=? _) = true |- _ => apply Z.leb_le in H
         | H : (_ <? _) = true |- _ => apply Z.ltb_lt in H
         end.
  lia.
Qed.

Lemma impl_fromisoformat_valid (s : str) (dt : datetime) :
  Impl.fromisoformat s = Some dt -> valid_datetime dt.
Proof.
  unfold Impl.fromisoformat. intros H. cbv zeta in H.
  repeat match type of H with
         | match ?x with _ => _ end = _ =>
             destruct x eqn:?; try discriminate
         end;
  injection H as <-; apply valid_datetimeb_spec; assumption.
Qed.

Lemma impl_ascii_error (s : str) (position : Z) :
  Impl.ascii_error position s = None ->
  forallb (fun c => (c <? 128)%N) s = true.
Proof.
  revert position. induction s as [|c r IH]; intros position H.
  - reflexivity.
  - simpl in H. simpl. destruct (N.leb_spec 128 c) as [Hc|Hc].
    + discriminate.
    + apply andb_true_iff. split.
      * apply N.ltb_lt. exact Hc.
      * exact (IH _ H).
Qed.

Lemma impl_request_error_ascii (req : http_request) :
  Impl.request_error req = None ->
  forallb (fun c => (c <? 128)%N) (authorization_header req) = true.
Proof.
  apply impl_ascii_error.
Qed.

#[global] Instance impl : PyLib := {|
  json_loads := Impl.loads;
  float_repr := Impl.float_repr;
  container_repr := Impl.repr;
  optional_str := Impl.optional_str;
  optional_str_None := eq_refl;
  optional_str_str := fun _ => eq_refl;
  fromisoformat := Impl.fromisoformat;
  fromisoformat_valid := impl_fromisoformat_valid;
  request_error := Impl.request_error;
  request_error_ascii := impl_request_error_ascii
|}.

(** A JSON text written with apostrophes in the place of double quotes. *)
Definition json_text (s : string) : str :=
  map (fun c => if (c =? 39)%N then 34%N else c) (lit s).

(** ** The stored action items in the public shape (C10) *)

Definition or_default (o : option pyval) (default : pyval) : pyval :=
  match o with
  | Some v => v
  | None => default
  end.

(** What the claim says of one stored element: the task defaults to the
    empty string and the status to [open] when the key is missing. *)
Definition item_defaults (d : list (str * pyval)) : ItemDict.t :=
  ItemDict.mk (or_default (lookup "task" d) (PStr []))
              (or_default (lookup "owner" d) PNone)
              (or_default (lookup "due_date" d) PNone)
              (or_default (lookup "status" d) (PStr "open")).

Section Projection.

Context `{PL : PyLib}.

Lemma item_dict_defaults (d : list (str * pyval)) :
  item_dict (PDict d) = Ok (item_defaults d).
Proof. reflexivity. Qed.

Lemma traverse_item_dict (ds : list (list (str * pyval))) :
  traverse item_dict (map PDict ds) = Ok (map item_defaults ds).
Proof.
  induction ds as [|d ds IH]; simpl.
  - reflexivity.
  - rewrite IH. reflexivity.
Qed.


End Projection.

Definition epoch : datetime := mk_datetime 2024 1 15 10 30 0 0 None.

Definition stored_meeting : Meeting.t :=
  Meeting.mk "m1" "Planning" None epoch None None
    (Some ("completed" : str)) (Some ("We decided to launch Friday." : str))
    None None None
    (Some (json_text "[{'task': 'Prepare the deck', 'owner': 'Alice'}]"))
    (Some false) (Some ("u1" : str)).


(** ** Credentials (C9) *)

(** A credential that is absent, empty or made of white space only. *)
Definition unusable (credential : option str) : Prop :=
  match credential with
  | None => True
  | Some s => strip s = []
  end.

Section Gateways.

Context `{PL : PyLib}.
Variable cfg : Config.

Lemma resolve_key_unusable (api_key : option str) :
  unusable api_key -> unusable (LLM_API_KEY cfg) ->
  resolve_key cfg api_key = [].
Proof.
  unfold resolve_key, or_opt, unusable. intros Ha Hd.
  destruct api_key as [[|c s]|]; simpl.
  - destruct (LLM_API_KEY cfg) as [[|c s]|]; simpl; auto.
  - exact Ha.
  - destruct (LLM_API_KEY cfg) as [[|c s]|]; simpl; auto.
Qed.

(** C9.  When neither the caller's credential nor the process-wide one is
    usable (each is absent, or empty once trimmed), the chat gateway and
    the transcription gateway raise the 400 error that reports the missing
    key, and the world is left as it was: no request went out. *)
Theorem no_credential_no_request (api_key : option str) (w : World) :
  unusable api_key -> unusable (LLM_API_KEY cfg) ->
  (forall prompt, exists detail,
      ollama_chat cfg prompt api_key w = (Raise (HTTPException 400 detail), w))
  /\ (forall file_path, exists detail,
      transcribe_audio cfg file_path api_key w
      = (Raise (HTTPException 400 detail), w)).
Proof.
  intros Ha Hd. pose proof (resolve_key_unusable api_key Ha Hd) as Hk.
  split; intros x.
  - unfold ollama_chat. rewrite Hk. eexists. reflexivity.
  - unfold transcribe_audio. rewrite Hk. eexists. reflexivity.
Qed.

(** ** The action-item extractor (C4) *)

(** An element without a task: the key is missing, its value is falsy, or
    it is a string of white space. *)
Definition lacks_task (d : list (str * pyval)) : Prop :=
  match lookup "task" d with
  | None => True
  | Some v => truthy v = false \/ exists s, v = PStr s /\ strip s = []
  end.

(** An element without a status: the key is missing or its value is
    falsy (null, the empty string). *)
Definition lacks_status (d : list (str * pyval)) : Prop :=
  match lookup "status" d with
  | None => True
  | Some v => truthy v = false
  end.

Lemma action_item_of_task (obj : pyval) (item : ActionItem.t) :
  action_item_of obj = Ok (Some item) ->
  strip (ActionItem.task item) <> [].
Proof.
  unfold action_item_of. destruct (is_dict obj); simpl; [|discriminate].
  destruct (py_get obj "task") as [got|]; simpl; [|discriminate].
  destruct (py_or got (PStr [])) as [| | | |s| |]; simpl; try discriminate.
  destruct (strip s) as [|c t] eqn:Es; [discriminate|].
  destruct (py_get obj "owner"); simpl; [|discriminate].
  destruct (py_get obj "due_date"); simpl; [|discriminate].
  destruct (py_get obj "status"); simpl; [|discriminate].
  repeat match goal with
         | |- context [match optional_str ?v with _ => _ end] =>
             destruct (optional_str v)
         end; try discriminate.
  intros H. injection H as <-. simpl.
  rewrite <- Es, strip_idem, Es. discriminate.
Qed.

Lemma traverse_action_items (l : list pyval) (rs : list (option ActionItem.t)) :
  traverse action_item_of l = Ok rs ->
  Forall (fun item => strip (ActionItem.task item) <> []) (somes rs).
Proof.
  revert rs. induction l as [|obj l IH]; simpl; intros rs H.
  - injection H as <-. constructor.
  - destruct (action_item_of obj) as [r|] eqn:Eo; simpl in H; [|discriminate].
    destruct (traverse action_item_of l) as [rs'|]; simpl in H; [|discriminate].
    injection H as <-. destruct r as [item|]; simpl.
    + constructor; [exact (action_item_of_task _ _ Eo) | apply IH; reflexivity].
    + apply IH. reflexivity.
Qed.

Lemma parse_action_items_well_formed (raw : str) (items : list ActionItem.t) :
  parse_action_items raw = Ok items ->
  Forall (fun item => strip (ActionItem.task item) <> []) items.
Proof.
  unfold parse_action_items.
  destruct (loads (bracketed "[" "]" raw)) as [parsed|]; simpl;
    [|discriminate].
  destruct parsed; try (intros H; injection H as <-; constructor).
  destruct (traverse action_item_of l) as [rs|] eqn:Et; simpl; [|discriminate].
  intros H. injection H as <-. exact (traverse_action_items _ _ Et).
Qed.

(** C4.  Once the chat gateway has returned a reply, the extractor returns
    a list and raises nothing.  The list is empty when the parsing raised;
    every item of it has a task that is not empty once trimmed; when the
    reply holds an array whose elements all pass, the list is what the
    elements that are not skipped give; an element that is not an object,
    or that lacks a task, is skipped; and an item built from an element
    that lacks a status has the status [open]. *)
Theorem extract_action_items_never_raises
  (transcript : str) (api_key : option str) (w w' : World) (raw : str) :
  ollama_chat cfg (action_items_prompt transcript) api_key w = (Ok raw, w') ->
  exists items,
    extract_action_items_via_llama cfg transcript api_key w = (Ok items, w')
    /\ Forall (fun item => strip (ActionItem.task item) <> []) items
    /\ (forall e, parse_action_items raw = Raise e -> items = [])
    /\ (forall l rs, loads (bracketed "[" "]" raw) = Ok (PList l) ->
          traverse action_item_of l = Ok rs -> items = somes rs)
    /\ (forall obj, is_dict obj = false -> action_item_of obj = Ok None)
    /\ (forall d, lacks_task d -> action_item_of (PDict d) = Ok None)
    /\ (forall d item, lacks_status d ->
          action_item_of (PDict d) = Ok (Some item) ->
          ActionItem.status item = Some ("open" : str)).
Proof.
  intros Hchat. exists (try_except (parse_action_items raw) []).
  split; [|split; [|split; [|split; [|split; [|split]]]]].
  - unfold extract_action_items_via_llama, bind. rewrite Hchat. reflexivity.
  - destruct (parse_action_items raw) as [items|] eqn:Ep; simpl.
    + exact (parse_action_items_well_formed _ _ Ep).
    + constructor.
  - intros e ->. reflexivity.
  - intros l rs Hl Ht. unfold parse_action_items. rewrite Hl. simpl.
    rewrite Ht. reflexivity.
  - intros obj Hd. unfold action_item_of. rewrite Hd. reflexivity.
  - intros d Hl. unfold action_item_of, lacks_task in *. simpl.
    destruct (lookup "task" d) as [v|]; [|reflexivity].
    unfold py_or. destruct Hl as [Hf|(s & -> & Hs)].
    + rewrite Hf. reflexivity.
    + destruct s as [|c s]; simpl; [reflexivity|]. rewrite Hs. reflexivity.
  - intros d item Hl. unfold action_item_of, lacks_status in *. simpl.
    destruct (py_strip _) as [task|]; simpl; [|discriminate].
    destruct task as [|c task]; [discriminate|].
    assert (Hs : py_or (match lookup "status" d with
                        | Some x => x | None => PNone end) (PStr "open")
                 = PStr "open").
    { unfold py_or. destruct (lookup "status" d) as [v|].
      - rewrite Hl. reflexivity.
      - reflexivity. }
    rewrite Hs, optional_str_str.
    repeat match goal with
           | |- context [match optional_str ?v with _ => _ end] =>
               destruct (optional_str v)
           end; try discriminate.
    intros H. injection H as <-. reflexivity.
Qed.

End Gateways.

(** *** A world to run the handlers in *)

Definition example_cfg : Config := {|
  AUDIO_DIR := "/srv/audio";
  LLM_API_BASE := "https://api.openai.com/v1/";
  LLM_API_KEY := None;
  LLM_MODEL_NAME := "gpt-4o-mini";
  STT_MODEL_NAME := "whisper-1"
|}.

(** The body of a chat completion whose message is [content]. *)
Definition completion (content : str) : str :=
  json_dumps
    (PDict [("choices" : str,
             PList [PDict [("message" : str,
                            PDict [("content" : str, PStr content)])]])]).

Definition example_reply : str :=
  "Here are the action items:" ++ nl
  ++ json_text "[{'task': ' Prepare the deck ', 'owner': 'Alice', 'due_date': '2024-01-17', 'status': ''}, {'task': '  '}, 7]"
  ++ nl ++ "Let me know if you need more.".

Definition example_transcript : str :=
  "We decided to launch Friday. Alice will prepare the deck by Wednesday.".

(** A backend that transcribes every upload to the same text and answers
    every prompt with the same reply. *)
Definition example_backend (_ : list http_request) (req : http_request)
  : http_response :=
  match body req with
  | ChatBody _ _ => Response 200 (completion example_reply)
  | AudioBody _ _ _ => Response 200 example_transcript
  end.

Definition example_user : User.t :=
  User.mk "u1" "alice@example.com" None "{}" "tok-alice" epoch.

Definition example_world : World := {|
  backend := example_backend;
  sent := [];
  disk := [];
  writable := fun _ => true;
  uuid_source := fun n => "id-" ++ str_of_Z (Z.of_nat n);
  uuid_count := 0;
  utcnow := epoch;
  users := [example_user];
  meetings := [];
  calendar_access := fun _ => Ok None;
  events := [];
  event_error := fun _ => "not found"
|}.

Definition example_key : option str := Some ("sk-test" : str).

(** C9 with a caller's key of three spaces and no process-wide key. *)
Lemma no_credential_no_request_witness :
  (forall prompt, exists detail,
      ollama_chat example_cfg prompt (Some ("   " : str)) example_world
      = (Raise (HTTPException 400 detail), example_world))
  /\ (forall file_path, exists detail,
      transcribe_audio example_cfg file_path (Some ("   " : str))
        example_world
      = (Raise (HTTPException 400 detail), example_world)).
Proof.
  apply (no_credential_no_request example_cfg (Some ("   " : str))
           example_world).
  - vm_compute. reflexivity.
  - exact I.
Defined.

Definition example_chat_request : http_request := {|
  url := "https://api.openai.com/v1/chat/completions";
  authorization_header := "Bearer sk-test";
  body := ChatBody "gpt-4o-mini" (action_items_prompt example_transcript)
|}.

(** C4 on a reply that wraps an array in prose: the first element has a
    padded task and an empty status, the second a blank task, the third is
    a number. *)
Lemma extract_action_items_never_raises_witness :
  extract_action_items_via_llama example_cfg example_transcript example_key
    example_world
  = (Ok [ActionItem.mk "Prepare the deck" (Some ("Alice" : str))
           (Some ("2024-01-17" : str)) (Some ("open" : str))],
     set_sent example_world [example_chat_request]).
Proof.
  destruct (extract_action_items_never_raises example_cfg example_transcript
              example_key example_world
              (set_sent example_world [example_chat_request]) example_reply)
    as (items & Hrun & _ & _ & Hitems & _).
  - vm_compute. reflexivity.
  - rewrite Hrun. f_equal. f_equal.
    apply (Hitems
             [PDict [("task" : str, PStr " Prepare the deck ");
                     ("owner" : str, PStr "Alice");
                     ("due_date" : str, PStr "2024-01-17");
                     ("status" : str, PStr [])];
              PDict [("task" : str, PStr "  ")];
              PInt 7]
             [Some (ActionItem.mk "Prepare the deck" (Some ("Alice" : str))
                      (Some ("2024-01-17" : str)) (Some ("open" : str)));
              None; None]).
    + vm_compute. reflexivity.
    + vm_compute. reflexivity.
Defined.

(** ** The bracket scan (C3) *)

Lemma find_from_char (c : char) (pre rest : str) (i : Z) :
  ~ In c pre -> find_from [c] (pre ++ c :: rest) i = i + len pre.
Proof.
  revert i. induction pre as [|d pre IH]; intros i Hn.
  - simpl. rewrite N.eqb_refl. unfold len. simpl. lia.
  - simpl. destruct (N.eqb_spec c d) as [->|Hd].
    + exfalso. apply Hn. left. reflexivity.
    + simpl. rewrite IH by (intros H; apply Hn; right; exact H).
      unfold len. simpl length. lia.
Qed.

Lemma rfind_from_absent (c : char) (post : str) (i : Z) :
  ~ In c post -> rfind_from [c] post i = -1.
Proof.
  revert i. induction post as [|d post IH]; intros i Hn.
  - reflexivity.
  - simpl. rewrite IH by (intros H; apply Hn; right; exact H). simpl.
    destruct (N.eqb_spec c d) as [->|Hd]; [|reflexivity].
    exfalso. apply Hn. left. reflexivity.
Qed.

Lemma rfind_from_char (c : char) (s post : str) (i : Z) :
  0 <= i -> ~ In c post -> rfind_from [c] (s ++ c :: post) i = i + len s.
Proof.
  revert i. induction s as [|d s IH]; intros i Hi Hn.
  - simpl. rewrite rfind_from_absent by exact Hn. simpl.
    rewrite N.eqb_refl. unfold len. simpl. lia.
  - simpl. rewrite IH by (try lia; exact Hn).
    destruct (i + 1 + len s =? -1) eqn:E.
    + apply Z.eqb_eq in E. unfold len in E. lia.
    + unfold len. simpl length. lia.
Qed.

Lemma skipn_firstn_middle (a b c : str) :
  firstn (length b) (skipn (length a) (a ++ b ++ c)) = b.
Proof.
  rewrite skipn_app, skipn_all, Nat.sub_diag. simpl.
  rewrite firstn_app, firstn_all, Nat.sub_diag. simpl.
  apply app_nil_r.
Qed.

(** The scan on a text whose prose has no opening bracket before the
    array and no closing bracket after it. *)
Lemma bracketed_between (o c : char) (pre body post : str) :
  ~ In o pre -> ~ In c post ->
  bracketed [o] [c] (pre ++ (o :: body ++ [c]) ++ post) = o :: body ++ [c].
Proof.
  intros Ho Hc.
  set (raw := pre ++ (o :: body ++ [c]) ++ post).
  assert (Hf : find raw [o] = len pre).
  { unfold find, raw. simpl app. rewrite find_from_char by exact Ho. lia. }
  assert (Hr : rfind raw [c] = len pre + 1 + len body).
  { unfold rfind, raw.
    replace (pre ++ (o :: body ++ [c]) ++ post)
      with ((pre ++ o :: body) ++ c :: post)
      by (simpl; rewrite <- !app_assoc; reflexivity).
    rewrite rfind_from_char by (try lia; exact Hc).
    unfold len. rewrite length_app. simpl length. lia. }
  assert (Hp : 0 <= len pre) by (unfold len; lia).
  assert (Hb : 0 <= len body) by (unfold len; lia).
  unfold bracketed. rewrite Hf, Hr.
  replace (negb (len pre =? -1)) with true
    by (symmetry; apply negb_true_iff, Z.eqb_neq; lia).
  replace (negb (len pre + 1 + len body =? -1)) with true
    by (symmetry; apply negb_true_iff, Z.eqb_neq; lia).
  replace (len pre + 1 + len body >? len pre) with true
    by (symmetry; apply Z.gtb_lt; lia).
  simpl andb. cbv iota. unfold slice.
  replace (Z.to_nat (len pre + 1 + len body + 1 - len pre))
    with (length (o :: body ++ [c]))
    by (simpl; rewrite length_app; unfold len; simpl; lia).
  replace (Z.to_nat (len pre)) with (length pre) by (unfold len; lia).
  apply skipn_firstn_middle.
Qed.

Section Extraction.

Context `{PL : PyLib}.

(** C3, amended.  When the prose before the array holds no opening bracket
    and the prose after it no closing bracket, the scan selects exactly the
    array, and parsing the selection gives the value of the array. *)
Theorem bracketed_recovers_array (pre body post : str) (l : list pyval) :
  let array := 91%N :: body ++ [93%N] in
  ~ In 91%N pre -> ~ In 93%N post ->
  json_loads array = Some (PList l) ->
  bracketed "[" "]" (pre ++ array ++ post) = array
  /\ loads (bracketed "[" "]" (pre ++ array ++ post)) = Ok (PList l).
Proof.
  intros array Ho Hc Hl.
  assert (E : bracketed "[" "]" (pre ++ array ++ post) = array)
    by (apply (bracketed_between 91%N 93%N); assumption).
  split; [exact E|]. rewrite E. unfold loads. rewrite Hl. reflexivity.
Qed.

End Extraction.

Definition prose_before : str := "Here are the action items you asked for: ".
Definition prose_after : str := " (that is all)".
Definition array_body : str := json_text "{'task': 'Ship it', 'owner': null}".

(** C3, amended, on prose without brackets around an array. *)
Lemma bracketed_recovers_array_witness :
  bracketed "[" "]" (prose_before ++ (91%N :: array_body ++ [93%N])
                     ++ prose_after)
  = 91%N :: array_body ++ [93%N]
  /\ loads (bracketed "[" "]" (prose_before ++ (91%N :: array_body ++ [93%N])
                               ++ prose_after))
     = Ok (PList [PDict [("task" : str, PStr "Ship it");
                         ("owner" : str, PNone)]]).
Proof.
  apply (bracketed_recovers_array prose_before array_body prose_after).
  - vm_compute. intuition discriminate.
  - vm_compute. intuition discriminate.
  - vm_compute. reflexivity.
Defined.

(** C3 as stated fails: the prose below cites a reference in brackets
    before the array.  The array is valid JSON and alone gives one action
    item, but the scan starts at the bracket of the prose, the selection
    is not the array, parsing it raises and the extractor yields nothing. *)
Lemma bracketed_prose_brackets_counterexample :
  let prose : str := "As noted in [1], the team agreed: " in
  let array : str := json_text "[{'task': 'Ship it'}]" in
  json_loads array = Some (PList [PDict [("task" : str, PStr "Ship it")]])
  /\ parse_action_items array
     = Ok [ActionItem.mk "Ship it" None None (Some ("open" : str))]
  /\ bracketed "[" "]" (prose ++ array) <> array
  /\ parse_action_items (prose ++ array) = Raise ValueError
  /\ try_except (parse_action_items (prose ++ array)) [] = [].
Proof.
  vm_compute. repeat split; try reflexivity. discriminate.
Qed.

(** ** The world outside the log of requests is left alone *)

(** [w'] is [w] with more requests in its log. *)
Definition only_sent (w w' : World) : Prop := exists l, w' = set_sent w l.

Lemma only_sent_refl (w : World) : only_sent w w.
Proof. exists (sent w). destruct w. reflexivity. Qed.

Lemma only_sent_trans (w1 w2 w3 : World) :
  only_sent w1 w2 -> only_sent w2 w3 -> only_sent w1 w3.
Proof. intros [l1 ->] [l2 ->]. exists l2. reflexivity. Qed.

Lemma only_sent_users (w w' : World) : only_sent w w' -> users w' = users w.
Proof. intros [l ->]. reflexivity. Qed.

Lemma only_sent_meetings (w w' : World) :
  only_sent w w' -> meetings w' = meetings w.
Proof. intros [l ->]. reflexivity. Qed.

Lemma only_sent_utcnow (w w' : World) : only_sent w w' -> utcnow w' = utcnow w.
Proof. intros [l ->]. reflexivity. Qed.

Section Frames.

Context `{PL : PyLib}.
Variable cfg : Config.

(** The two outcomes of [client.post]: it raises with nothing sent, or the
    request goes out and the backend answers. *)
Lemma post_cases (req : http_request) (w : World) :
  (exists message,
     request_error req = Some message
     /\ post req w = (Ok (TransportFailure message), w))
  \/ (request_error req = None
      /\ post req w = (Ok (backend w (sent w) req),
                       set_sent w (sent w ++ [req]))).
Proof.
  unfold post. destruct (request_error req) as [message|].
  - left. exists message. split; reflexivity.
  - right. split; reflexivity.
Qed.

Lemma post_only_sent (req : http_request) (w : World) :
  exists resp w', post req w = (Ok resp, w') /\ only_sent w w'.
Proof.
  destruct (post_cases req w) as [(message & _ & ->)|(_ & ->)].
  - eexists. eexists. split; [reflexivity|apply only_sent_refl].
  - eexists. eexists. split; [reflexivity|]. eexists. reflexivity.
Qed.

Lemma ollama_chat_only_sent (prompt : str) (api_key : option str) (w : World) :
  only_sent w (snd (ollama_chat cfg prompt api_key w)).
Proof.
  unfold ollama_chat. destruct (resolve_key cfg api_key) as [|c key].
  - apply only_sent_refl.
  - unfold bind.
    match goal with
    | |- context [post ?r w] =>
        destruct (post_only_sent r w) as (resp & w' & -> & Hw)
    end.
    destruct resp as [e|status_code text].
    + exact Hw.
    + destruct (negb (status_code =? 200)); exact Hw.
Qed.

Lemma transcribe_audio_only_sent
  (file_path : str) (api_key : option str) (w : World) :
  only_sent w (snd (transcribe_audio cfg file_path api_key w)).
Proof.
  unfold transcribe_audio. destruct (resolve_key cfg api_key) as [|c key].
  - apply only_sent_refl.
  - destruct (read_file file_path (disk w)).
    + unfold bind.
      match goal with
      | |- context [post ?r w] =>
          destruct (post_only_sent r w) as (resp & w' & -> & Hw)
      end.
      destruct resp as [e|status_code text].
      * exact Hw.
      * destruct (negb (status_code =? 200)); exact Hw.
    + apply only_sent_refl.
Qed.

Lemma extract_only_sent (transcript : str) (api_key : option str) (w : World) :
  only_sent w (snd (extract_action_items_via_llama cfg transcript api_key w)).
Proof.
  unfold extract_action_items_via_llama, bind.
  pose proof (ollama_chat_only_sent (action_items_prompt transcript)
                api_key w) as H.
  destruct (ollama_chat cfg (action_items_prompt transcript) api_key w)
    as [[raw|e] w']; exact H.
Qed.

Lemma enrich_only_sent (audio_path : str) (key : option str) (w : World) :
  only_sent w (snd (enrich cfg audio_path key w)).
Proof.
  unfold enrich, catch, bind, gather, generate_summary.
  pose proof (transcribe_audio_only_sent audio_path key w) as Ht.
  destruct (transcribe_audio cfg audio_path key w) as [[transcript|e] w1];
    simpl in *; [|exact Ht].
  match goal with
  | |- context [ollama_chat cfg ?p key w1] =>
      pose proof (ollama_chat_only_sent p key w1) as Hs;
      destruct (ollama_chat cfg p key w1) as [rs w2]
  end.
  pose proof (extract_only_sent transcript key w2) as Hx.
  destruct (extract_action_items_via_llama cfg transcript key w2)
    as [rx w3].
  simpl in *.
  assert (H3 : only_sent w w3)
    by (eapply only_sent_trans; [exact Ht|];
        eapply only_sent_trans; eassumption).
  destruct rs, rx; simpl; exact H3.
Qed.

End Frames.

(** ** Questions with no meeting to answer from (C7) *)

Definition no_meetings_answer : QAResponse.t :=
  QAResponse.mk "There are no meetings in the system yet." [].

Section Questions.

Context `{PL : PyLib}.
Variable cfg : Config.

(** C7, amended.  A question that is not blank, asked by a user the
    header authenticates and who owns no meeting, gets the canned answer
    with no reference; the world is left as it was, so no request went to
    the chat backend. *)
Theorem qa_no_meetings
  (question : str) (authorization x_llm_api_key : option str)
  (w : World) (user : User.t) :
  strip question <> [] ->
  _get_current_user_from_header authorization (users w) = Ok user ->
  filter (owned_by user) (meetings w) = [] ->
  ai_question_answer cfg question authorization x_llm_api_key w
  = (Ok no_meetings_answer, w)
  /\ sent (snd (ai_question_answer cfg question authorization
                  x_llm_api_key w)) = sent w.
Proof.
  intros Hq Hu Hm.
  assert (E : ai_question_answer cfg question authorization x_llm_api_key w
              = (Ok no_meetings_answer, w)).
  { unfold ai_question_answer.
    destruct (strip question) as [|c q]; [congruence|].
    unfold bind, current_user, recent_meetings. rewrite Hu, Hm.
    reflexivity. }
  split; [exact E|]. rewrite E. reflexivity.
Qed.

End Questions.

Definition alice_header : option str := Some ("Bearer tok-alice" : str).

(** C7, amended, for the user of the example world, who owns no
    meeting. *)
Lemma qa_no_meetings_witness :
  ai_question_answer example_cfg "What did we decide about the launch?"
    alice_header example_key example_world
  = (Ok no_meetings_answer, example_world)
  /\ sent (snd (ai_question_answer example_cfg
                  "What did we decide about the launch?"
                  alice_header example_key example_world))
     = sent example_world.
Proof.
  apply (qa_no_meetings example_cfg "What did we decide about the launch?"
           alice_header example_key example_world example_user).
  - vm_compute. discriminate.
  - vm_compute. reflexivity.
  - reflexivity.
Defined.

(** C7 as stated fails for a question made of white space: the user is
    authenticated and owns no meeting, and the handler raises the 400
    error of the empty question instead of answering. *)
Lemma qa_blank_question_counterexample :
  _get_current_user_from_header alice_header (users example_world)
  = Ok example_user
  /\ filter (owned_by example_user) (meetings example_world) = []
  /\ ai_question_answer example_cfg "   " alice_header example_key
       example_world
     = (Raise (HTTPException 400 "Question cannot be empty."), example_world).
Proof.
  vm_compute. repeat split; reflexivity.
Qed.

(** ** Topic clusters (C8) *)

Definition raises {A} (r : result A) : Prop := exists e, r = Raise e.





Section Topics.

Context `{PL : PyLib}.
Variable cfg : Config.



End Topics.





(** A boolean among the ids is kept, as the text Python gives it; and a
    candidate whose name is a number makes the parsing raise, so that the
    cluster before it is lost with it. *)
Lemma ai_topics_candidates_example :
  try_except
    (parse_clusters
       (json_text "{'clusters': [{'name': 'Launch', 'meeting_ids': [true, 'm1']}]}"))
    []
  = [TopicCluster.mk "Launch" None [("True" : str); ("m1" : str)]]
  /\ parse_clusters
       (json_text "{'clusters': [{'name': 'Launch', 'meeting_ids': [true, 'm1']}, {'name': 5}]}")
     = Raise AttributeError
  /\ try_except
       (parse_clusters
          (json_text "{'clusters': [{'name': 'Launch', 'meeting_ids': [true, 'm1']}, {'name': 5}]}"))
       []
     = [].
Proof.
  vm_compute. repeat split; reflexivity.
Qed.

(** ** Ingestion (C1, C2) *)

Section Ingestion.

Context `{PL : PyLib}.
Variable cfg : Config.

(** The identifier the upload gets, the name and the path of its file. *)
Definition upload_id (w : World) : str := uuid_source w (uuid_count w).

Definition upload_filename (w : World) : str := upload_id w ++ ".wav".

Definition upload_path (w : World) : str :=
  path_join (AUDIO_DIR cfg) (upload_filename w).

(** The world once the identifier is drawn and the audio is stored. *)
Definition uploaded (audio : str) (w : World) : World :=
  set_disk (set_uuid_count w (S (uuid_count w)))
           ((upload_path w, audio) :: disk w).

(** The record the handler persists for an upload, given what the
    enrichment produced. *)
Definition ingested
  (title : str) (folder_id start_time end_time calendar_event_id : option str)
  (w : World) (user : User.t)
  (transcript : str) (summary : option str) (action_items_json : str)
  : Meeting.t :=
  Meeting.mk (upload_id w) title folder_id (utcnow w) start_time end_time
    (Some ("completed" : str)) (Some transcript) summary
    (Some (path_join "audio" (upload_filename w)))
    calendar_event_id (Some action_items_json) (Some false)
    (Some (User.id user)).

Lemma uploaded_users (audio : str) (w : World) :
  users (uploaded audio w) = users w.
Proof. reflexivity. Qed.

(** The handler after the upload is stored, in terms of the enrichment:
    the row is persisted when its summary can be bound, and the commit
    raises otherwise. *)
Lemma create_meeting_with_audio_run
  (title : str) (folder_id start_time end_time calendar_event_id : option str)
  (audio : str) (authorization x_llm_api_key : option str)
  (w w2 : World) (user : User.t)
  (transcript : str) (summary : option str) (items : list ActionItem.t) :
  writable w (upload_path w) = true ->
  enrich cfg (upload_path w) x_llm_api_key (uploaded audio w)
  = (Ok (transcript, summary, items), w2) ->
  _get_current_user_from_header authorization (users w) = Ok user ->
  let m := ingested title folder_id start_time end_time calendar_event_id
             w user transcript summary
             (json_dumps (action_items_payload items)) in
  create_meeting_with_audio cfg title folder_id start_time end_time
    calendar_event_id audio authorization x_llm_api_key w
  = if bindable summary
    then (Ok (meeting_to_dict m), set_meetings w2 (meetings w ++ [m]))
    else (Raise UnicodeEncodeError, w2).
Proof.
  intros Hw He Hu m.
  pose proof (enrich_only_sent cfg (upload_path w) x_llm_api_key
                (uploaded audio w)) as Hf.
  rewrite He in Hf. simpl in Hf.
  unfold create_meeting_with_audio, bind, uuid4, save_upload_to_wav.
  fold (upload_id w). fold (upload_filename w). fold (upload_path w).
  simpl writable. rewrite Hw.
  change (set_disk (set_uuid_count w (S (uuid_count w)))
            ((upload_path w, audio) :: disk (set_uuid_count w (S (uuid_count w)))))
    with (uploaded audio w).
  rewrite He. unfold current_user, now, db_add, ret.
  rewrite (only_sent_users _ _ Hf), uploaded_users, Hu.
  rewrite (only_sent_utcnow _ _ Hf). cbn [Meeting.summary].
  destruct (bindable summary); [|reflexivity].
  rewrite (only_sent_meetings _ _ Hf). reflexivity.
Qed.





End Ingestion.

Definition riff : str := "RIFF....WAVEfmt ".






(** ** One hour later (C6) *)

Definition one_hour : Z := 3600 * 1000000.

(** The last hour of the last day [datetime] can hold. *)
Definition in_last_hour (dt : datetime) : Prop :=
  year dt = MAXYEAR /\ month dt = 12 /\ day dt = 31 /\ hour dt = 23.

Lemma days_before_month_succ (y m : Z) :
  1 <= m <= 11 ->
  days_before_month y (m + 1) = days_before_month y m + days_in_month y m.
Proof.
  intros Hm.
  assert (H : m = 1 \/ m = 2 \/ m = 3 \/ m = 4 \/ m = 5 \/ m = 6 \/ m = 7
              \/ m = 8 \/ m = 9 \/ m = 10 \/ m = 11) by lia.
  repeat (destruct H as [->|H];
          [cbv -[is_leap]; destruct (is_leap y); reflexivity|]).
  subst m. cbv -[is_leap]. destruct (is_leap y); reflexivity.
Qed.

Lemma days_before_december (y : Z) :
  days_before_month y 12 + 31 = if is_leap y then 366 else 365.
Proof.
  cbv -[is_leap]. destruct (is_leap y); reflexivity.
Qed.

Lemma days_before_year_succ (y : Z) :
  days_before_year (y + 1)
  = days_before_year y + (if is_leap y then 366 else 365).
Proof.
  unfold days_before_year, is_leap.
  replace (y + 1 - 1) with y by lia.
  destruct (y mod 4 =? 0) eqn:E4; destruct (y mod 100 =? 0) eqn:E100;
    destruct (y mod 400 =? 0) eqn:E400; simpl;
    rewrite ?Z.eqb_eq, ?Z.eqb_neq in *;
    Z.to_euclidean_division_equations; lia.
Qed.

Lemma plus_one_hour_spec (dt dt' : datetime) :
  valid_datetime dt -> plus_one_hour dt = Ok dt' ->
  wall_micros dt' = wall_micros dt + one_hour
  /\ utcoffset dt' = utcoffset dt
  /\ valid_datetime dt'.
Proof.
  unfold valid_datetime, plus_one_hour, one_hour. cbv zeta.
  intros (Hy & Hm & Hd & Hh & Hmi & Hs & Hus).
  destruct (hour dt + 1 <? 24) eqn:E1.
  { apply Z.ltb_lt in E1. intros H. injection H as <-.
    unfold wall_micros, toordinal. simpl. repeat split; lia. }
  apply Z.ltb_ge in E1.
  destruct (day dt + 1 <=? days_in_month (year dt) (month dt)) eqn:E2.
  { apply Z.leb_le in E2. intros H. injection H as <-.
    unfold wall_micros, toordinal. simpl. repeat split; lia. }
  apply Z.leb_gt in E2.
  destruct (month dt + 1 <=? 12) eqn:E3.
  { apply Z.leb_le in E3. intros H. injection H as <-.
    unfold wall_micros, toordinal. simpl.
    rewrite days_before_month_succ by lia.
    assert (1 <= days_in_month (year dt) (month dt + 1)).
    { unfold days_in_month.
      repeat match goal with |- context [if ?b then _ else _] =>
               destruct b end; lia. }
    repeat split; lia. }
  apply Z.leb_gt in E3.
  destruct (year dt + 1 <=? MAXYEAR) eqn:E4; [|discriminate].
  apply Z.leb_le in E4. intros H. injection H as <-.
  unfold wall_micros, toordinal. simpl.
  assert (Em : month dt = 12) by lia.
  assert (Ed : day dt = 31).
  { rewrite Em in *. unfold days_in_month in *. simpl in *. lia. }
  rewrite Em, Ed, days_before_year_succ.
  pose proof (days_before_december (year dt)) as Hdec.
  change (days_before_month (year dt + 1) 1) with 0.
  unfold days_in_month. simpl.
  repeat split; lia.
Qed.

Lemma plus_one_hour_overflow (dt : datetime) :
  valid_datetime dt -> in_last_hour dt ->
  plus_one_hour dt = Raise OverflowError.
Proof.
  unfold valid_datetime, in_last_hour, plus_one_hour. cbv zeta.
  intros _ (Hy & Hm & Hd & Hh). rewrite Hy, Hm, Hd, Hh. reflexivity.
Qed.

Lemma plus_one_hour_total (dt : datetime) :
  valid_datetime dt -> ~ in_last_hour dt ->
  exists dt', plus_one_hour dt = Ok dt'.
Proof.
  unfold valid_datetime, in_last_hour, plus_one_hour. cbv zeta.
  intros (Hy & Hm & Hd & Hh & _) Hn.
  destruct (hour dt + 1 <? 24) eqn:E1; [eexists; reflexivity|].
  destruct (day dt + 1 <=? days_in_month (year dt) (month dt)) eqn:E2;
    [eexists; reflexivity|].
  destruct (month dt + 1 <=? 12) eqn:E3; [eexists; reflexivity|].
  destruct (year dt + 1 <=? MAXYEAR) eqn:E4; [eexists; reflexivity|].
  exfalso. apply Hn.
  apply Z.ltb_ge in E1. apply Z.leb_gt in E2, E3, E4.
  assert (Em : month dt = 12) by lia.
  rewrite Em in *. unfold days_in_month in *. simpl in *.
  unfold MAXYEAR in *. lia.
Qed.

(** An [Optional[str]] that is [None] or empty. *)
Definition absent (o : option str) : Prop := truthy_opt o = false.

Section CalendarTimes.

Context `{PL : PyLib}.

(** C6, amended.  The start is the payload's when it gives one, else the
    meeting's when it has one, else the creation time of the meeting.
    When neither the payload nor the meeting gives an end: if the start
    parses as a timestamp that is not in the last hour of the year 9999,
    the end is the ISO text of a timestamp of the calendar, the one
    exactly one hour later, in the same time zone; if it parses as a
    timestamp in that last hour, or does not parse, the end is the
    start. *)
Theorem calendar_times_resolution
  (payload : CalendarSyncPayload.t) (meeting : Meeting.t) :
  let start := resolve_start payload meeting in
  let end_ := resolve_end payload meeting start in
  (forall s, CalendarSyncPayload.start_time payload = Some s -> s <> [] ->
     start = s)
  /\ (forall s, absent (CalendarSyncPayload.start_time payload) ->
        Meeting.start_time meeting = Some s -> s <> [] -> start = s)
  /\ (absent (CalendarSyncPayload.start_time payload) ->
      absent (Meeting.start_time meeting) ->
      start = isoformat (Meeting.created_at meeting))
  /\ (absent (CalendarSyncPayload.end_time payload) ->
      absent (Meeting.end_time meeting) ->
      (forall dt, fromisoformat start = Some dt -> ~ in_last_hour dt ->
         exists dt', end_ = isoformat dt'
                     /\ valid_datetime dt'
                     /\ wall_micros dt' = wall_micros dt + one_hour
                     /\ utcoffset dt' = utcoffset dt)
      /\ (forall dt, fromisoformat start = Some dt -> in_last_hour dt ->
            end_ = start)
      /\ (fromisoformat start = None -> end_ = start)).
Proof.
  intros start end_. unfold absent.
  split; [|split; [|split]].
  - intros s Hs Hne. subst start. unfold resolve_start, or_opt.
    rewrite Hs. destruct s; [congruence|]. reflexivity.
  - intros s Hp Hs Hne. subst start. unfold resolve_start, or_opt.
    rewrite Hp, Hs. destruct s; [congruence|]. reflexivity.
  - intros Hp Hm. subst start. unfold resolve_start, or_opt.
    rewrite Hp. destruct (Meeting.start_time meeting) as [[|c s]|];
      try reflexivity. discriminate.
  - intros Hp Hm.
    assert (E : end_ = try_except (one_hour_after start) start).
    { subst end_. unfold resolve_end, or_opt. rewrite Hp.
      destruct (Meeting.end_time meeting) as [[|c s]|]; try reflexivity.
      discriminate. }
    rewrite E. unfold one_hour_after.
    split; [|split].
    + intros dt Hdt Hn. rewrite Hdt.
      pose proof (fromisoformat_valid _ _ Hdt) as Hv.
      destruct (plus_one_hour_total dt Hv Hn) as [dt' Hplus].
      rewrite Hplus. simpl. exists dt'.
      destruct (plus_one_hour_spec dt dt' Hv Hplus) as (H1 & H2 & H3).
      split; [reflexivity|]. split; [exact H3|]. split; assumption.
    + intros dt Hdt Hl. rewrite Hdt.
      rewrite (plus_one_hour_overflow dt (fromisoformat_valid _ _ Hdt) Hl).
      reflexivity.
    + intros ->. reflexivity.
Qed.

End CalendarTimes.

Definition empty_payload : CalendarSyncPayload.t :=
  CalendarSyncPayload.mk None None None.

(** C6, amended, for a meeting without times and an empty payload: the
    start is the creation time and the end is one hour later. *)
Lemma calendar_times_resolution_witness :
  resolve_start empty_payload stored_meeting = "2024-01-15T10:30:00"
  /\ resolve_end empty_payload stored_meeting
       (resolve_start empty_payload stored_meeting)
     = "2024-01-15T11:30:00"
  /\ exists dt',
       resolve_end empty_payload stored_meeting
         (resolve_start empty_payload stored_meeting) = isoformat dt'
       /\ valid_datetime dt'
       /\ wall_micros dt' = wall_micros epoch + one_hour
       /\ utcoffset dt' = utcoffset epoch.
Proof.
  destruct (calendar_times_resolution empty_payload stored_meeting)
    as (_ & _ & Hstart & Hend).
  split; [|split].
  - rewrite Hstart; reflexivity.
  - vm_compute. reflexivity.
  - destruct Hend as (Hlater & _ & _); [reflexivity | reflexivity |].
    apply (Hlater epoch).
    + vm_compute. reflexivity.
    + unfold in_last_hour. vm_compute. intros (H & _). discriminate.
Defined.

Definition last_evening : datetime := mk_datetime 9999 12 31 23 30 0 0 None.

Definition last_meeting : Meeting.t :=
  Meeting.mk "m9" "Retrospective" None epoch
    (Some ("9999-12-31T23:30:00" : str)) None
    (Some ("completed" : str)) (Some []) None None None None
    (Some false) (Some ("u1" : str)).

(** C6 as stated fails for a start in the last hour of the year 9999: no
    end is given, the start parses as a timestamp, adding the hour
    overflows, and the end is the start itself, which is no hour later. *)
Lemma calendar_end_overflow_counterexample :
  let start := resolve_start empty_payload last_meeting in
  let end_ := resolve_end empty_payload last_meeting start in
  absent (CalendarSyncPayload.end_time empty_payload)
  /\ absent (Meeting.end_time last_meeting)
  /\ fromisoformat start = Some last_evening
  /\ plus_one_hour last_evening = Raise OverflowError
  /\ end_ = start
  /\ fromisoformat end_ = Some last_evening
  /\ wall_micros last_evening <> wall_micros last_evening + one_hour.
Proof.
  vm_compute. repeat split; try reflexivity. discriminate.
Qed.

(** ** Repeated calendar syncs (C5) *)

Lemma merged_description_kept (snippet existing_desc : str) :
  contains existing_desc snippet = true ->
  merged_description snippet existing_desc = existing_desc.
Proof.
  intros H. unfold merged_description. rewrite H. reflexivity.
Qed.

Lemma merged_description_contains (snippet existing_desc : str) :
  contains (merged_description snippet existing_desc) snippet = true.
Proof.
  unfold merged_description.
  destruct (contains existing_desc snippet) eqn:E; cbn [negb].
  - exact E.
  - destruct existing_desc as [|c d].
    + apply contains_refl.
    + rewrite !app_assoc. apply contains_suffix.
Qed.

Lemma merged_description_idem (snippet existing_desc : str) :
  merged_description snippet (merged_description snippet existing_desc)
  = merged_description snippet existing_desc.
Proof.
  apply merged_description_kept, merged_description_contains.
Qed.

Lemma lookup_replace_event (id : str) (ev old : Event.t)
  (es : list (str * Event.t)) :
  lookup_event id es = Some old ->
  lookup_event id (replace_event id ev es) = Some ev.
Proof.
  induction es as [|[k x] es IH]; simpl; [discriminate|].
  destruct (str_eqb id k) eqn:E; simpl; rewrite E.
  - reflexivity.
  - exact IH.
Qed.

(** The description of the event [eid] as the handler reads it. *)
Definition event_description (eid : str) (w : World) : option str :=
  match lookup_event eid (events w) with
  | Some ev => Some (or_str (Event.description ev) [])
  | None => None
  end.

(** The meeting with the times and the event of a sync recorded. *)
Definition synced (meeting : Meeting.t) (start_iso end_iso event_id : str)
  : Meeting.t :=
  Meeting.mk (Meeting.id meeting) (Meeting.title meeting)
    (Meeting.folder_id meeting) (Meeting.created_at meeting)
    (Some start_iso) (Some end_iso)
    (Meeting.status meeting) (Meeting.transcript meeting)
    (Meeting.summary meeting) (Meeting.audio_path meeting)
    (Some event_id) (Meeting.action_items meeting)
    (Meeting.is_favorite meeting) (Meeting.owner_id meeting).


Section CalendarSync.

Context `{PL : PyLib}.

(** What a sync with an event id does to the calendar and to the table of
    meetings: nothing, when it raises before the update; else the event is
    replaced by one whose description is the merge of the snippet of the
    meeting found, and the rows of that meeting are replaced by the
    meeting with the sync recorded. *)
Lemma sync_with_event_effect
  (meeting_id : str) (payload : CalendarSyncPayload.t)
  (authorization : option str) (eid : str) (w : World) :
  CalendarSyncPayload.event_id payload = Some eid -> eid <> [] ->
  let run := sync_meeting_calendar meeting_id payload authorization w in
  (raises (fst run)
   /\ events (snd run) = events w /\ meetings (snd run) = meetings w)
  \/ (exists meeting ev body start_iso end_iso event_id,
        In meeting (meetings w)
        /\ Meeting.id meeting = meeting_id
        /\ lookup_event eid (events w) = Some ev
        /\ Event.description body
           = Some (merged_description (description_snippet meeting)
                     (or_str (Event.description ev) []))
        /\ events (snd run) = replace_event eid body (events w)
        /\ fst run
           = Ok (meeting_to_dict (synced meeting start_iso end_iso event_id))
        /\ meetings (snd run)
           = map (fun m => if str_eqb (Meeting.id m) (Meeting.id meeting)
                           then synced meeting start_iso end_iso event_id
                           else m) (meetings w)).
Proof.
  intros He Hne run. subst run.
  destruct eid as [|c s]; [congruence|].
  unfold sync_meeting_calendar, bind, current_user.
  destruct (_get_current_user_from_header authorization (users w))
    as [user|e]; [|left; simpl; repeat split; eexists; reflexivity].
  unfold _get_calendar_service_for_user, raise.
  destruct (User.google_creds_json user) as [|g gs];
    [left; simpl; repeat split; eexists; reflexivity|].
  destruct (calendar_access w user) as [[creds|]|e];
    [| |left; simpl; repeat split; eexists; reflexivity].
  all: unfold meeting_by_id; cbn [meetings set_users];
    destruct (List.find _ (meetings w)) as [meeting|] eqn:Ef;
    [|left; simpl; repeat split; eexists; reflexivity].
  all: rewrite He; unfold events_get; cbn [events set_users];
    destruct (lookup_event (c :: s) (events w)) as [ev|] eqn:El;
    [|left; simpl; repeat split; eexists; reflexivity].
  all: unfold events_update; cbn [events set_users]; rewrite El;
    unfold ret, or_opt; cbn [Event.id];
    apply find_some in Ef; destruct Ef as [Hin Hid];
    apply andb_true_iff in Hid; destruct Hid as [Hid _];
    apply str_eqb_eq in Hid.
  all: right; destruct (Event.id ev) as [[|c' s']|]; cbn [truthy_opt];
    eexists meeting, ev, _, _, _, _;
    (split; [exact Hin|]); (split; [exact Hid|]);
    (split; [reflexivity|]);
    (split; [|split; [|split]]);
    [| | unfold synced; cbn; reflexivity | ..]; try (cbn; reflexivity).
  all: reflexivity.
Qed.



Lemma or_str_some_nil (d : str) : or_str (Some d) [] = d.
Proof. destruct d; reflexivity. Qed.





End CalendarSync.

Definition planning_event : Event.t :=
  Event.mk (Some ("ev1" : str)) (Some ("Planning" : str))
    (Some ("Agenda: launch date" : str)) None None.

(** The example world with the stored meeting of the user and one event
    in the calendar. *)
Definition calendar_world : World := {|
  backend := example_backend;
  sent := [];
  disk := [];
  writable := fun _ => true;
  uuid_source := uuid_source example_world;
  uuid_count := 0;
  utcnow := epoch;
  users := [example_user];
  meetings := [stored_meeting];
  calendar_access := fun _ => Ok None;
  events := [("ev1" : str, planning_event)];
  event_error := fun _ => "not found"
|}.

Definition sync_payload : CalendarSyncPayload.t :=
  CalendarSyncPayload.mk (Some ("ev1" : str)) None None.

Definition first_sync : result MeetingDict.t * World :=
  sync_meeting_calendar "m1" sync_payload alice_header calendar_world.






(* ================================================================= *)
(** * Further properties of the handlers *)

(** ** Authentication *)

Lemma split_ws_go_word (w cur rest : str) :
  Forall (fun c => isspace c = false) w ->
  split_ws_go cur (w ++ rest) = split_ws_go (rev w ++ cur) rest.
Proof.
  intros Hw. revert cur. induction Hw as [|c w Hc Hw IH]; intros cur.
  - reflexivity.
  - simpl. rewrite Hc, IH, <- app_assoc. reflexivity.
Qed.

Lemma split_ws_two_words (a b : str) :
  a <> [] -> b <> [] ->
  Forall (fun c => isspace c = false) a ->
  Forall (fun c => isspace c = false) b ->
  split_ws (a ++ " " ++ b) = [a; b].
Proof.
  intros Ha Hb Fa Fb. unfold split_ws.
  rewrite split_ws_go_word by exact Fa. rewrite app_nil_r.
  change (lit " " ++ b) with (32%N :: b).
  cbn [split_ws_go]. change (isspace 32%N) with true. cbv iota.
  destruct (rev a) as [|x ra] eqn:Ea.
  - exfalso. apply Ha. rewrite <- (rev_involutive a), Ea. reflexivity.
  - rewrite <- Ea, rev_involutive. f_equal.
    rewrite <- (app_nil_r b) at 1.
    rewrite split_ws_go_word by exact Fb. rewrite app_nil_r. simpl.
    destruct (rev b) as [|y rb] eqn:Eb.
    + exfalso. apply Hb. rewrite <- (rev_involutive b), Eb. reflexivity.
    + rewrite <- Eb, rev_involutive. reflexivity.
Qed.

Lemma lower_char_letter (c : char) :
  (97 <=? lower_char c)%N && (lower_char c <=? 122)%N = true ->
  isspace c = false.
Proof.
  intros H.
  assert (Hr : 65 <= Z.of_N c <= 122).
  { unfold lower_char in H.
    destruct ((65 <=? c)%N && (c <=? 90)%N) eqn:E.
    - apply andb_true_iff in E. destruct E as [E1 E2].
      apply N.leb_le in E1. apply N.leb_le in E2. lia.
    - apply andb_true_iff in H. destruct H as [H1 H2].
      apply N.leb_le in H1. apply N.leb_le in H2. lia. }
  unfold isspace. cbv zeta. set (n := Z.of_N c) in *.
  replace (n <=? 13) with false by (symmetry; apply Z.leb_gt; lia).
  replace (n <=? 32) with false by (symmetry; apply Z.leb_gt; lia).
  replace (8192 <=? n) with false by (symmetry; apply Z.leb_gt; lia).
  replace (n =? 133) with false by (symmetry; apply Z.eqb_neq; lia).
  replace (n =? 160) with false by (symmetry; apply Z.eqb_neq; lia).
  replace (n =? 5760) with false by (symmetry; apply Z.eqb_neq; lia).
  replace (n =? 8232) with false by (symmetry; apply Z.eqb_neq; lia).
  replace (n =? 8233) with false by (symmetry; apply Z.eqb_neq; lia).
  replace (n =? 8239) with false by (symmetry; apply Z.eqb_neq; lia).
  replace (n =? 8287) with false by (symmetry; apply Z.eqb_neq; lia).
  replace (n =? 12288) with false by (symmetry; apply Z.eqb_neq; lia).
  rewrite !andb_false_r. reflexivity.
Qed.

Lemma bearer_no_space (scheme : str) :
  lower scheme = "bearer" -> Forall (fun c => isspace c = false) scheme.
Proof.
  unfold lower. intros H.
  do 6 (destruct scheme as [|? scheme]; [discriminate|]).
  destruct scheme; [|discriminate].
  injection H as H1 H2 H3 H4 H5 H6.
  repeat constructor; apply lower_char_letter;
    match goal with
    | H : lower_char ?c = _ |- context [lower_char ?c] => rewrite H
    end; reflexivity.
Qed.

(** The header authenticates only the holder of the token it carries, and
    every refusal is a 401: when the function returns a user, the header
    is two words, the first is [bearer] in some case, the user is a row of
    the table and the second word is that user's token. *)
Theorem authentication_sound (authorization : option str) (us : list User.t) :
  match _get_current_user_from_header authorization us with
  | Ok user =>
      exists header scheme token,
        authorization = Some header
        /\ split_ws header = [scheme; token]
        /\ lower scheme = "bearer"
        /\ In user us
        /\ User.api_token user = token
  | Raise e => exists detail, e = HTTPException 401 detail
  end.
Proof.
  unfold _get_current_user_from_header.
  destruct authorization as [[|c header]|]; simpl;
    try (eexists; reflexivity).
  destruct (split_ws (c :: header)) as [|scheme [|token [|x parts]]] eqn:Es;
    try (eexists; reflexivity).
  destruct (str_eqb (lower scheme) "bearer") eqn:Eb; simpl;
    [|eexists; reflexivity].
  unfold user_by_token.
  destruct (List.find _ us) as [user|] eqn:Ef; [|eexists; reflexivity].
  apply find_some in Ef. destruct Ef as [Hin Ht].
  exists (c :: header), scheme, token.
  repeat split; try assumption.
  - apply str_eqb_eq. exact Eb.
  - apply str_eqb_eq. exact Ht.
Qed.

(** A header made of [bearer] in any case, one space and a token without
    white space authenticates the first user of the table that holds the
    token. *)
Theorem authentication_complete
  (scheme token : str) (us : list User.t) (user : User.t) :
  lower scheme = "bearer" -> token <> [] ->
  Forall (fun c => isspace c = false) token ->
  user_by_token token us = Some user ->
  _get_current_user_from_header (Some (scheme ++ " " ++ token)) us = Ok user.
Proof.
  intros Hs Hne Ht Hu.
  assert (Hsn : scheme <> []) by (intros ->; discriminate).
  unfold _get_current_user_from_header.
  assert (Hh : truthy_opt (Some (scheme ++ " " ++ token)) = true).
  { destruct scheme; [congruence|reflexivity]. }
  rewrite Hh. cbn [negb].
  assert (Ho : or_str (Some (scheme ++ " " ++ token)) []
               = scheme ++ " " ++ token).
  { destruct scheme; [congruence|reflexivity]. }
  rewrite Ho, (split_ws_two_words scheme token Hsn Hne (bearer_no_space _ Hs) Ht).
  rewrite Hs. change (str_eqb "bearer" "bearer") with true.
  cbn [negb]. rewrite Hu. reflexivity.
Qed.

(** The check on a header written in capitals. *)
Lemma authentication_complete_witness :
  _get_current_user_from_header (Some ("BEARER" ++ " " ++ "tok-alice"))
    [example_user]
  = Ok example_user.
Proof.
  apply (authentication_complete "BEARER" "tok-alice" [example_user]
           example_user).
  - reflexivity.
  - discriminate.
  - repeat constructor.
  - reflexivity.
Defined.

(** The check on the header of the example user. *)
Lemma authentication_sound_witness :
  exists header scheme token,
    alice_header = Some header
    /\ split_ws header = [scheme; token]
    /\ lower scheme = "bearer"
    /\ In example_user [example_user]
    /\ User.api_token example_user = token.
Proof.
  exact (authentication_sound alice_header [example_user]).
Defined.

(** ** The gateways *)

(** [w'] is [w] with the requests [more] appended to its log. *)
Definition sent_more (more : list http_request) (w w' : World) : Prop :=
  w' = set_sent w (sent w ++ more).

Lemma sent_more_nil (w : World) : sent_more [] w w.
Proof. unfold sent_more. rewrite app_nil_r. destruct w. reflexivity. Qed.

Lemma sent_more_trans (a b : list http_request) (w1 w2 w3 : World) :
  sent_more a w1 w2 -> sent_more b w2 w3 -> sent_more (a ++ b) w1 w3.
Proof.
  unfold sent_more. intros -> ->. simpl. rewrite app_assoc. reflexivity.
Qed.

Lemma sent_more_only_sent (more : list http_request) (w w' : World) :
  sent_more more w w' -> only_sent w w'.
Proof. intros ->. eexists. reflexivity. Qed.

Section GatewayRequests.

Context `{PL : PyLib}.
Variable cfg : Config.

(** The request [ollama_chat] sends for [prompt] with the key [key]. *)
Definition chat_request (key prompt : str) : http_request := {|
  url := rstrip_char 47%N (LLM_API_BASE cfg) ++ "/chat/completions";
  authorization_header := "Bearer " ++ key;
  body := ChatBody (LLM_MODEL_NAME cfg) prompt
|}.

(** The request [transcribe_audio] sends for the file at [file_path]. *)
Definition audio_request (key file_path content : str) : http_request := {|
  url := rstrip_char 47%N (LLM_API_BASE cfg) ++ "/audio/transcriptions";
  authorization_header := "Bearer " ++ key;
  body := AudioBody (STT_MODEL_NAME cfg) (basename file_path) content
|}.

(** The three ways a call of [ollama_chat] goes: no key, so nothing is
    sent and the error is a 400; a request the client cannot build, so
    nothing is sent and the error is a 500 with the text of the exception;
    or one request, sent. *)
Lemma ollama_chat_sent (prompt : str) (api_key : option str) (w : World) :
  let run := ollama_chat cfg prompt api_key w in
  let req := chat_request (resolve_key cfg api_key) prompt in
  (resolve_key cfg api_key = [] /\ snd run = w
   /\ exists detail, fst run = Raise (HTTPException 400 detail))
  \/ (resolve_key cfg api_key <> []
      /\ exists message,
           request_error req = Some message
           /\ run = (Raise (HTTPException 500
                              ("Error calling LLM: " ++ message)), w))
  \/ (resolve_key cfg api_key <> []
      /\ request_error req = None
      /\ sent_more [req] w (snd run)).
Proof.
  unfold ollama_chat. destruct (resolve_key cfg api_key) as [|c key] eqn:Ek.
  - left. split; [reflexivity|]. split; [reflexivity|].
    eexists. reflexivity.
  - right. cbv zeta. unfold bind.
    match goal with
    | |- context [post ?r w] =>
        change r with (chat_request (c :: key) prompt);
        destruct (post_cases (chat_request (c :: key) prompt) w)
          as [(message & Hq & ->)|(Hq & ->)]
    end.
    + left. split; [discriminate|]. exists message.
      split; [exact Hq|reflexivity].
    + right. split; [discriminate|]. split; [exact Hq|].
      unfold sent_more.
      destruct (backend w (sent w) _) as [e|status_code text].
      * reflexivity.
      * destruct (negb (status_code =? 200)); reflexivity.
Qed.

(** A call of [ollama_chat] adds at most its one request to the log. *)
Lemma ollama_chat_sent_at_most
  (prompt : str) (api_key : option str) (w : World) :
  exists more,
    sent_more more w (snd (ollama_chat cfg prompt api_key w))
    /\ (more = []
        \/ more = [chat_request (resolve_key cfg api_key) prompt]).
Proof.
  destruct (ollama_chat_sent prompt api_key w)
    as [(_ & Hw & _)|[(_ & message & _ & Hrun)|(_ & _ & Hs)]].
  - exists []. split; [|left; reflexivity].
    rewrite Hw. apply sent_more_nil.
  - exists []. split; [|left; reflexivity].
    rewrite Hrun. apply sent_more_nil.
  - eexists. split; [exact Hs|]. right. reflexivity.
Qed.

(** The key a gateway uses is the caller's, trimmed, whenever the caller
    gave a non-empty one, whatever the process-wide key is; the
    process-wide key is used only when the caller gave none.  A call sends
    nothing when the key is empty.  With a key, it sends nothing either
    when the client cannot build the request, and the error is then a 500
    that carries the text of the client's exception; this is the case of
    every key with a character outside ASCII.  Otherwise the call sends
    exactly one request, to the chat endpoint, with that key as bearer
    token and the configured model and the prompt as body. *)
Theorem chat_request_key (prompt : str) (api_key : option str) (w : World) :
  let run := ollama_chat cfg prompt api_key w in
  let req := chat_request (resolve_key cfg api_key) prompt in
  (forall k, api_key = Some k -> k <> [] ->
     resolve_key cfg api_key = strip k)
  /\ (truthy_opt api_key = false ->
      resolve_key cfg api_key = strip (or_str (LLM_API_KEY cfg) []))
  /\ (resolve_key cfg api_key = [] -> sent (snd run) = sent w)
  /\ (resolve_key cfg api_key <> [] ->
      forall message, request_error req = Some message ->
        run = (Raise (HTTPException 500 ("Error calling LLM: " ++ message)),
               w))
  /\ (resolve_key cfg api_key <> [] ->
      forallb (fun c => (c <? 128)%N) (resolve_key cfg api_key) = false ->
      snd run = w
      /\ exists message,
           fst run
           = Raise (HTTPException 500 ("Error calling LLM: " ++ message)))
  /\ (resolve_key cfg api_key <> [] -> request_error req = None ->
      sent (snd run) = sent w ++ [req]).
Proof.
  cbv zeta. split; [|split; [|split; [|split; [|split]]]].
  - intros k -> Hk. unfold resolve_key, or_opt.
    destruct k; [congruence|]. reflexivity.
  - intros Ht. unfold resolve_key, or_opt. rewrite Ht. reflexivity.
  - intros Hk.
    destruct (ollama_chat_sent prompt api_key w)
      as [(_ & -> & _)|[(Hn & _)|(Hn & _)]];
      [reflexivity|congruence|congruence].
  - intros Hk message Hq.
    destruct (ollama_chat_sent prompt api_key w)
      as [(Hn & _)|[(_ & message' & Hq' & Hrun)|(_ & Hq' & _)]].
    + congruence.
    + rewrite Hq in Hq'. injection Hq' as <-. exact Hrun.
    + rewrite Hq in Hq'. discriminate.
  - intros Hk Hc.
    destruct (ollama_chat_sent prompt api_key w)
      as [(Hn & _)|[(_ & message & _ & Hrun)|(_ & Hq & _)]].
    + congruence.
    + rewrite Hrun. split; [reflexivity|]. exists message. reflexivity.
    + apply request_error_ascii in Hq. simpl in Hq. rewrite Hc in Hq.
      discriminate.
  - intros Hk Hq.
    destruct (ollama_chat_sent prompt api_key w)
      as [(Hn & _)|[(_ & message & Hq' & _)|(_ & _ & ->)]].
    + congruence.
    + rewrite Hq in Hq'. discriminate.
    + reflexivity.
Qed.

(** The ways a call of [transcribe_audio] goes: no key or no file, so the
    world is left as it was; a request the client cannot build, so nothing
    is sent and the error is a 500 with the text of the exception; or one
    request, sent. *)
Lemma transcribe_audio_sent
  (file_path : str) (api_key : option str) (w : World) :
  let run := transcribe_audio cfg file_path api_key w in
  (snd run = w
   /\ (resolve_key cfg api_key = []
       \/ read_file file_path (disk w) = None))
  \/ (exists content message,
        resolve_key cfg api_key <> []
        /\ read_file file_path (disk w) = Some content
        /\ request_error
             (audio_request (resolve_key cfg api_key) file_path content)
           = Some message
        /\ run = (Raise (HTTPException 500
                           ("Error calling transcription service: "
                            ++ message)), w))
  \/ (exists content,
        resolve_key cfg api_key <> []
        /\ read_file file_path (disk w) = Some content
        /\ request_error
             (audio_request (resolve_key cfg api_key) file_path content)
           = None
        /\ sent_more [audio_request (resolve_key cfg api_key) file_path
                        content] w (snd run)).
Proof.
  unfold transcribe_audio. destruct (resolve_key cfg api_key) as [|c key] eqn:Ek.
  - left. split; [reflexivity|]. left. reflexivity.
  - destruct (read_file file_path (disk w)) as [content|] eqn:Er.
    + right. cbv zeta. unfold bind.
      match goal with
      | |- context [post ?r w] =>
          change r with (audio_request (c :: key) file_path content);
          destruct (post_cases (audio_request (c :: key) file_path content)
                      w)
            as [(message & Hq & ->)|(Hq & ->)]
      end.
      * left. exists content, message. split; [discriminate|].
        split; [reflexivity|]. split; [exact Hq|reflexivity].
      * right. exists content. split; [discriminate|].
        split; [reflexivity|]. split; [exact Hq|].
        unfold sent_more.
        destruct (backend w (sent w) _) as [e|status_code text].
        -- reflexivity.
        -- destruct (negb (status_code =? 200)); reflexivity.
    + left. split; [reflexivity|]. right. reflexivity.
Qed.


(** A call of [transcribe_audio] adds at most one request to the log. *)
Lemma transcribe_audio_sent_at_most
  (file_path : str) (api_key : option str) (w : World) :
  exists more,
    sent_more more w (snd (transcribe_audio cfg file_path api_key w))
    /\ (length more <= 1)%nat.
Proof.
  destruct (transcribe_audio_sent file_path api_key w)
    as [(Hw & _)|[(content & message & _ & _ & _ & Hrun)
                 |(content & _ & _ & _ & Hs)]].
  - exists []. split; [|simpl; lia]. rewrite Hw. apply sent_more_nil.
  - exists []. split; [|simpl; lia]. rewrite Hrun. apply sent_more_nil.
  - eexists. split; [exact Hs|]. simpl. lia.
Qed.

End GatewayRequests.

(** A key with a letter outside ASCII, the e with an acute accent. *)
Definition accented_key : option str := Some ("sk-" ++ [233%N]).

(** With the accented key the client cannot encode the header: nothing is
    sent, and the error is the 500 with the text of the exception. *)
Lemma chat_request_key_witness :
  ollama_chat example_cfg "Hello" accented_key example_world
  = (Raise (HTTPException 500
              ("Error calling LLM: 'ascii' codec can't encode character '"
               ++ bs ++ "xe9' in position 10: ordinal not in range(128)")),
     example_world).
Proof.
  pose proof (chat_request_key example_cfg "Hello" accented_key
                example_world) as H.
  cbv zeta in H. destruct H as (_ & _ & _ & Hrefused & _).
  apply Hrefused.
  - vm_compute. discriminate.
  - vm_compute. reflexivity.
Defined.

(** ** Ingestion, whatever the backend does *)


Section IngestionOutcomes.

Context `{PL : PyLib}.
Variable cfg : Config.

(** The enrichment never raises, and it never yields action items without
    a summary. *)
Lemma enrich_total (audio_path : str) (key : option str) (w : World) :
  exists transcript summary items w',
    enrich cfg audio_path key w = (Ok (transcript, summary, items), w')
    /\ (summary = None -> items = []).
Proof.
  unfold enrich, catch, bind, gather.
  destruct (transcribe_audio cfg audio_path key w) as [[transcript|e] w1].
  - destruct (generate_summary cfg transcript key w1) as [rs w2].
    destruct (extract_action_items_via_llama cfg transcript key w2)
      as [rx w3].
    destruct rs as [summary|e1]; destruct rx as [items|e2]; simpl;
      eexists _, _, _, _; (split; [reflexivity|]);
      try reflexivity; discriminate.
  - eexists _, _, _, _. split; reflexivity.
Qed.

(** The handler when the file of the upload cannot be written. *)
Lemma create_meeting_with_audio_unwritable
  (title : str) (folder_id start_time end_time calendar_event_id : option str)
  (audio : str) (authorization x_llm_api_key : option str) (w : World) :
  writable w (upload_path cfg w) = false ->
  create_meeting_with_audio cfg title folder_id start_time end_time
    calendar_event_id audio authorization x_llm_api_key w
  = (Raise OSError, set_uuid_count w (S (uuid_count w))).
Proof.
  intros Hw.
  unfold create_meeting_with_audio, bind, uuid4, save_upload_to_wav.
  fold (upload_id w). fold (upload_filename w). fold (upload_path cfg w).
  simpl writable. rewrite Hw. reflexivity.
Qed.

(** The handler when the header does not authenticate a user. *)
Lemma create_meeting_with_audio_unauthenticated
  (title : str) (folder_id start_time end_time calendar_event_id : option str)
  (audio : str) (authorization x_llm_api_key : option str)
  (w w' : World) (e : exn)
  (transcript : str) (summary : option str) (items : list ActionItem.t) :
  writable w (upload_path cfg w) = true ->
  enrich cfg (upload_path cfg w) x_llm_api_key (uploaded cfg audio w)
  = (Ok (transcript, summary, items), w') ->
  _get_current_user_from_header authorization (users w) = Raise e ->
  create_meeting_with_audio cfg title folder_id start_time end_time
    calendar_event_id audio authorization x_llm_api_key w
  = (Raise e, w').
Proof.
  intros Hw He Hu.
  pose proof (enrich_only_sent cfg (upload_path cfg w) x_llm_api_key
                (uploaded cfg audio w)) as Hf.
  rewrite He in Hf. simpl in Hf.
  unfold create_meeting_with_audio, bind, uuid4, save_upload_to_wav.
  fold (upload_id w). fold (upload_filename w).
  fold (upload_path cfg w).
  simpl writable. rewrite Hw.
  change (set_disk (set_uuid_count w (S (uuid_count w)))
            ((upload_path cfg w, audio)
             :: disk (set_uuid_count w (S (uuid_count w)))))
    with (uploaded cfg audio w).
  rewrite He. unfold current_user.
  rewrite (only_sent_users _ _ Hf), uploaded_users, Hu. reflexivity.
Qed.





End IngestionOutcomes.









(** ** The bracket scan, on every text *)

Lemma find_from_inv (o : char) (s : str) (i j : Z) :
  find_from [o] s i = j -> j <> -1 -> 0 <= i ->
  exists pre rest, s = pre ++ o :: rest /\ ~ In o pre /\ j = i + len pre.
Proof.
  revert i. induction s as [|d s IH]; intros i Hf Hj Hi.
  - simpl in Hf. congruence.
  - simpl in Hf. destruct (N.eqb_spec o d) as [->|Hd]; simpl in Hf.
    + exists [], s. split; [reflexivity|]. split; [intros []|].
      unfold len. simpl. lia.
    + destruct (IH (i + 1) Hf Hj) as (pre & rest & -> & Hn & ->); [lia|].
      exists (d :: pre), rest. split; [reflexivity|]. split.
      * intros [H|H]; [congruence|contradiction].
      * unfold len. simpl length. lia.
Qed.

Lemma find_from_le (o : char) (pre rest : str) (i : Z) :
  i <= find_from [o] (pre ++ o :: rest) i <= i + len pre.
Proof.
  revert i. induction pre as [|d pre IH]; intros i.
  - simpl. rewrite N.eqb_refl. unfold len. simpl. lia.
  - simpl. destruct (N.eqb o d); simpl.
    + unfold len. simpl length. lia.
    + specialize (IH (i + 1)). unfold len in *. simpl length. lia.
Qed.

Lemma rfind_from_range (c : char) (s : str) (i : Z) :
  rfind_from [c] s i = -1 \/ i <= rfind_from [c] s i.
Proof.
  revert i. induction s as [|d s IH]; intros i.
  - left. reflexivity.
  - simpl. destruct (IH (i + 1)) as [E|E].
    + rewrite E. simpl. destruct (N.eqb c d); simpl; [right; lia|left; reflexivity].
    + destruct (rfind_from [c] s (i + 1) =? -1) eqn:E1.
      * destruct (N.eqb c d); simpl; [right; lia|left; reflexivity].
      * right. lia.
Qed.

Lemma rfind_from_none (c : char) (s : str) (i : Z) :
  rfind_from [c] s i = -1 -> 0 <= i -> ~ In c s.
Proof.
  revert i. induction s as [|d s IH]; intros i Hr Hi.
  - intros [].
  - simpl in Hr. destruct (rfind_from [c] s (i + 1) =? -1) eqn:E.
    + apply Z.eqb_eq in E. destruct (N.eqb_spec c d) as [->|Hd]; simpl in Hr.
      * lia.
      * intros [H|H]; [congruence|]. revert H. apply (IH (i + 1)); [exact E|lia].
    + apply Z.eqb_neq in E. congruence.
Qed.

Lemma rfind_from_inv (c : char) (s : str) (i j : Z) :
  rfind_from [c] s i = j -> j <> -1 -> 0 <= i ->
  exists pre post, s = pre ++ c :: post /\ ~ In c post /\ j = i + len pre.
Proof.
  revert i. induction s as [|d s IH]; intros i Hr Hj Hi.
  - simpl in Hr. congruence.
  - simpl in Hr. destruct (rfind_from [c] s (i + 1) =? -1) eqn:E.
    + apply Z.eqb_eq in E. destruct (N.eqb_spec c d) as [->|Hd]; simpl in Hr.
      * exists [], s. split; [reflexivity|]. split.
        -- apply (rfind_from_none d s (i + 1)); [exact E|lia].
        -- unfold len. simpl. lia.
      * congruence.
    + destruct (IH (i + 1) Hr Hj) as (pre & post & -> & Hn & ->); [lia|].
      exists (d :: pre), post. split; [reflexivity|]. split; [exact Hn|].
      unfold len. simpl length. lia.
Qed.

Lemma rfind_from_ge (c : char) (s post : str) (i : Z) :
  0 <= i -> i + len s <= rfind_from [c] (s ++ c :: post) i.
Proof.
  revert i. induction s as [|d s IH]; intros i Hi.
  - simpl. rewrite N.eqb_refl. simpl.
    destruct (rfind_from_range c post (i + 1)) as [E|E].
    + rewrite E. simpl. unfold len. simpl. lia.
    + destruct (rfind_from [c] post (i + 1) =? -1) eqn:E1;
        unfold len; simpl; lia.
  - simpl. specialize (IH (i + 1)).
    destruct (rfind_from [c] (s ++ c :: post) (i + 1) =? -1) eqn:E1.
    + apply Z.eqb_eq in E1. unfold len in *. lia.
    + unfold len in *. simpl length. lia.
Qed.

(** Two ways to cut the same text, the first cut being the shorter. *)
Lemma app_cut (a b s t : str) :
  a ++ b = s ++ t -> (length a < length s)%nat ->
  exists m, s = a ++ m /\ b = m ++ t /\ m <> [].
Proof.
  revert s. induction a as [|x a IH]; intros s H Hl.
  - exists s. split; [reflexivity|]. split; [exact H|].
    destruct s; [simpl in Hl; lia|discriminate].
  - destruct s as [|y s]; [simpl in Hl; lia|].
    simpl in H. injection H as -> H.
    destruct (IH s H) as (m & -> & -> & Hm); [simpl in Hl; lia|].
    exists m. repeat split. exact Hm.
Qed.

(** The scan on any text.  When the text holds an opening bracket with a
    closing bracket somewhere after it, the selection runs from the first
    opening bracket of the text to its last closing bracket, both
    included; otherwise the selection is the whole text. *)
Theorem bracketed_selection (o c : char) (raw : str) :
  (exists pre body post,
     raw = pre ++ (o :: body ++ [c]) ++ post
     /\ ~ In o pre /\ ~ In c post
     /\ bracketed [o] [c] raw = o :: body ++ [c])
  \/ ((forall pre body post, raw <> pre ++ (o :: body ++ [c]) ++ post)
      /\ bracketed [o] [c] raw = raw).
Proof.
  destruct (negb (find raw [o] =? -1) && negb (rfind raw [c] =? -1)
            && (rfind raw [c] >? find raw [o])) eqn:E.
  - left.
    apply andb_true_iff in E. destruct E as [E Hgt].
    apply andb_true_iff in E. destruct E as [Hs He].
    apply negb_true_iff, Z.eqb_neq in Hs.
    apply negb_true_iff, Z.eqb_neq in He.
    apply Z.gtb_lt in Hgt.
    destruct (find_from_inv o raw 0 _ eq_refl Hs) as (pre & rest & Hp & Hno & Hi);
      [lia|].
    destruct (rfind_from_inv c raw 0 _ eq_refl He) as (s & post & Hq & Hnc & Hj);
      [lia|].
    fold (find raw [o]) in Hi. fold (rfind raw [c]) in Hj.
    assert (Hcut : exists m, s = pre ++ m /\ o :: rest = m ++ c :: post
                             /\ m <> []).
    { apply app_cut; [congruence|]. unfold len in *. lia. }
    destruct Hcut as (m & -> & Hm & Hne).
    destruct m as [|x body]; [congruence|].
    simpl in Hm. injection Hm as <- Hrest.
    exists pre, body, post.
    assert (Hraw : raw = pre ++ (o :: body ++ [c]) ++ post).
    { rewrite Hq. simpl. rewrite <- !app_assoc. reflexivity. }
    split; [exact Hraw|]. split; [exact Hno|]. split; [exact Hnc|].
    rewrite Hraw. apply bracketed_between; assumption.
  - right. split.
    + intros pre body post Hraw.
      assert (Hf : 0 <= find raw [o] <= len pre).
      { unfold find. rewrite Hraw. simpl app.
        pose proof (find_from_le o pre (body ++ [c] ++ post) 0) as H.
        simpl in H. rewrite <- app_assoc. simpl. lia. }
      assert (Hr : len pre + 1 + len body <= rfind raw [c]).
      { unfold rfind. rewrite Hraw.
        replace (pre ++ (o :: body ++ [c]) ++ post)
          with ((pre ++ o :: body) ++ c :: post)
          by (simpl; rewrite <- !app_assoc; reflexivity).
        pose proof (rfind_from_ge c (pre ++ o :: body) post 0) as H.
        unfold len in *. rewrite length_app in H. simpl length in H. lia. }
      assert (Hb : 0 <= len body) by (unfold len; lia).
      assert (E1 : (find raw [o] =? -1) = false) by (apply Z.eqb_neq; lia).
      assert (E2 : (rfind raw [c] =? -1) = false) by (apply Z.eqb_neq; lia).
      assert (E3 : (rfind raw [c] >? find raw [o]) = true)
        by (apply Z.gtb_lt; lia).
      rewrite E1, E2, E3 in E. discriminate.
    + unfold bracketed. rewrite E. reflexivity.
Qed.

(** ** Questions stay within the meetings of the caller *)

Lemma insert_desc_in (x m : Meeting.t) (l : list Meeting.t) :
  In x (insert_desc m l) <-> x = m \/ In x l.
Proof.
  induction l as [|y l IH]; simpl.
  - intuition.
  - destruct (datetime_leb (Meeting.created_at m) (Meeting.created_at y));
      simpl; rewrite ?IH; intuition.
Qed.

Lemma order_desc_in (x : Meeting.t) (l : list Meeting.t) :
  In x (order_desc l) <-> In x l.
Proof.
  induction l as [|y l IH]; simpl.
  - reflexivity.
  - rewrite insert_desc_in, IH. intuition.
Qed.

Lemma firstn_in (x : Meeting.t) (n : nat) (l : list Meeting.t) :
  In x (firstn n l) -> In x l.
Proof.
  revert l. induction n as [|n IH]; intros [|y l]; simpl; try tauto.
  intros [H|H]; [left; exact H|right; apply IH; exact H].
Qed.

(** A row of the table that belongs to [user]. *)
Definition row_of (user : User.t) (w : World) (m : Meeting.t) : Prop :=
  In m (meetings w) /\ owned_by user m = true.

Lemma recent_meetings_rows (n : nat) (user : User.t) (w : World) :
  exists ms, recent_meetings n user w = (Ok ms, w)
             /\ Forall (row_of user w) ms.
Proof.
  eexists. split; [reflexivity|].
  apply Forall_forall. intros m Hm.
  apply firstn_in, order_desc_in, filter_In in Hm. exact Hm.
Qed.

Section QuestionScope.

Context `{PL : PyLib}.
Variable cfg : Config.

(** Whatever the question and whatever the model replies, a question only
    adds to the log of requests; every reference of an answer is a row of
    the meetings table that belongs to the user the header authenticates;
    and every request the handler sends is a chat request whose prompt is
    built from such rows and the trimmed question. *)
Theorem qa_stays_within_owner
  (question : str) (authorization x_llm_api_key : option str) (w : World) :
  let run := ai_question_answer cfg question authorization x_llm_api_key w in
  only_sent w (snd run)
  /\ (forall resp, fst run = Ok resp ->
        exists user,
          _get_current_user_from_header authorization (users w) = Ok user
          /\ Forall (fun r =>
                       exists m, row_of user w m
                                 /\ r = QAReference.mk (Meeting.id m)
                                          (Meeting.title m)
                                          (Meeting.created_at m))
                    (QAResponse.references resp))
  /\ (forall req, In req (sent (snd run)) ->
        In req (sent w)
        \/ exists user ms,
             _get_current_user_from_header authorization (users w) = Ok user
             /\ Forall (row_of user w) ms
             /\ body req = ChatBody (LLM_MODEL_NAME cfg)
                             (qa_prompt ms (strip question))).
Proof.
  cbv zeta. unfold ai_question_answer.
  destruct (strip question) as [|q0 qs] eqn:Eq.
  { simpl. split; [apply only_sent_refl|]. split; [discriminate|].
    intros req H. left. exact H. }
  unfold bind, current_user, lift.
  destruct (_get_current_user_from_header authorization (users w))
    as [user|e] eqn:Eu.
  2:{ simpl. split; [apply only_sent_refl|]. split; [discriminate|].
      intros req H. left. exact H. }
  destruct (recent_meetings_rows 40 user w) as (ms & Hrm & Hms).
  rewrite Hrm.
  destruct ms as [|m0 ms'].
  { simpl. split; [apply only_sent_refl|]. split.
    - intros resp [= <-]. exists user. split; [reflexivity|]. constructor.
    - intros req H. left. exact H. }
  set (ms := m0 :: ms') in *.
  pose proof (ollama_chat_only_sent cfg (qa_prompt ms (q0 :: qs))
                x_llm_api_key w) as Hframe.
  pose proof (ollama_chat_sent_at_most cfg (qa_prompt ms (q0 :: qs))
                x_llm_api_key w) as Hsent.
  assert (Hreqs : forall req,
            In req (sent (snd (ollama_chat cfg (qa_prompt ms (q0 :: qs))
                                 x_llm_api_key w))) ->
            In req (sent w)
            \/ exists user0 ms0,
                 Ok user = Ok user0
                 /\ Forall (row_of user0 w) ms0
                 /\ body req = ChatBody (LLM_MODEL_NAME cfg)
                                 (qa_prompt ms0 (q0 :: qs))).
  { intros req H.
    destruct Hsent as (more & Hw & Hmore). rewrite Hw in H.
    simpl in H. apply in_app_iff in H.
    destruct Hmore as [->| ->]; destruct H as [H|H];
      try (left; exact H); try contradiction.
    destruct H as [<-|[]].
    right. exists user, ms. split; [reflexivity|].
    split; [exact Hms|reflexivity]. }
  clear Hsent.
  destruct (ollama_chat cfg (qa_prompt ms (q0 :: qs)) x_llm_api_key w)
    as [[raw|e] w1] eqn:Echat; simpl in Hframe, Hreqs.
  2:{ simpl. split; [exact Hframe|]. split; [discriminate|exact Hreqs]. }
  cbv iota beta.
  destruct (parse_answer raw) as [[answer_text refs_raw]|e].
  2:{ simpl. split; [exact Hframe|]. split; [|exact Hreqs].
      intros resp [= <-]. exists user. split; [reflexivity|]. constructor. }
  destruct (referenced_ids refs_raw) as [id_set|e].
  2:{ simpl. split; [exact Hframe|]. split; [discriminate|exact Hreqs]. }
  destruct id_set as [|i0 ids].
  { simpl. split; [exact Hframe|]. split; [|exact Hreqs].
    intros resp [= <-]. exists user. split; [reflexivity|]. constructor. }
  unfold meetings_among, ret. cbv iota beta.
  rewrite (only_sent_users _ _ Hframe), Eu.
  rewrite (only_sent_meetings _ _ Hframe).
  simpl. split; [exact Hframe|]. split; [|exact Hreqs].
  intros resp [= <-]. exists user. split; [reflexivity|].
  simpl. apply Forall_forall. intros r Hr.
  apply in_map_iff in Hr. destruct Hr as (m & <- & Hm).
  exists m. split; [|reflexivity].
  apply order_desc_in, filter_In in Hm. destruct Hm as [Hin Hp].
  apply andb_true_iff in Hp. split; [exact Hin|apply Hp].
Qed.

End QuestionScope.

(** ** A sync touches one event and one meeting *)

Lemma lookup_replace_event_other (k id : str) (ev : Event.t)
  (es : list (str * Event.t)) :
  k <> id -> lookup_event k (replace_event id ev es) = lookup_event k es.
Proof.
  intros Hk. induction es as [|[k' x] es IH]; simpl; [reflexivity|].
  destruct (str_eqb id k') eqn:E; simpl.
  - apply str_eqb_eq in E. subst k'.
    destruct (str_eqb k id) eqn:E2; [apply str_eqb_eq in E2; congruence|].
    reflexivity.
  - destruct (str_eqb k k'); [reflexivity|exact IH].
Qed.

Lemma merged_description_prefix (snippet existing_desc : str) :
  startswith (merged_description snippet existing_desc) existing_desc = true.
Proof.
  unfold merged_description.
  destruct (contains existing_desc snippet); cbn [negb].
  - rewrite <- (app_nil_r existing_desc) at 1. apply startswith_app.
  - destruct existing_desc as [|c d]; [reflexivity|].
    apply startswith_app.
Qed.

Section CalendarSyncFrame.

Context `{PL : PyLib}.

(** A sync with an event id, whether it succeeds or raises: every other
    event of the calendar is as it was; every row of the table whose id is
    not the meeting's is as it was, at the same place; the description of
    the event still begins with what it was before the sync; and a sync
    that raises changed neither the calendar nor the table. *)
Theorem sync_touches_one_event
  (meeting_id : str) (payload : CalendarSyncPayload.t)
  (authorization : option str) (eid : str) (w : World) :
  CalendarSyncPayload.event_id payload = Some eid -> eid <> [] ->
  let run := sync_meeting_calendar meeting_id payload authorization w in
  (forall k, k <> eid ->
     lookup_event k (events (snd run)) = lookup_event k (events w))
  /\ (forall i m, nth_error (meetings w) i = Some m ->
        Meeting.id m <> meeting_id ->
        nth_error (meetings (snd run)) i = Some m)
  /\ length (meetings (snd run)) = length (meetings w)
  /\ (forall d, event_description eid w = Some d ->
        exists d', event_description eid (snd run) = Some d'
                   /\ startswith d' d = true)
  /\ (raises (fst run) ->
      events (snd run) = events w /\ meetings (snd run) = meetings w).
Proof.
  intros He Hne run.
  destruct (sync_with_event_effect meeting_id payload authorization eid w
              He Hne)
    as [(_ & Hev & Hms)
       |(meeting & ev & body & si & ei & xi & Hin & Hid & Hl & Hb & Hev
         & Hok & Hms)]; fold run in Hev, Hms.
  - rewrite Hev, Hms. repeat split; try reflexivity.
    + intros i m H _. exact H.
    + intros d Hd. exists d. split.
      * unfold event_description in *. rewrite Hev. exact Hd.
      * rewrite <- (app_nil_r d) at 1. apply startswith_app.
  - fold run in Hok. rewrite Hev, Hms. split; [|split; [|split; [|split]]].
    + intros k Hk. apply lookup_replace_event_other. exact Hk.
    + intros i m Hn Hm. rewrite nth_error_map, Hn. simpl.
      destruct (str_eqb (Meeting.id m) (Meeting.id meeting)) eqn:E;
        [|reflexivity].
      apply str_eqb_eq in E. congruence.
    + apply length_map.
    + intros d Hd. unfold event_description in *.
      rewrite Hl in Hd. injection Hd as <-.
      rewrite Hev, (lookup_replace_event _ _ _ _ Hl), Hb, or_str_some_nil.
      eexists. split; [reflexivity|]. apply merged_description_prefix.
    + intros [e Hr]. rewrite Hok in Hr. discriminate.
Qed.

End CalendarSyncFrame.

(** On the example calendar the sync keeps the agenda at the head of the
    description of the event. *)
Lemma sync_touches_one_event_witness :
  exists d', event_description "ev1" (snd first_sync) = Some d'
             /\ startswith d' "Agenda: launch date" = true.
Proof.
  destruct (sync_touches_one_event "m1" sync_payload alice_header "ev1"
              calendar_world eq_refl ltac:(discriminate))
    as (_ & _ & _ & H & _).
  apply (H ("Agenda: launch date" : str)). reflexivity.
Defined.

(* ================================================================= *)
(** * The other endpoints of the meetings *)

(** The pydantic model [MeetingMetadataUpdate]. *)
Module MeetingMetadataUpdate.
Record t : Type := mk {
  title : option str;
  start_time : option str;
  end_time : option str;
  calendar_event_id : option str
}.
End MeetingMetadataUpdate.

(** The pydantic model [SmartSummaryRequest]. *)
Module SmartSummaryRequest.
Record t : Type := mk {
  mode : str;
  persona_name : option str
}.
End SmartSummaryRequest.

(** [x if x is not None else y] *)
Definition if_given {A} (x : option A) (y : A) : A :=
  match x with
  | Some a => a
  | None => y
  end.

(** The meeting after the assignments of [update_meeting_metadata]: each
    of the four attributes is assigned when the payload gives it. *)
Definition with_metadata (meeting : Meeting.t)
  (payload : MeetingMetadataUpdate.t) : Meeting.t :=
  Meeting.mk (Meeting.id meeting)
    (if_given (MeetingMetadataUpdate.title payload) (Meeting.title meeting))
    (Meeting.folder_id meeting) (Meeting.created_at meeting)
    (match MeetingMetadataUpdate.start_time payload with
     | Some s => Some s
     | None => Meeting.start_time meeting
     end)
    (match MeetingMetadataUpdate.end_time payload with
     | Some s => Some s
     | None => Meeting.end_time meeting
     end)
    (Meeting.status meeting) (Meeting.transcript meeting)
    (Meeting.summary meeting) (Meeting.audio_path meeting)
    (match MeetingMetadataUpdate.calendar_event_id payload with
     | Some s => Some s
     | None => Meeting.calendar_event_id meeting
     end)
    (Meeting.action_items meeting) (Meeting.is_favorite meeting)
    (Meeting.owner_id meeting).

(** [meeting.is_favorite = bool(favorite)] *)
Definition with_is_favorite (meeting : Meeting.t) (favorite : bool)
  : Meeting.t :=
  Meeting.mk (Meeting.id meeting) (Meeting.title meeting)
    (Meeting.folder_id meeting) (Meeting.created_at meeting)
    (Meeting.start_time meeting) (Meeting.end_time meeting)
    (Meeting.status meeting) (Meeting.transcript meeting)
    (Meeting.summary meeting) (Meeting.audio_path meeting)
    (Meeting.calendar_event_id meeting) (Meeting.action_items meeting)
    (Some favorite) (Meeting.owner_id meeting).

(** [meeting.action_items = items_json] *)
Definition with_action_items (meeting : Meeting.t) (items_json : str)
  : Meeting.t :=
  Meeting.mk (Meeting.id meeting) (Meeting.title meeting)
    (Meeting.folder_id meeting) (Meeting.created_at meeting)
    (Meeting.start_time meeting) (Meeting.end_time meeting)
    (Meeting.status meeting) (Meeting.transcript meeting)
    (Meeting.summary meeting) (Meeting.audio_path meeting)
    (Meeting.calendar_event_id meeting) (Some items_json)
    (Meeting.is_favorite meeting) (Meeting.owner_id meeting).

(** [Meeting.folder_id == folder_id], when a folder is asked for: a row
    without folder matches no folder. *)
Definition in_folder (folder_id : option str) (m : Meeting.t) : bool :=
  match folder_id with
  | None => true
  | Some f =>
      match Meeting.folder_id m with
      | Some g => str_eqb g f
      | None => false
      end
  end.

(** [Meeting.is_favorite.is_(True)] *)
Definition is_favorite_true (m : Meeting.t) : bool :=
  match Meeting.is_favorite m with
  | Some true => true
  | _ => false
  end.

(** The files of the disk without the one at [path]. *)
Definition remove_file (path : str) (d : list (str * str))
  : list (str * str) :=
  filter (fun entry => negb (str_eqb path (fst entry))) d.

Section Endpoints.

Context `{PL : PyLib}.
Variable cfg : Config.

(** [BASE_DIR], the directory of [main.py]. *)
Variable BASE_DIR : str.

(** Whether the operating system lets the process unlink a path. *)
Variable unlinkable : str -> bool.

(** The query for the meeting [meeting_id] of [user] and the 404 that the
    handlers raise when it finds none. *)
Definition meeting_or_404 (meeting_id : str) (user : User.t) : M Meeting.t :=
  let* found := meeting_by_id meeting_id user in
  match found with
  | None => raise (HTTPException 404 "Meeting not found")
  | Some meeting => ret meeting
  end.

Definition list_meetings
  (folder_id : option str) (favorites_only : bool)
  (authorization : option str) : M (list MeetingDict.t) :=
  let* user := current_user authorization in
  fun w =>
    let q :=
      filter (fun m => owned_by user m && in_folder folder_id m
                       && (negb favorites_only || is_favorite_true m))
             (meetings w) in
    (Ok (map meeting_to_dict (order_desc q)), w).

Definition get_meeting (meeting_id : str) (authorization : option str)
  : M MeetingDict.t :=
  let* user := current_user authorization in
  let* meeting := meeting_or_404 meeting_id user in
  ret (meeting_to_dict meeting).

Definition update_meeting_metadata
  (meeting_id : str) (payload : MeetingMetadataUpdate.t)
  (authorization : option str) : M MeetingDict.t :=
  let* user := current_user authorization in
  let* meeting := meeting_or_404 meeting_id user in
  let meeting' := with_metadata meeting payload in
  let* _ := db_update meeting' in
  ret (meeting_to_dict meeting').

(** [GET /audio/{filename}]: the response carries the bytes of the file. *)
Definition get_audio (filename : str) : M str :=
  fun w =>
    let file_path := path_join (AUDIO_DIR cfg) filename in
    match read_file file_path (disk w) with
    | None => (Raise (HTTPException 404 "Audio file not found"), w)
    | Some content => (Ok content, w)
    end.

(** [os.remove(path)] *)
Definition os_remove (path : str) : M unit :=
  fun w =>
    if unlinkable path
    then (Ok tt, set_disk w (remove_file path (disk w)))
    else (Raise OSError, w).

(** [db.delete(meeting); db.commit()] *)
Definition db_delete (meeting : Meeting.t) : M unit :=
  fun w =>
    (Ok tt,
     set_meetings w
       (filter (fun m => negb (str_eqb (Meeting.id m) (Meeting.id meeting)))
               (meetings w))).

Definition delete_meeting (meeting_id : str) (authorization : option str)
  : M pyval :=
  let* user := current_user authorization in
  let* meeting := meeting_or_404 meeting_id user in
  let* _ :=
    match Meeting.audio_path meeting with
    | Some (c :: s) =>
        let audio_file := path_join BASE_DIR (c :: s) in
        fun w =>
          match read_file audio_file (disk w) with
          | Some _ => catch (os_remove audio_file) (ret tt) w
          | None => (Ok tt, w)
          end
    | _ => ret tt
    end in
  let* _ := db_delete meeting in
  ret (PDict [("ok" : str, PBool true)]).

Definition _set_favorite_flag
  (meeting_id : str) (favorite : bool) (current_user : User.t)
  : M MeetingDict.t :=
  let* meeting := meeting_or_404 meeting_id current_user in
  let meeting' := with_is_favorite meeting favorite in
  let* _ := db_update meeting' in
  ret (meeting_to_dict meeting').

(** [PUT /meetings/{meeting_id}/favorite]; the [POST] version,
    [set_favorite_form], has the same body. *)
Definition set_favorite_json
  (meeting_id : str) (favorite : bool) (authorization : option str)
  : M MeetingDict.t :=
  let* user := current_user authorization in
  _set_favorite_flag meeting_id favorite user.

(** The items of the payload are [ActionItemPayload]s, which have the
    fields of an [ActionItem]. *)
Definition update_meeting_action_items
  (meeting_id : str) (action_items : list ActionItem.t)
  (authorization : option str) : M MeetingDict.t :=
  let* user := current_user authorization in
  let* meeting := meeting_or_404 meeting_id user in
  let items_json := json_dumps (action_items_payload action_items) in
  let meeting' := with_action_items meeting items_json in
  let* _ := db_update meeting' in
  ret (meeting_to_dict meeting').

Definition extract_action_items_endpoint
  (meeting_id : str) (authorization x_llm_api_key : option str)
  : M MeetingDict.t :=
  let* user := current_user authorization in
  let* meeting := meeting_or_404 meeting_id user in
  if negb (truthy_opt (Meeting.transcript meeting))
     || negb (truthy_opt
                (Some (strip (or_str (Meeting.transcript meeting) []))))
  then raise (HTTPException 400
                "No transcript available to extract action items from.")
  else
    let* items :=
      extract_action_items_via_llama cfg
        (or_str (Meeting.transcript meeting) []) x_llm_api_key in
    let items_json := json_dumps (action_items_payload items) in
    let meeting' := with_action_items meeting items_json in
    let* _ := db_update meeting' in
    ret (meeting_to_dict meeting').

(** The instructions of [generate_smart_summary] for a lowered mode. *)
Definition smart_instructions (mode : str) (persona_name : option str)
  : str :=
  if str_eqb mode "executive" then
    "Write an EXECUTIVE SUMMARY for a busy leader." ++ nl
    ++ "- 3" ++ [8211%N] ++ "7 concise bullet points." ++ nl
    ++ "- Focus on decisions, outcomes, and major risks." ++ nl
    ++ "- Do not include implementation details." ++ nl
  else if str_eqb mode "detailed" then
    "Write DETAILED NOTES from this meeting in markdown." ++ nl
    ++ "- Use sections and subheadings." ++ nl
    ++ "- Capture key arguments, options considered, and rationale." ++ nl
    ++ "- Include a short 'Decisions' section and a 'Next Steps' section."
    ++ nl
  else if str_eqb mode "decisions" then
    "Highlight DECISIONS vs DISCUSSION in markdown." ++ nl
    ++ "- Create two main sections: 'Decisions' and 'Discussion'." ++ nl
    ++ "- In 'Decisions', list only clear decisions and owners." ++ nl
    ++ "- In 'Discussion', summarize the main points and open questions."
    ++ nl
  else if str_eqb mode "persona" then
    let target := or_str persona_name "this person" in
    "Write a short recap specifically for " ++ target ++ "." ++ nl
    ++ "- Focus only on information, decisions, and action items relevant to them."
    ++ nl
    ++ "- Use a friendly, concise tone." ++ nl
    ++ "- Mention what they should pay attention to and any tasks they own."
    ++ nl
  else
    "Write a clear, concise summary with decisions and next steps.".

Definition smart_prompt (meeting : Meeting.t) (mode : str)
  (persona_name : option str) : str :=
  let base_context :=
    "Title: " ++ Meeting.title meeting ++ nl
    ++ "Created at: " ++ isoformat (Meeting.created_at meeting) ++ nl ++ nl
    ++ "Existing summary (may be empty):" ++ nl
    ++ or_str (Meeting.summary meeting) "N/A" ++ nl ++ nl
    ++ "Transcript:" ++ nl ++ or_str (Meeting.transcript meeting) [] ++ nl in
  let mode := lower mode in
  let instructions := smart_instructions mode persona_name in
  "You are an expert meeting note-taker." ++ nl
  ++ instructions ++ nl ++ nl
  ++ "Meeting content:" ++ nl
  ++ base_context.

Definition generate_smart_summary
  (meeting : Meeting.t) (mode : str) (persona_name api_key : option str)
  : M str :=
  ollama_chat cfg (smart_prompt meeting mode persona_name) api_key.

Definition smart_summary_endpoint
  (meeting_id : str) (payload : SmartSummaryRequest.t)
  (authorization x_llm_api_key : option str) : M str :=
  let* user := current_user authorization in
  let* meeting := meeting_or_404 meeting_id user in
  if negb (truthy_opt (Meeting.transcript meeting))
     && negb (truthy_opt (Meeting.summary meeting))
  then raise (HTTPException 400 "No content available for this meeting yet.")
  else
    generate_smart_summary meeting (SmartSummaryRequest.mode payload)
      (SmartSummaryRequest.persona_name payload) x_llm_api_key.

End Endpoints.

(** ** Reading back what was written *)

(** The test of the query of the handlers for the meeting [meeting_id] of
    [user]. *)
Definition found_by (meeting_id : str) (user : User.t) (m : Meeting.t)
  : bool :=
  str_eqb (Meeting.id m) meeting_id && owned_by user m.

(** What [db_update] does to a row. *)
Definition replace_row (meeting : Meeting.t) (m : Meeting.t) : Meeting.t :=
  if str_eqb (Meeting.id m) (Meeting.id meeting) then meeting else m.

Lemma meeting_or_404_found
  (meeting_id : str) (user : User.t) (w : World) (meeting : Meeting.t) :
  List.find (found_by meeting_id user) (meetings w) = Some meeting ->
  meeting_or_404 meeting_id user w = (Ok meeting, w).
Proof.
  intros H. unfold meeting_or_404, bind, meeting_by_id.
  change (fun m => str_eqb (Meeting.id m) meeting_id && owned_by user m)
    with (found_by meeting_id user).
  rewrite H. reflexivity.
Qed.

Lemma meeting_or_404_missing
  (meeting_id : str) (user : User.t) (w : World) :
  List.find (found_by meeting_id user) (meetings w) = None ->
  meeting_or_404 meeting_id user w
  = (Raise (HTTPException 404 "Meeting not found"), w).
Proof.
  intros H. unfold meeting_or_404, bind, meeting_by_id.
  change (fun m => str_eqb (Meeting.id m) meeting_id && owned_by user m)
    with (found_by meeting_id user).
  rewrite H. reflexivity.
Qed.

(** The outcomes of the query: the row found is a row of the user with the
    id asked for, and nothing else than the 404 is raised. *)
Lemma meeting_or_404_cases (meeting_id : str) (user : User.t) (w : World) :
  (exists meeting,
     List.find (found_by meeting_id user) (meetings w) = Some meeting
     /\ In meeting (meetings w)
     /\ Meeting.id meeting = meeting_id
     /\ owned_by user meeting = true
     /\ meeting_or_404 meeting_id user w = (Ok meeting, w))
  \/ (List.find (found_by meeting_id user) (meetings w) = None
      /\ meeting_or_404 meeting_id user w
         = (Raise (HTTPException 404 "Meeting not found"), w)).
Proof.
  destruct (List.find (found_by meeting_id user) (meetings w))
    as [meeting|] eqn:E.
  - left. exists meeting. split; [reflexivity|].
    destruct (find_some _ _ E) as [Hin Hp].
    apply andb_true_iff in Hp. destruct Hp as [Hid Ho].
    apply str_eqb_eq in Hid.
    repeat (split; [assumption|]).
    apply meeting_or_404_found. exact E.
  - right. split; [reflexivity|]. apply meeting_or_404_missing. exact E.
Qed.

Lemma db_update_rows (meeting : Meeting.t) (w : World) :
  db_update meeting w
  = (Ok tt, set_meetings w (map (replace_row meeting) (meetings w))).
Proof. reflexivity. Qed.

(** After [db_update], the query finds the updated row. *)
Lemma find_replaced
  (meeting_id : str) (user : User.t) (meeting meeting' : Meeting.t)
  (l : list Meeting.t) :
  List.find (found_by meeting_id user) l = Some meeting ->
  Meeting.id meeting' = Meeting.id meeting ->
  Meeting.owner_id meeting' = Meeting.owner_id meeting ->
  List.find (found_by meeting_id user) (map (replace_row meeting') l)
  = Some meeting'.
Proof.
  intros Hf Hid Ho.
  assert (Hp : found_by meeting_id user meeting = true)
    by (apply (find_some _ _ Hf)).
  assert (Hp' : found_by meeting_id user meeting' = true).
  { unfold found_by, owned_by in *. rewrite Hid, Ho. exact Hp. }
  induction l as [|x l IH]; simpl in *; [discriminate|].
  destruct (str_eqb (Meeting.id x) (Meeting.id meeting')) eqn:Ex.
  - replace (replace_row meeting' x) with meeting'
      by (unfold replace_row; rewrite Ex; reflexivity).
    rewrite Hp'. reflexivity.
  - replace (replace_row meeting' x) with x
      by (unfold replace_row; rewrite Ex; reflexivity).
    destruct (found_by meeting_id user x) eqn:Epx.
    + injection Hf as ->. rewrite Hid, str_eqb_refl in Ex. discriminate.
    + apply IH. exact Hf.
Qed.

Lemma replace_row_idem (meeting : Meeting.t) (l : list Meeting.t) :
  map (replace_row meeting) (map (replace_row meeting) l)
  = map (replace_row meeting) l.
Proof.
  rewrite map_map. apply map_ext. intros m. unfold replace_row.
  destruct (str_eqb (Meeting.id m) (Meeting.id meeting)) eqn:E.
  - rewrite str_eqb_refl. reflexivity.
  - rewrite E. reflexivity.
Qed.

Lemma replace_row_other (meeting m : Meeting.t) :
  Meeting.id m <> Meeting.id meeting -> replace_row meeting m = m.
Proof.
  intros H. unfold replace_row.
  destruct (str_eqb (Meeting.id m) (Meeting.id meeting)) eqn:E;
    [|reflexivity].
  apply str_eqb_eq in E. contradiction.
Qed.

(** The query on a table with one more row, whose id no other row has. *)
Lemma find_fresh_row
  (meeting_id : str) (user : User.t) (m : Meeting.t) (l : list Meeting.t) :
  Forall (fun x => Meeting.id x <> meeting_id) l ->
  List.find (found_by meeting_id user) (l ++ [m])
  = if found_by meeting_id user m then Some m else None.
Proof.
  induction 1 as [|x l Hx _ IH]; simpl; [reflexivity|].
  unfold found_by at 1.
  destruct (str_eqb (Meeting.id x) meeting_id) eqn:E.
  - apply str_eqb_eq in E. contradiction.
  - simpl. exact IH.
Qed.

Section ReadBack.

Context `{PL : PyLib}.
Variable cfg : Config.

(** A read of the meeting the query finds. *)
Lemma get_meeting_run
  (meeting_id : str) (authorization : option str) (w : World)
  (user : User.t) (meeting : Meeting.t) :
  _get_current_user_from_header authorization (users w) = Ok user ->
  List.find (found_by meeting_id user) (meetings w) = Some meeting ->
  get_meeting meeting_id authorization w = (Ok (meeting_to_dict meeting), w).
Proof.
  intros Hu Hf. unfold get_meeting, bind, current_user. rewrite Hu.
  rewrite (meeting_or_404_found _ _ _ _ Hf). reflexivity.
Qed.

(** A read after the handlers assigned attributes of the meeting found
    and committed: [meeting'] is the meeting with the attributes
    assigned. *)
Lemma get_meeting_after_update
  (meeting_id : str) (authorization : option str) (w : World)
  (user : User.t) (meeting meeting' : Meeting.t) :
  _get_current_user_from_header authorization (users w) = Ok user ->
  List.find (found_by meeting_id user) (meetings w) = Some meeting ->
  Meeting.id meeting' = Meeting.id meeting ->
  Meeting.owner_id meeting' = Meeting.owner_id meeting ->
  let w' := set_meetings w (map (replace_row meeting') (meetings w)) in
  get_meeting meeting_id authorization w' = (Ok (meeting_to_dict meeting'), w').
Proof.
  intros Hu Hf Hid Ho w'. apply (get_meeting_run _ _ _ user).
  - exact Hu.
  - apply (find_replaced _ _ meeting); assumption.
Qed.

(** A meeting whose ingestion succeeded can be read back by its owner
    under the identifier drawn for the upload, provided no row had that
    identifier: the owner gets the dict the ingestion returned, every
    other user gets the 404, and the audio endpoint serves the uploaded
    bytes under the file name of the upload. *)
Theorem ingested_meeting_readable
  (title : str) (folder_id start_time end_time calendar_event_id : option str)
  (audio : str) (authorization x_llm_api_key : option str)
  (w : World) (user : User.t) (d : MeetingDict.t) :
  let run := create_meeting_with_audio cfg title folder_id start_time
               end_time calendar_event_id audio authorization
               x_llm_api_key w in
  fst run = Ok d ->
  _get_current_user_from_header authorization (users w) = Ok user ->
  Forall (fun m => Meeting.id m <> upload_id w) (meetings w) ->
  MeetingDict.id d = upload_id w
  /\ get_meeting (upload_id w) authorization (snd run) = (Ok d, snd run)
  /\ (forall header other,
        _get_current_user_from_header header (users w) = Ok other ->
        User.id other <> User.id user ->
        get_meeting (upload_id w) header (snd run)
        = (Raise (HTTPException 404 "Meeting not found"), snd run))
  /\ get_audio cfg (upload_filename w) (snd run) = (Ok audio, snd run).
Proof.
  intros run Hok Hu Hfresh.
  assert (Hw : writable w (upload_path cfg w) = true).
  { destruct (writable w (upload_path cfg w)) eqn:Hw; [reflexivity|].
    unfold run in Hok.
    rewrite (create_meeting_with_audio_unwritable cfg) in Hok by exact Hw.
    discriminate. }
  destruct (enrich_total cfg (upload_path cfg w) x_llm_api_key
              (uploaded cfg audio w))
    as (transcript & summary & items & w1 & He & _).
  pose proof (enrich_only_sent cfg (upload_path cfg w) x_llm_api_key
                (uploaded cfg audio w)) as Hf.
  rewrite He in Hf. simpl in Hf. destruct Hf as [l ->].
  pose proof (create_meeting_with_audio_run cfg title folder_id start_time
                end_time calendar_event_id audio authorization x_llm_api_key
                w _ user transcript summary items Hw He Hu) as Hrun.
  cbv zeta in Hrun. fold run in Hrun. rewrite Hrun in Hok |- *.
  set (m := ingested title folder_id start_time end_time calendar_event_id
              w user transcript summary
              (json_dumps (action_items_payload items))) in *.
  destruct (bindable summary); [|discriminate].
  cbn [fst snd] in Hok |- *. injection Hok as <-.
  split; [reflexivity|].
  assert (Hown : found_by (upload_id w) user m = true).
  { unfold found_by, owned_by. simpl. rewrite !str_eqb_refl. reflexivity. }
  split; [|split].
  - apply (get_meeting_run _ _ _ user); [exact Hu|].
    cbn [meetings set_meetings].
    rewrite (find_fresh_row _ _ _ _ Hfresh), Hown. reflexivity.
  - intros header other Ho Hne.
    unfold get_meeting, bind, current_user.
    cbn [users set_meetings set_sent uploaded set_disk set_uuid_count].
    rewrite Ho. rewrite meeting_or_404_missing; [reflexivity|].
    cbn [meetings set_meetings].
    rewrite (find_fresh_row _ _ _ _ Hfresh).
    unfold found_by, owned_by. simpl.
    destruct (str_eqb (User.id user) (User.id other)) eqn:E.
    + apply str_eqb_eq in E. congruence.
    + rewrite andb_false_r. reflexivity.
  - unfold get_audio.
    cbn [disk set_meetings set_sent uploaded set_disk].
    fold (upload_path cfg w). simpl read_file.
    rewrite str_eqb_refl. reflexivity.
Qed.

(** A successful update of the metadata, seen through the API: the dict
    returned is the one a read returns afterwards; each of the title, the
    start, the end and the event id is the payload's when the payload
    gives one, the empty string included, and what a read returned before
    otherwise; the other members are what a read returned before. *)
Theorem metadata_update_read_back
  (meeting_id : str) (payload : MeetingMetadataUpdate.t)
  (authorization : option str) (w : World) (d : MeetingDict.t) :
  fst (update_meeting_metadata meeting_id payload authorization w) = Ok d ->
  let w' := snd (update_meeting_metadata meeting_id payload authorization w) in
  exists d0,
    get_meeting meeting_id authorization w = (Ok d0, w)
    /\ get_meeting meeting_id authorization w' = (Ok d, w')
    /\ MeetingDict.title d
       = if_given (MeetingMetadataUpdate.title payload) (MeetingDict.title d0)
    /\ MeetingDict.start_time d
       = match MeetingMetadataUpdate.start_time payload with
         | Some s => Some s
         | None => MeetingDict.start_time d0
         end
    /\ MeetingDict.end_time d
       = match MeetingMetadataUpdate.end_time payload with
         | Some s => Some s
         | None => MeetingDict.end_time d0
         end
    /\ MeetingDict.calendar_event_id d
       = match MeetingMetadataUpdate.calendar_event_id payload with
         | Some s => Some s
         | None => MeetingDict.calendar_event_id d0
         end
    /\ MeetingDict.id d = MeetingDict.id d0
    /\ MeetingDict.folder_id d = MeetingDict.folder_id d0
    /\ MeetingDict.created_at d = MeetingDict.created_at d0
    /\ MeetingDict.status d = MeetingDict.status d0
    /\ MeetingDict.transcript d = MeetingDict.transcript d0
    /\ MeetingDict.summary d = MeetingDict.summary d0
    /\ MeetingDict.audio_path d = MeetingDict.audio_path d0
    /\ MeetingDict.is_favorite d = MeetingDict.is_favorite d0
    /\ MeetingDict.action_items d = MeetingDict.action_items d0.
Proof.
  unfold update_meeting_metadata, bind, current_user.
  destruct (_get_current_user_from_header authorization (users w))
    as [user|e] eqn:Eu; [|discriminate].
  destruct (meeting_or_404_cases meeting_id user w)
    as [(meeting & Hf & _ & _ & _ & ->)|(_ & ->)]; [|discriminate].
  rewrite db_update_rows. cbn [fst snd ret]. intros [= <-].
  exists (meeting_to_dict meeting).
  split; [apply (get_meeting_run _ _ _ user); assumption|].
  split; [apply (get_meeting_after_update _ _ _ user meeting);
          try assumption; reflexivity|].
  repeat split.
Qed.

(** A successful change of the favorite flag, seen through the API: the
    dict returned has the flag asked for and is the one a read returns
    afterwards; asking again for the same flag returns the same dict and
    changes nothing; and the listing of the favorites of the user holds
    the dict exactly when the flag was set. *)
Theorem favorite_flag_read_back
  (meeting_id : str) (favorite : bool) (authorization : option str)
  (w : World) (d : MeetingDict.t) :
  fst (set_favorite_json meeting_id favorite authorization w) = Ok d ->
  let w' := snd (set_favorite_json meeting_id favorite authorization w) in
  MeetingDict.is_favorite d = favorite
  /\ get_meeting meeting_id authorization w' = (Ok d, w')
  /\ set_favorite_json meeting_id favorite authorization w' = (Ok d, w')
  /\ (forall l, fst (list_meetings None true authorization w') = Ok l ->
        (In d l <-> favorite = true)).
Proof.
  unfold set_favorite_json, _set_favorite_flag, bind, current_user.
  destruct (_get_current_user_from_header authorization (users w))
    as [user|e] eqn:Eu; [|discriminate].
  destruct (meeting_or_404_cases meeting_id user w)
    as [(meeting & Hf & _ & Hid & Hown & ->)|(_ & ->)]; [|discriminate].
  rewrite db_update_rows. cbn [fst snd ret]. intros [= <-].
  set (meeting' := with_is_favorite meeting favorite).
  set (w' := set_meetings w (map (replace_row meeting') (meetings w))).
  assert (Hf' : List.find (found_by meeting_id user) (meetings w')
                = Some meeting').
  { apply (find_replaced _ _ meeting); [exact Hf|reflexivity|reflexivity]. }
  split; [reflexivity|]. split; [|split].
  - apply (get_meeting_run _ _ _ user); assumption.
  - change (users w') with (users w). rewrite Eu.
    rewrite (meeting_or_404_found _ _ _ _ Hf').
    rewrite db_update_rows.
    change (with_is_favorite meeting' favorite) with meeting'.
    unfold w' at 2. cbn [meetings set_meetings].
    rewrite replace_row_idem. reflexivity.
  - unfold list_meetings, bind, current_user.
    change (users w') with (users w). rewrite Eu. cbn [fst].
    intros l [= <-]. split.
    + intros Hin. apply in_map_iff in Hin.
      destruct Hin as (m & Hd & Hm).
      apply order_desc_in, filter_In in Hm. destruct Hm as [_ Hp].
      apply andb_true_iff in Hp. destruct Hp as [_ Hfav].
      simpl in Hfav. unfold is_favorite_true in Hfav.
      assert (Hb : MeetingDict.is_favorite (meeting_to_dict m) = true).
      { simpl. destruct (Meeting.is_favorite m) as [[|]|];
          [reflexivity|discriminate|discriminate]. }
      rewrite Hd in Hb. exact Hb.
    + intros ->. apply in_map. apply order_desc_in, filter_In.
      destruct (find_some _ _ Hf') as [Hin' _].
      split; [exact Hin'|].
      assert (Ho : owned_by user meeting' = true) by exact Hown.
      rewrite Ho. reflexivity.
Qed.

End ReadBack.

(** The dict the ingestion of the example upload returns when the backend
    of the example world answers every call. *)
Definition standup_dict : MeetingDict.t :=
  meeting_to_dict
    (ingested "Standup" None None None None example_world example_user
       example_transcript (Some example_reply)
       (json_dumps
          (action_items_payload
             [ActionItem.mk "Prepare the deck" (Some ("Alice" : str))
                (Some ("2024-01-17" : str)) (Some ("open" : str))]))).

(** The upload of the example user, read back. *)
Lemma ingested_meeting_readable_witness :
  let run := create_meeting_with_audio example_cfg "Standup" None None None
               None riff alice_header example_key example_world in
  fst run = Ok standup_dict
  /\ MeetingDict.id standup_dict = upload_id example_world
  /\ get_meeting (upload_id example_world) alice_header (snd run)
     = (Ok standup_dict, snd run)
  /\ (forall header other,
        _get_current_user_from_header header (users example_world)
        = Ok other ->
        User.id other <> User.id example_user ->
        get_meeting (upload_id example_world) header (snd run)
        = (Raise (HTTPException 404 "Meeting not found"), snd run))
  /\ get_audio example_cfg (upload_filename example_world) (snd run)
     = (Ok riff, snd run).
Proof.
  split; [vm_compute; reflexivity|].
  apply (ingested_meeting_readable example_cfg "Standup" None None None None
           riff alice_header example_key example_world example_user
           standup_dict).
  - vm_compute. reflexivity.
  - vm_compute. reflexivity.
  - constructor.
Defined.

(** A payload that empties the title and sets the end of the meeting. *)
Definition retitle_payload : MeetingMetadataUpdate.t :=
  MeetingMetadataUpdate.mk (Some []) None
    (Some ("2024-01-15T11:30:00" : str)) None.

Definition retitled : MeetingDict.t :=
  meeting_to_dict (with_metadata stored_meeting retitle_payload).

(** The update of the stored meeting of the example calendar: the empty
    title is applied, the start stays absent. *)
Lemma metadata_update_read_back_witness :
  MeetingDict.title retitled = []
  /\ MeetingDict.start_time retitled = None
  /\ MeetingDict.end_time retitled = Some ("2024-01-15T11:30:00" : str)
  /\ get_meeting "m1" alice_header
       (snd (update_meeting_metadata "m1" retitle_payload alice_header
               calendar_world))
     = (Ok retitled,
        snd (update_meeting_metadata "m1" retitle_payload alice_header
               calendar_world)).
Proof.
  destruct (metadata_update_read_back "m1" retitle_payload alice_header
              calendar_world retitled)
    as (d0 & H0 & Hget & Ht & Hs & He & _).
  - vm_compute. reflexivity.
  - split; [exact Ht|]. split; [|split; [exact He|exact Hget]].
    rewrite Hs. simpl.
    assert (E : get_meeting "m1" alice_header calendar_world
                = (Ok (meeting_to_dict stored_meeting), calendar_world))
      by (vm_compute; reflexivity).
    rewrite E in H0. injection H0 as <-. reflexivity.
Defined.

Definition starred : MeetingDict.t :=
  meeting_to_dict (with_is_favorite stored_meeting true).

(** The stored meeting of the example calendar, made a favorite. *)
Lemma favorite_flag_read_back_witness :
  let w' := snd (set_favorite_json "m1" true alice_header calendar_world) in
  MeetingDict.is_favorite starred = true
  /\ get_meeting "m1" alice_header w' = (Ok starred, w')
  /\ set_favorite_json "m1" true alice_header w' = (Ok starred, w')
  /\ (forall l, fst (list_meetings None true alice_header w') = Ok l ->
        (In starred l <-> true = true)).
Proof.
  apply (favorite_flag_read_back "m1" true alice_header calendar_world
           starred).
  vm_compute. reflexivity.
Defined.

(** ** Action items and summaries of a stored meeting *)

(** The element of ["action_items"] that [meeting_to_dict] builds for an
    item whose dict the handlers stored. *)
Definition item_dict_of (item : ActionItem.t) : ItemDict.t :=
  ItemDict.mk (PStr (ActionItem.task item))
    (opt_pyval (ActionItem.owner item))
    (opt_pyval (ActionItem.due_date item))
    (PStr (or_str (ActionItem.status item) "open")).

Lemma lower_char_idem (c : char) : lower_char (lower_char c) = lower_char c.
Proof.
  unfold lower_char.
  destruct ((65 <=? c) && (c <=? 90))%N eqn:E; [|rewrite E; reflexivity].
  apply andb_true_iff in E. destruct E as [E1 E2].
  apply N.leb_le in E1. apply N.leb_le in E2.
  replace (c + 32 <=? 90)%N with false
    by (symmetry; apply N.leb_gt; lia).
  rewrite andb_false_r. reflexivity.
Qed.

Lemma lower_idem (s : str) : lower (lower s) = lower s.
Proof.
  unfold lower. rewrite map_map. apply map_ext. exact lower_char_idem.
Qed.

Section StoredMeetings.

Context `{PL : PyLib}.
Variable cfg : Config.

Lemma json_dumps_list_cons (l : list pyval) :
  exists rest, json_dumps (PList l) = 91%N :: rest.
Proof. eexists. reflexivity. Qed.

(** The stored items of a meeting whose column holds the text the
    handlers write for [items], when [json.loads] gives back the value
    that was written. *)
Lemma stored_items_read_back (meeting : Meeting.t) (items : list ActionItem.t) :
  json_loads (json_dumps (action_items_payload items))
  = Some (action_items_payload items) ->
  MeetingDict.action_items
    (meeting_to_dict
       (with_action_items meeting
          (json_dumps (action_items_payload items))))
  = map item_dict_of items.
Proof.
  intros Hl. unfold meeting_to_dict. cbn [MeetingDict.action_items].
  cbn [with_action_items Meeting.action_items].
  remember (json_dumps (action_items_payload items)) as text eqn:Et.
  assert (Hj : exists rest, text = 91%N :: rest)
    by (rewrite Et; apply json_dumps_list_cons).
  destruct Hj as [rest Hj].
  assert (Ht : truthy_opt (Some text) = true) by (rewrite Hj; reflexivity).
  assert (Ho : or_str (Some text) [] = text) by (rewrite Hj; reflexivity).
  rewrite Ht, Ho.
  unfold parse_stored_items, loads. rewrite Hl.
  unfold action_items_payload.
  cbn [rbind py_iter].
  rewrite <- (map_map
                (fun item =>
                   [ ("task" : str, PStr (ActionItem.task item));
                     ("owner" : str, opt_pyval (ActionItem.owner item));
                     ("due_date" : str,
                      opt_pyval (ActionItem.due_date item));
                     ("status" : str,
                      PStr (or_str (ActionItem.status item) "open")) ])
                PDict).
  rewrite traverse_item_dict. cbn [try_except].
  rewrite map_map. apply map_ext. intros item. reflexivity.
Qed.

(** The client's replacement of the action items, seen through the API,
    when [json.loads] gives back the value that was written: the dict
    returned lists the items of the payload, each with its task, its owner
    and its due date, and with [open] in the place of an absent or empty
    status; and the dict is the one a read returns afterwards. *)
Theorem action_items_round_trip
  (meeting_id : str) (items : list ActionItem.t)
  (authorization : option str) (w : World) (d : MeetingDict.t) :
  fst (update_meeting_action_items meeting_id items authorization w)
  = Ok d ->
  json_loads (json_dumps (action_items_payload items))
  = Some (action_items_payload items) ->
  let w' := snd (update_meeting_action_items meeting_id items authorization
                   w) in
  MeetingDict.action_items d = map item_dict_of items
  /\ get_meeting meeting_id authorization w' = (Ok d, w').
Proof.
  unfold update_meeting_action_items, bind, current_user.
  destruct (_get_current_user_from_header authorization (users w))
    as [user|e] eqn:Eu; [|discriminate].
  destruct (meeting_or_404_cases meeting_id user w)
    as [(meeting & Hf & _ & _ & _ & ->)|(_ & ->)]; [|discriminate].
  rewrite db_update_rows. cbn [fst snd ret]. intros [= <-] Hl.
  split.
  - apply stored_items_read_back. exact Hl.
  - apply (get_meeting_after_update _ _ _ user meeting);
      try assumption; reflexivity.
Qed.

(** The extraction run again on a stored meeting of the user.  A meeting
    without transcript, or with a blank one, is refused with a 400 before
    anything is sent.  When the extraction raises, the exception is the
    handler's and the table is as it was: the stored items are kept.
    When it returns items, they replace the stored ones, and the dict
    returned is the one a read returns afterwards. *)
Theorem reextraction_outcomes
  (meeting_id : str) (authorization x_llm_api_key : option str) (w : World)
  (user : User.t) (meeting : Meeting.t) :
  _get_current_user_from_header authorization (users w) = Ok user ->
  List.find (found_by meeting_id user) (meetings w) = Some meeting ->
  let transcript := or_str (Meeting.transcript meeting) [] in
  let run := extract_action_items_endpoint cfg meeting_id authorization
               x_llm_api_key w in
  let extraction := extract_action_items_via_llama cfg transcript
                      x_llm_api_key w in
  (strip transcript = [] ->
   run = (Raise (HTTPException 400
                   "No transcript available to extract action items from."),
          w))
  /\ (strip transcript <> [] ->
      (forall e, fst extraction = Raise e ->
         run = (Raise e, snd extraction)
         /\ meetings (snd run) = meetings w)
      /\ (forall items, fst extraction = Ok items ->
            let meeting' :=
              with_action_items meeting
                (json_dumps (action_items_payload items)) in
            fst run = Ok (meeting_to_dict meeting')
            /\ get_meeting meeting_id authorization (snd run)
               = (Ok (meeting_to_dict meeting'), snd run)
            /\ sent (snd run) = sent (snd extraction))).
Proof.
  intros Hu Hf transcript run extraction. subst run.
  unfold extract_action_items_endpoint, bind, current_user.
  rewrite Hu, (meeting_or_404_found _ _ _ _ Hf).
  fold transcript. split.
  - intros Hs. rewrite Hs. cbn [truthy_opt].
    destruct (truthy_opt (Meeting.transcript meeting)); reflexivity.
  - intros Hs.
    assert (Ht : truthy_opt (Meeting.transcript meeting) = true).
    { subst transcript.
      destruct (Meeting.transcript meeting) as [[|c s]|];
        try reflexivity; exfalso; apply Hs; apply strip_nil. }
    rewrite Ht.
    destruct (strip transcript) as [|c s] eqn:Es; [congruence|].
    cbn [truthy_opt negb orb].
    pose proof (extract_only_sent cfg transcript x_llm_api_key w) as Hframe.
    fold extraction. fold extraction in Hframe.
    destruct extraction as [[items|e] w1]; cbn [fst snd] in *.
    + split; [discriminate|]. intros items' [= <-].
      rewrite db_update_rows. cbn [fst snd ret]. cbv zeta.
      split; [reflexivity|]. split; [|reflexivity].
      rewrite (only_sent_meetings _ _ Hframe).
      pose proof (get_meeting_after_update meeting_id authorization w1 user
                    meeting
                    (with_action_items meeting
                       (json_dumps (action_items_payload items)))) as Hg.
      rewrite (only_sent_users _ _ Hframe) in Hg.
      rewrite (only_sent_meetings _ _ Hframe) in Hg.
      apply Hg; try assumption; reflexivity.
    + split; [|discriminate]. intros e' [= <-].
      split; [reflexivity|]. apply (only_sent_meetings _ _ Hframe).
Qed.

(** A smart summary reads and never writes: whatever the mode and the
    reply, the handler only adds to the log of requests.  A meeting with
    neither transcript nor summary is refused with a 400 before anything
    is sent.  Every request it sends is a chat request whose prompt is
    built from a row of the user with the id asked for.  The mode is read
    without regard to the case of its letters. *)
Theorem smart_summary_guard
  (meeting_id : str) (payload : SmartSummaryRequest.t)
  (authorization x_llm_api_key : option str) (w : World) :
  let run := smart_summary_endpoint cfg meeting_id payload authorization
               x_llm_api_key w in
  only_sent w (snd run)
  /\ (forall user meeting,
        _get_current_user_from_header authorization (users w) = Ok user ->
        List.find (found_by meeting_id user) (meetings w) = Some meeting ->
        truthy_opt (Meeting.transcript meeting) = false ->
        truthy_opt (Meeting.summary meeting) = false ->
        run = (Raise (HTTPException 400
                        "No content available for this meeting yet."), w))
  /\ (forall req, In req (sent (snd run)) ->
        In req (sent w)
        \/ exists user meeting,
             _get_current_user_from_header authorization (users w) = Ok user
             /\ row_of user w meeting
             /\ Meeting.id meeting = meeting_id
             /\ body req
                = ChatBody (LLM_MODEL_NAME cfg)
                    (smart_prompt meeting (SmartSummaryRequest.mode payload)
                       (SmartSummaryRequest.persona_name payload)))
  /\ smart_summary_endpoint cfg meeting_id
       (SmartSummaryRequest.mk (lower (SmartSummaryRequest.mode payload))
          (SmartSummaryRequest.persona_name payload))
       authorization x_llm_api_key w
     = run.
Proof.
  cbv zeta. unfold smart_summary_endpoint, bind, current_user.
  cbn [SmartSummaryRequest.mode SmartSummaryRequest.persona_name].
  destruct (_get_current_user_from_header authorization (users w))
    as [user|e] eqn:Eu.
  2:{ split; [apply only_sent_refl|]. split; [discriminate|].
      split; [|reflexivity]. intros req H. left. exact H. }
  destruct (meeting_or_404_cases meeting_id user w)
    as [(meeting & Hf & Hin & Hid & Hown & ->)|(Hnone & ->)].
  2:{ split; [apply only_sent_refl|]. split.
      - intros user' meeting' [= <-] Hf'. congruence.
      - split; [|reflexivity]. intros req H. left. exact H. }
  destruct (negb (truthy_opt (Meeting.transcript meeting))
            && negb (truthy_opt (Meeting.summary meeting))) eqn:Eg.
  - split; [apply only_sent_refl|]. split; [reflexivity|].
    split; [|reflexivity]. intros req H. left. exact H.
  - unfold generate_smart_summary.
    set (prompt := smart_prompt meeting (SmartSummaryRequest.mode payload)
                     (SmartSummaryRequest.persona_name payload)).
    split; [apply ollama_chat_only_sent|]. split; [|split].
    + intros user' meeting' [= <-] Hf' Ht Hs.
      rewrite Hf in Hf'. injection Hf' as <-.
      rewrite Ht, Hs in Eg. discriminate.
    + intros req H.
      destruct (ollama_chat_sent_at_most cfg prompt x_llm_api_key w)
        as (more & Hw & Hmore).
      rewrite Hw in H. simpl in H. apply in_app_iff in H.
      destruct Hmore as [->| ->]; destruct H as [H|H];
        try (left; exact H); try contradiction.
      destruct H as [<-|[]].
      right. exists user, meeting. split; [reflexivity|].
      split; [split; assumption|]. split; [exact Hid|reflexivity].
    + unfold prompt, smart_prompt. rewrite lower_idem. reflexivity.
Qed.

End StoredMeetings.

Definition noted_items : list ActionItem.t :=
  [ActionItem.mk "Send the notes" (Some ("Bob" : str)) None None].

Definition noted : MeetingDict.t :=
  meeting_to_dict
    (with_action_items stored_meeting
       (json_dumps (action_items_payload noted_items))).

(** One item without status, stored for the meeting of the example
    calendar and read back. *)
Lemma action_items_round_trip_witness :
  let w' := snd (update_meeting_action_items "m1" noted_items alice_header
                   calendar_world) in
  MeetingDict.action_items noted
  = [ItemDict.mk (PStr "Send the notes") (PStr "Bob") PNone (PStr "open")]
  /\ get_meeting "m1" alice_header w' = (Ok noted, w').
Proof.
  apply (action_items_round_trip "m1" noted_items alice_header
           calendar_world noted).
  - vm_compute. reflexivity.
  - vm_compute. reflexivity.
Defined.

(** The extraction run again on the meeting of the example calendar: the
    item of the reply replaces the stored one. *)
Lemma reextraction_outcomes_witness :
  fst (extract_action_items_endpoint example_cfg "m1" alice_header
         example_key calendar_world)
  = Ok (meeting_to_dict
          (with_action_items stored_meeting
             (json_dumps
                (action_items_payload
                   [ActionItem.mk "Prepare the deck" (Some ("Alice" : str))
                      (Some ("2024-01-17" : str)) (Some ("open" : str))])))).
Proof.
  destruct (reextraction_outcomes example_cfg "m1" alice_header example_key
              calendar_world example_user stored_meeting)
    as (_ & H).
  - vm_compute. reflexivity.
  - vm_compute. reflexivity.
  - destruct H as (_ & H).
    + vm_compute. discriminate.
    + destruct (H [ActionItem.mk "Prepare the deck" (Some ("Alice" : str))
                     (Some ("2024-01-17" : str)) (Some ("open" : str))])
        as (H1 & _).
      * vm_compute. reflexivity.
      * exact H1.
Defined.

(** ** Deleting a meeting *)

Lemma read_file_removed (path : str) (d : list (str * str)) :
  read_file path (remove_file path d) = None.
Proof.
  induction d as [|[p content] d IH]; simpl; [reflexivity|].
  destruct (str_eqb path p) eqn:E; simpl; [exact IH|].
  rewrite E. exact IH.
Qed.

Lemma read_file_remove_other (p path : str) (d : list (str * str)) :
  p <> path -> read_file p (remove_file path d) = read_file p d.
Proof.
  intros Hp. induction d as [|[q content] d IH]; simpl; [reflexivity|].
  destruct (str_eqb path q) eqn:E; simpl.
  - apply str_eqb_eq in E. subst q.
    destruct (str_eqb p path) eqn:E2; [|exact IH].
    apply str_eqb_eq in E2. contradiction.
  - rewrite IH. reflexivity.
Qed.

Lemma filter_fresh_row (meeting_id : str) (m : Meeting.t)
  (l : list Meeting.t) :
  Forall (fun x => Meeting.id x <> meeting_id) l ->
  Meeting.id m = meeting_id ->
  filter (fun x => negb (str_eqb (Meeting.id x) (Meeting.id m))) (l ++ [m])
  = l.
Proof.
  intros Hl Hm. rewrite Hm. induction Hl as [|x l Hx _ IH]; simpl.
  - rewrite Hm, str_eqb_refl. reflexivity.
  - destruct (str_eqb (Meeting.id x) meeting_id) eqn:E.
    + apply str_eqb_eq in E. contradiction.
    + simpl. rewrite IH. reflexivity.
Qed.

Lemma find_no_row (meeting_id : str) (user : User.t) (l : list Meeting.t) :
  Forall (fun x => Meeting.id x <> meeting_id) l ->
  List.find (found_by meeting_id user) l = None.
Proof.
  induction 1 as [|x l Hx _ IH]; simpl; [reflexivity|].
  unfold found_by at 1.
  destruct (str_eqb (Meeting.id x) meeting_id) eqn:E.
  - apply str_eqb_eq in E. contradiction.
  - simpl. exact IH.
Qed.

Lemma startswith_slash_app (u s : str) :
  startswith u "/" = false -> startswith s "/" = false ->
  startswith (u ++ s) "/" = false.
Proof.
  intros Hu Hs. destruct u as [|c u]; [exact Hs|exact Hu].
Qed.

Lemma path_join_relative (a f : str) :
  a <> [] -> startswith (rev a) "/" = false -> startswith f "/" = false ->
  path_join a f = a ++ "/" ++ f.
Proof.
  intros Ha Hr Hf. unfold path_join. rewrite Hf, Hr.
  destruct a; [congruence|reflexivity].
Qed.

(** [os.path.join] of three parts, the middle one being [audio]. *)
Lemma path_join_audio (base f : str) :
  startswith f "/" = false ->
  path_join (path_join base "audio") f
  = path_join base (path_join "audio" f).
Proof.
  intros Hf.
  rewrite (path_join_relative "audio" f); [|discriminate|reflexivity|exact Hf].
  unfold path_join at 2 3.
  change (startswith ("audio" ++ "/" ++ f) "/") with false.
  change (startswith ("audio" : str) "/") with false. cbv iota.
  destruct base as [|b base].
  - apply path_join_relative; [discriminate|reflexivity|exact Hf].
  - destruct (startswith (rev (b :: base)) "/") eqn:Eb.
    + rewrite path_join_relative; [|discriminate| |exact Hf].
      * rewrite <- app_assoc. reflexivity.
      * rewrite rev_app_distr. reflexivity.
    + rewrite path_join_relative; [|discriminate| |exact Hf].
      * rewrite <- !app_assoc. reflexivity.
      * rewrite !rev_app_distr. reflexivity.
Qed.

Section Deletion.

Context `{PL : PyLib}.
Variable cfg : Config.
Variable BASE_DIR : str.
Variable unlinkable : str -> bool.

(** The world a successful ingestion leaves: the file was written, the
    header authenticates a user, and the row of the upload is the one row
    added. *)
Lemma ingestion_world
  (title : str) (folder_id start_time end_time calendar_event_id : option str)
  (audio : str) (authorization x_llm_api_key : option str)
  (w : World) (d : MeetingDict.t) :
  fst (create_meeting_with_audio cfg title folder_id start_time end_time
         calendar_event_id audio authorization x_llm_api_key w) = Ok d ->
  exists user transcript summary items l,
    let m := ingested title folder_id start_time end_time calendar_event_id
               w user transcript summary
               (json_dumps (action_items_payload items)) in
    _get_current_user_from_header authorization (users w) = Ok user
    /\ create_meeting_with_audio cfg title folder_id start_time end_time
         calendar_event_id audio authorization x_llm_api_key w
       = (Ok (meeting_to_dict m),
          set_meetings (set_sent (uploaded cfg audio w) l)
            (meetings w ++ [m])).
Proof.
  intros Hok.
  destruct (writable w (upload_path cfg w)) eqn:Hw.
  2:{ rewrite (create_meeting_with_audio_unwritable cfg) in Hok by exact Hw.
      discriminate. }
  destruct (enrich_total cfg (upload_path cfg w) x_llm_api_key
              (uploaded cfg audio w))
    as (transcript & summary & items & w1 & He & _).
  destruct (_get_current_user_from_header authorization (users w))
    as [user|e] eqn:Hu.
  2:{ rewrite (create_meeting_with_audio_unauthenticated cfg title folder_id
                 start_time end_time calendar_event_id audio authorization
                 x_llm_api_key w w1 e transcript summary items Hw He Hu)
        in Hok.
      discriminate. }
  pose proof (enrich_only_sent cfg (upload_path cfg w) x_llm_api_key
                (uploaded cfg audio w)) as Hf.
  rewrite He in Hf. simpl in Hf. destruct Hf as [l ->].
  pose proof (create_meeting_with_audio_run cfg title folder_id start_time
                end_time calendar_event_id audio authorization x_llm_api_key
                w _ user transcript summary items Hw He Hu) as Hrun.
  cbv zeta in Hrun. rewrite Hrun in Hok.
  destruct (bindable summary); [|discriminate].
  exists user, transcript, summary, items, l. cbv zeta.
  split; [reflexivity|exact Hrun].
Qed.

(** A successful ingestion followed by the deletion of the meeting, by
    the same user, when no row had the identifier of the upload, the audio
    directory is [audio] under [BASE_DIR] and the identifier does not
    begin with a slash.  The deletion succeeds, the table is what it was
    before the ingestion and a read gets the 404.  The file the deletion
    looks for is the file the ingestion wrote: when the system lets it be
    unlinked the file is gone and the other files are as they were, and
    when it does not the error is swallowed and the disk is left as it
    was. *)
Theorem ingest_then_delete
  (title : str) (folder_id start_time end_time calendar_event_id : option str)
  (audio : str) (authorization x_llm_api_key : option str)
  (w : World) (d : MeetingDict.t) :
  let ingestion := create_meeting_with_audio cfg title folder_id start_time
                     end_time calendar_event_id audio authorization
                     x_llm_api_key w in
  let w1 := snd ingestion in
  let run := delete_meeting BASE_DIR unlinkable (upload_id w) authorization
               w1 in
  fst ingestion = Ok d ->
  Forall (fun m => Meeting.id m <> upload_id w) (meetings w) ->
  AUDIO_DIR cfg = path_join BASE_DIR "audio" ->
  startswith (upload_id w) "/" = false ->
  fst run = Ok (PDict [("ok" : str, PBool true)])
  /\ meetings (snd run) = meetings w
  /\ get_meeting (upload_id w) authorization (snd run)
     = (Raise (HTTPException 404 "Meeting not found"), snd run)
  /\ (unlinkable (upload_path cfg w) = true ->
      read_file (upload_path cfg w) (disk (snd run)) = None
      /\ forall p, p <> upload_path cfg w ->
           read_file p (disk (snd run)) = read_file p (disk w))
  /\ (unlinkable (upload_path cfg w) = false -> disk (snd run) = disk w1).
Proof.
  intros ingestion w1 run Hok Hfresh Hdir Hid.
  destruct (ingestion_world title folder_id start_time end_time
              calendar_event_id audio authorization x_llm_api_key w d Hok)
    as (user & transcript & summary & items & l & Hu & Hrun).
  cbv zeta in Hrun. subst run w1 ingestion. rewrite Hrun. cbn [snd].
  set (m := ingested title folder_id start_time end_time calendar_event_id
              w user transcript summary
              (json_dumps (action_items_payload items))).
  set (w1 := set_meetings (set_sent (uploaded cfg audio w) l)
               (meetings w ++ [m])).
  assert (Hname : startswith (upload_filename w) "/" = false)
    by (apply startswith_slash_app; [exact Hid|reflexivity]).
  assert (Hown : found_by (upload_id w) user m = true).
  { unfold found_by, owned_by. simpl. rewrite !str_eqb_refl. reflexivity. }
  assert (Hfound : List.find (found_by (upload_id w) user) (meetings w1)
                   = Some m).
  { unfold w1. cbn [meetings set_meetings].
    rewrite (find_fresh_row _ _ _ _ Hfresh), Hown. reflexivity. }
  assert (Hpath : Meeting.audio_path m
                  = Some ("audio" ++ "/" ++ upload_filename w)).
  { unfold m, ingested. cbn [Meeting.audio_path].
    rewrite (path_join_relative "audio");
      [reflexivity|discriminate|reflexivity|exact Hname]. }
  assert (Hfile : path_join BASE_DIR ("audio" ++ "/" ++ upload_filename w)
                  = upload_path cfg w).
  { unfold upload_path. rewrite Hdir, path_join_audio by exact Hname.
    rewrite (path_join_relative "audio");
      [reflexivity|discriminate|reflexivity|exact Hname]. }
  assert (Hread : read_file (upload_path cfg w) (disk w1) = Some audio).
  { unfold w1, uploaded. cbn [disk set_meetings set_sent set_disk].
    simpl read_file. rewrite str_eqb_refl. reflexivity. }
  unfold delete_meeting, bind, current_user.
  change (users w1) with (users w). rewrite Hu.
  rewrite (meeting_or_404_found _ _ _ _ Hfound), Hpath.
  change ("audio" ++ "/" ++ upload_filename w)
    with (97%N :: ("udio" ++ "/" ++ upload_filename w)).
  cbv iota beta zeta.
  change (97%N :: ("udio" ++ "/" ++ upload_filename w))
    with ("audio" ++ "/" ++ upload_filename w).
  rewrite Hfile, Hread. unfold catch, os_remove, db_delete, ret.
  destruct (unlinkable (upload_path cfg w)) eqn:Eun;
    cbn [fst snd meetings set_meetings set_disk disk];
    (split; [reflexivity|]);
    (split; [unfold w1; cbn [meetings set_meetings];
             apply (filter_fresh_row (upload_id w)); [exact Hfresh|reflexivity]|]);
    (split;
     [unfold get_meeting, bind, current_user;
      cbn [users set_meetings set_disk];
      change (users w1) with (users w); rewrite Hu;
      rewrite meeting_or_404_missing; [reflexivity|];
      cbn [meetings set_meetings]; unfold w1; cbn [meetings set_meetings];
      rewrite (filter_fresh_row (upload_id w) m _ Hfresh eq_refl);
      apply find_no_row; exact Hfresh|]).
  - split; [|discriminate]. intros _. split.
    + apply read_file_removed.
    + intros p Hp. rewrite read_file_remove_other by exact Hp.
      unfold w1, uploaded. cbn [disk set_meetings set_sent set_disk].
      simpl read_file.
      destruct (str_eqb p (upload_path cfg w)) eqn:E; [|reflexivity].
      apply str_eqb_eq in E. contradiction.
  - split; [discriminate|]. intros _. reflexivity.
Qed.

End Deletion.

(** The upload of the example user, ingested with a key and deleted
    again. *)
Lemma ingest_then_delete_witness :
  let ingestion := create_meeting_with_audio example_cfg "Standup" None None
                     None None riff alice_header example_key example_world in
  let w1 := snd ingestion in
  let run := delete_meeting "/srv" (fun _ => true) (upload_id example_world)
               alice_header w1 in
  fst ingestion = Ok standup_dict
  /\ fst run = Ok (PDict [("ok" : str, PBool true)])
  /\ meetings (snd run) = meetings example_world
  /\ get_meeting (upload_id example_world) alice_header (snd run)
     = (Raise (HTTPException 404 "Meeting not found"), snd run)
  /\ (true = true ->
      read_file (upload_path example_cfg example_world) (disk (snd run))
      = None
      /\ forall p, p <> upload_path example_cfg example_world ->
           read_file p (disk (snd run)) = read_file p (disk example_world))
  /\ (true = false -> disk (snd run) = disk w1).
Proof.
  split; [vm_compute; reflexivity|].
  apply (ingest_then_delete example_cfg "/srv" (fun _ => true) "Standup"
           None None None None riff alice_header example_key example_world
           standup_dict).
  - vm_compute. reflexivity.
  - constructor.
  - reflexivity.
  - vm_compute. reflexivity.
Defined.

(** ** The listing *)

(** A list of meetings in which no meeting was created after one that
    precedes it. *)
Fixpoint newest_first (l : list Meeting.t) : Prop :=
  match l with
  | [] => True
  | x :: r =>
      Forall (fun y => datetime_leb (Meeting.created_at y)
                         (Meeting.created_at x) = true) r
      /\ newest_first r
  end.

Lemma insert_desc_newest_first (m : Meeting.t) (l : list Meeting.t) :
  newest_first l -> newest_first (insert_desc m l).
Proof.
  induction l as [|x l IH]; simpl.
  - intros _. split; [constructor|exact I].
  - intros [Hx Hl].
    destruct (datetime_leb (Meeting.created_at m) (Meeting.created_at x))
      eqn:E.
    + simpl. split; [|apply IH; exact Hl].
      apply Forall_forall. intros y Hy. apply insert_desc_in in Hy.
      destruct Hy as [->|Hy]; [exact E|].
      exact (proj1 (Forall_forall _ _) Hx y Hy).
    + simpl. split; [|split; assumption].
      unfold datetime_leb in *. apply Z.leb_gt in E.
      constructor; [apply Z.leb_le; lia|].
      apply Forall_forall. intros y Hy.
      pose proof (proj1 (Forall_forall _ _) Hx y Hy) as H.
      apply Z.leb_le in H. apply Z.leb_le. lia.
Qed.

Lemma order_desc_newest_first (l : list Meeting.t) :
  newest_first (order_desc l).
Proof.
  induction l as [|x l IH]; simpl; [exact I|].
  apply insert_desc_newest_first. exact IH.
Qed.

Section Listing.

Context `{PL : PyLib}.

(** The listing of the meetings gives the dicts of rows of the table,
    newest first: exactly the rows that belong to the user the header
    authenticates, that are in the folder asked for when one is asked
    for, and that are favorites when only the favorites are asked for.
    It changes nothing. *)
Theorem list_meetings_scope
  (folder_id : option str) (favorites_only : bool)
  (authorization : option str) (w : World) (l : list MeetingDict.t) :
  fst (list_meetings folder_id favorites_only authorization w) = Ok l ->
  snd (list_meetings folder_id favorites_only authorization w) = w
  /\ exists user rows,
       _get_current_user_from_header authorization (users w) = Ok user
       /\ l = map meeting_to_dict rows
       /\ newest_first rows
       /\ forall m,
            In m rows
            <-> (In m (meetings w)
                 /\ owned_by user m = true
                 /\ (forall f, folder_id = Some f ->
                       Meeting.folder_id m = Some f)
                 /\ (favorites_only = true ->
                     Meeting.is_favorite m = Some true)).
Proof.
  unfold list_meetings, bind, current_user.
  destruct (_get_current_user_from_header authorization (users w))
    as [user|e]; [|discriminate].
  cbn [fst snd]. intros [= <-]. split; [reflexivity|].
  eexists user, _. split; [reflexivity|]. split; [reflexivity|].
  split; [apply order_desc_newest_first|].
  intros m. rewrite order_desc_in, filter_In. split.
  - intros [Hin Hp].
    apply andb_true_iff in Hp. destruct Hp as [Hp Hfav].
    apply andb_true_iff in Hp. destruct Hp as [Hown Hfold].
    repeat split; try assumption.
    + intros f ->. unfold in_folder in Hfold.
      destruct (Meeting.folder_id m) as [g|]; [|discriminate].
      apply str_eqb_eq in Hfold. congruence.
    + intros ->. unfold is_favorite_true in Hfav. simpl in Hfav.
      destruct (Meeting.is_favorite m) as [[|]|];
        [reflexivity|discriminate|discriminate].
  - intros (Hin & Hown & Hfold & Hfav). split; [exact Hin|].
    rewrite Hown. cbn [andb]. apply andb_true_iff. split.
    + unfold in_folder. destruct folder_id as [f|]; [|reflexivity].
      rewrite (Hfold f eq_refl). apply str_eqb_refl.
    + destruct favorites_only; [|reflexivity].
      unfold is_favorite_true. rewrite (Hfav eq_refl). reflexivity.
Qed.

End Listing.

(** The listing of the example calendar for its user. *)
Lemma list_meetings_scope_witness :
  snd (list_meetings None false alice_header calendar_world) = calendar_world
  /\ exists user rows,
       _get_current_user_from_header alice_header (users calendar_world)
       = Ok user
       /\ [meeting_to_dict stored_meeting] = map meeting_to_dict rows
       /\ newest_first rows
       /\ forall m,
            In m rows
            <-> (In m (meetings calendar_world)
                 /\ owned_by user m = true
                 /\ (forall f, @None str = Some f ->
                       Meeting.folder_id m = Some f)
                 /\ (false = true -> Meeting.is_favorite m = Some true)).
Proof.
  apply (list_meetings_scope None false alice_header calendar_world
           [meeting_to_dict stored_meeting]).
  vm_compute. reflexivity.
Defined.

(** ** What an ingestion sends *)

Lemma startswith_absent (f : str) :
  ~ In 47%N f -> startswith f "/" = false.
Proof.
  intros H. destruct f as [|c f]; [reflexivity|].
  change (startswith (c :: f) "/") with (N.eqb 47%N c && true).
  destruct (N.eqb_spec 47%N c) as [<-|Hc]; [|reflexivity].
  exfalso. apply H. left. reflexivity.
Qed.

Lemma skipn_past (a : str) (c : char) (f : str) :
  skipn (Z.to_nat (len a + 1)) (a ++ c :: f) = f.
Proof.
  replace (Z.to_nat (len a + 1)) with (length a + 1)%nat
    by (unfold len; lia).
  rewrite skipn_app.
  replace (length a + 1 - length a)%nat with 1%nat by lia.
  rewrite skipn_all2 by lia. reflexivity.
Qed.

(** [os.path.basename(os.path.join(dir, f))] for a name without slash. *)
Lemma basename_join (dir f : str) :
  ~ In 47%N f -> basename (path_join dir f) = f.
Proof.
  intros Hf. unfold path_join. rewrite (startswith_absent f Hf).
  unfold basename, rfind. change ("/" : str) with [47%N].
  destruct dir as [|d dir].
  - rewrite rfind_from_absent by exact Hf. reflexivity.
  - destruct (startswith (rev (d :: dir)) [47%N]) eqn:E.
    + destruct (rev (d :: dir)) as [|x r] eqn:Er; [discriminate|].
      change (startswith (x :: r) [47%N]) with (N.eqb 47%N x && true) in E.
      apply andb_true_iff in E. destruct E as [E _].
      apply N.eqb_eq in E. subst x.
      assert (Hd : d :: dir = rev r ++ [47%N]).
      { rewrite <- (rev_involutive (d :: dir)), Er. reflexivity. }
      rewrite Hd, <- app_assoc. simpl app.
      rewrite rfind_from_char by (try lia; exact Hf).
      rewrite Z.add_0_l. apply skipn_past.
    + simpl app.
      change (d :: dir ++ 47%N :: f) with ((d :: dir) ++ 47%N :: f).
      rewrite rfind_from_char by (try lia; exact Hf).
      rewrite Z.add_0_l. apply skipn_past.
Qed.

Section IngestionRequests.

Context `{PL : PyLib}.
Variable cfg : Config.

(** A chat request under the key resolved from [key]. *)
Definition chat_with (key : option str) (r : http_request) : Prop :=
  exists prompt, r = chat_request cfg (resolve_key cfg key) prompt.

Lemma chat_more (prompt : str) (api_key : option str) (w : World) :
  exists more,
    sent_more more w (snd (ollama_chat cfg prompt api_key w))
    /\ (length more <= 1)%nat
    /\ Forall (chat_with api_key) more.
Proof.
  destruct (ollama_chat_sent_at_most cfg prompt api_key w)
    as (more & Hw & [->| ->]).
  - exists []. split; [exact Hw|]. split; [simpl; lia|constructor].
  - eexists. split; [exact Hw|]. split; [simpl; lia|].
    constructor; [|constructor]. exists prompt. reflexivity.
Qed.

Lemma extract_more (transcript : str) (api_key : option str) (w : World) :
  exists more,
    sent_more more w
      (snd (extract_action_items_via_llama cfg transcript api_key w))
    /\ (length more <= 1)%nat
    /\ Forall (chat_with api_key) more.
Proof.
  destruct (chat_more (action_items_prompt transcript) api_key w)
    as (more & Hm & Hl).
  exists more. split; [|exact Hl].
  unfold extract_action_items_via_llama, bind.
  destruct (ollama_chat cfg (action_items_prompt transcript) api_key w)
    as [[raw|e] w']; exact Hm.
Qed.

(** The requests of the enrichment of a stored upload, with a key: the
    transcription request first, when the client can build it, then at
    most two chat requests; nothing at all when it cannot. *)
Lemma enrich_sent
  (audio_path : str) (key : option str) (w : World) (content : str) :
  resolve_key cfg key <> [] ->
  read_file audio_path (disk w) = Some content ->
  let req := audio_request cfg (resolve_key cfg key) audio_path content in
  (request_error req = None ->
   exists rest,
     sent_more (req :: rest) w (snd (enrich cfg audio_path key w))
     /\ (length rest <= 2)%nat
     /\ Forall (chat_with key) rest)
  /\ (request_error req <> None -> snd (enrich cfg audio_path key w) = w).
Proof.
  intros Hk Hr req. subst req.
  destruct (transcribe_audio_sent cfg audio_path key w)
    as [(_ & [H|H])|[(content' & message & _ & Hr' & Hq & Hrun)
                    |(content' & _ & Hr' & Hq & Hs)]];
    try congruence;
    assert (content' = content) by congruence; subst content'.
  - split; [intros Hn; congruence|]. intros _.
    unfold enrich, catch, bind. rewrite Hrun. reflexivity.
  - split; [intros _|intros Hn; congruence].
    unfold enrich, catch, bind, gather.
    destruct (transcribe_audio cfg audio_path key w) as [[transcript|e] w1];
      cbn [snd] in Hs.
    + destruct (chat_more
                  ("You are an expert meeting summarizer. "
                   ++ "Given the following transcript, produce a clear, concise summary in markdown. "
                   ++ "Focus on key decisions, topics discussed, and outcomes."
                   ++ nl ++ nl ++ "Transcript:" ++ nl ++ transcript)
                  key w1) as (m1 & H1 & L1 & F1).
      change (ollama_chat cfg _ key w1)
        with (generate_summary cfg transcript key w1) in H1.
      destruct (generate_summary cfg transcript key w1) as [rs w2].
      cbn [snd] in H1.
      destruct (extract_more transcript key w2) as (m2 & H2 & L2 & F2).
      destruct (extract_action_items_via_llama cfg transcript key w2)
        as [rx w3].
      cbn [snd] in H2.
      exists (m1 ++ m2). split; [|split].
      * assert (H3 : sent_more ([audio_request cfg (resolve_key cfg key)
                                   audio_path content] ++ m1 ++ m2) w w3).
        { eapply sent_more_trans; [exact Hs|].
          eapply sent_more_trans; eassumption. }
        destruct rs, rx; exact H3.
      * rewrite length_app. lia.
      * apply Forall_app. split; assumption.
    + exists []. split; [exact Hs|]. split; [simpl; lia|constructor].
Qed.

(** With a usable key, the first request of an ingestion is the
    transcription request for the uploaded bytes, under the file name of
    the upload, and what follows it is at most two requests, each of them
    a chat request under the same key.  When the client cannot build the
    transcription request, the ingestion sends nothing.  This holds for
    every stored upload whose identifier has no slash, whether or not
    the header authenticates a user: the requests are sent before the
    header is looked at. *)
Theorem ingestion_transcribes_upload
  (title : str) (folder_id start_time end_time calendar_event_id : option str)
  (audio : str) (authorization x_llm_api_key : option str) (w : World) :
  writable w (upload_path cfg w) = true ->
  resolve_key cfg x_llm_api_key <> [] ->
  ~ In 47%N (upload_id w) ->
  let run := create_meeting_with_audio cfg title folder_id start_time
               end_time calendar_event_id audio authorization
               x_llm_api_key w in
  let req := {| url := rstrip_char 47%N (LLM_API_BASE cfg)
                       ++ "/audio/transcriptions";
                authorization_header :=
                  "Bearer " ++ resolve_key cfg x_llm_api_key;
                body := AudioBody (STT_MODEL_NAME cfg) (upload_filename w)
                          audio |} in
  (request_error req = None ->
   exists rest,
     sent (snd run) = sent w ++ req :: rest
     /\ (length rest <= 2)%nat
     /\ Forall (fun r =>
                  exists prompt,
                    r = chat_request cfg (resolve_key cfg x_llm_api_key)
                          prompt) rest)
  /\ (request_error req <> None -> sent (snd run) = sent w).
Proof.
  intros Hw Hk Hid run req.
  assert (Hname : basename (upload_path cfg w) = upload_filename w).
  { apply basename_join. unfold upload_filename. intros H.
    apply in_app_iff in H. destruct H as [H|H]; [contradiction|].
    vm_compute in H. intuition discriminate. }
  assert (Hreq : audio_request cfg (resolve_key cfg x_llm_api_key)
                   (upload_path cfg w) audio = req).
  { unfold audio_request, req. rewrite Hname. reflexivity. }
  destruct (enrich_total cfg (upload_path cfg w) x_llm_api_key
              (uploaded cfg audio w))
    as (transcript & summary & items & w1 & He & _).
  assert (Hsent : sent (snd run) = sent w1).
  { subst run.
    destruct (_get_current_user_from_header authorization (users w))
      as [user|e] eqn:Hu.
    - pose proof (create_meeting_with_audio_run cfg title folder_id
                    start_time end_time calendar_event_id audio
                    authorization x_llm_api_key w w1 user transcript
                    summary items Hw He Hu) as Hrun.
      cbv zeta in Hrun. rewrite Hrun.
      destruct (bindable summary); reflexivity.
    - rewrite (create_meeting_with_audio_unauthenticated cfg title
                 folder_id start_time end_time calendar_event_id audio
                 authorization x_llm_api_key w w1 e transcript summary
                 items Hw He Hu).
      reflexivity. }
  destruct (enrich_sent (upload_path cfg w) x_llm_api_key
              (uploaded cfg audio w) audio Hk)
    as (Hsome & Hnone).
  { unfold uploaded. cbn [disk set_disk]. simpl read_file.
    rewrite str_eqb_refl. reflexivity. }
  rewrite Hreq, He in Hsome, Hnone. cbn [snd] in Hsome, Hnone.
  split.
  - intros Hq. destruct (Hsome Hq) as (rest & Hs & Hl & Hf).
    exists rest. split; [|split; [exact Hl|exact Hf]].
    rewrite Hsent, Hs. reflexivity.
  - intros Hq. rewrite Hsent, (Hnone Hq). reflexivity.
Qed.

End IngestionRequests.

(** The upload of the example world with the example key: the
    transcription request and the two chat requests. *)
Lemma ingestion_transcribes_upload_witness :
  let run := create_meeting_with_audio example_cfg "Standup" None None
               None None riff None example_key example_world in
  let req := {| url := rstrip_char 47%N (LLM_API_BASE example_cfg)
                       ++ "/audio/transcriptions";
                authorization_header :=
                  "Bearer " ++ resolve_key example_cfg example_key;
                body := AudioBody (STT_MODEL_NAME example_cfg)
                          (upload_filename example_world) riff |} in
  length (sent (snd run)) = 3%nat
  /\ exists rest,
       sent (snd run) = sent example_world ++ req :: rest
       /\ (length rest <= 2)%nat
       /\ Forall (fun r =>
                    exists prompt,
                      r = chat_request example_cfg
                            (resolve_key example_cfg example_key) prompt)
                 rest.
Proof.
  split; [vm_compute; reflexivity|].
  apply (ingestion_transcribes_upload example_cfg "Standup" None None None
           None riff None example_key example_world).
  - reflexivity.
  - vm_compute. discriminate.
  - vm_compute. intuition discriminate.
  - vm_compute. reflexivity.
Defined.

(** ** Topics stay within the meetings of the caller *)

Lemma recent_meetings_bounded (n : nat) (user : User.t) (w : World) :
  exists ms, recent_meetings n user w = (Ok ms, w)
             /\ Forall (row_of user w) ms
             /\ (length ms <= n)%nat.
Proof.
  eexists. split; [reflexivity|]. split.
  - apply Forall_forall. intros m Hm.
    apply firstn_in, order_desc_in, filter_In in Hm. exact Hm.
  - apply firstn_le_length.
Qed.

Section TopicScope.

Context `{PL : PyLib}.
Variable cfg : Config.

(** Whatever the model replies, the topics handler changes nothing but the
    log of requests, and every request it sends is a chat request whose
    prompt is built from at most fifty rows of the meetings table, all of
    them rows of the user the header authenticates. *)
Theorem topics_stay_within_owner
  (authorization x_llm_api_key : option str) (w : World) :
  let run := ai_topics cfg authorization x_llm_api_key w in
  only_sent w (snd run)
  /\ (forall req, In req (sent (snd run)) ->
        In req (sent w)
        \/ exists user ms,
             _get_current_user_from_header authorization (users w) = Ok user
             /\ Forall (row_of user w) ms
             /\ (length ms <= 50)%nat
             /\ body req = ChatBody (LLM_MODEL_NAME cfg) (topics_prompt ms)).
Proof.
  cbv zeta. unfold ai_topics, bind, current_user.
  destruct (_get_current_user_from_header authorization (users w))
    as [user|e] eqn:Eu.
  2:{ split; [apply only_sent_refl|]. intros req H. left. exact H. }
  destruct (recent_meetings_bounded 50 user w) as (ms & Hrm & Hms & Hlen).
  rewrite Hrm.
  destruct ms as [|m0 ms'].
  { split; [apply only_sent_refl|]. intros req H. left. exact H. }
  set (ms := m0 :: ms') in *.
  pose proof (ollama_chat_only_sent cfg (topics_prompt ms) x_llm_api_key w)
    as Hframe.
  pose proof (ollama_chat_sent_at_most cfg (topics_prompt ms) x_llm_api_key
                w) as Hsent.
  destruct (ollama_chat cfg (topics_prompt ms) x_llm_api_key w)
    as [[raw|e] w1]; cbn [fst snd] in *.
  all: split; [exact Hframe|]; intros req H;
    destruct Hsent as (more & Hw & Hmore); rewrite Hw in H;
    simpl in H; apply in_app_iff in H;
    destruct Hmore as [->| ->]; destruct H as [H|H];
    try (left; exact H); try contradiction;
    destruct H as [<-|[]];
    right; exists user, ms; split; [reflexivity|];
    split; [exact Hms|]; split; [exact Hlen|reflexivity].
Qed.

End TopicScope.

(** ** A sync without event id *)

Section CalendarInsert.

Context `{PL : PyLib}.

(** A sync whose payload gives no event id, when it succeeds: exactly
    one event is added to the calendar, after the others, under the
    identifier the calendar gives it, with the title of the meeting as
    summary, the snippet as description and the resolved times; the dict
    returned carries that identifier and those times.  The event id the
    meeting may already have is not looked at. *)
Theorem sync_without_event_id_inserts
  (meeting_id : str) (payload : CalendarSyncPayload.t)
  (authorization : option str) (w : World) (d : MeetingDict.t) :
  truthy_opt (CalendarSyncPayload.event_id payload) = false ->
  fst (sync_meeting_calendar meeting_id payload authorization w) = Ok d ->
  let w' := snd (sync_meeting_calendar meeting_id payload authorization w) in
  let new_id := uuid_source w (uuid_count w) in
  exists meeting,
    In meeting (meetings w)
    /\ Meeting.id meeting = meeting_id
    /\ (let start_iso := resolve_start payload meeting in
        let end_iso := resolve_end payload meeting start_iso in
        events w'
        = events w
          ++ [(new_id,
               Event.mk (Some new_id) (Some (Meeting.title meeting))
                 (Some (description_snippet meeting))
                 (Some (start_iso, ("UTC" : str)))
                 (Some (end_iso, ("UTC" : str))))]
        /\ MeetingDict.calendar_event_id d = Some new_id
        /\ MeetingDict.start_time d = Some start_iso
        /\ MeetingDict.end_time d = Some end_iso).
Proof.
  intros Hp. cbv zeta.
  unfold sync_meeting_calendar, bind, current_user.
  destruct (_get_current_user_from_header authorization (users w))
    as [user|e]; [|discriminate].
  unfold _get_calendar_service_for_user, raise.
  destruct (User.google_creds_json user) as [|g gs]; [discriminate|].
  destruct (calendar_access w user) as [[creds|]|e]; [| |discriminate].
  all: unfold meeting_by_id; cbn [meetings set_users];
    destruct (List.find _ (meetings w)) as [meeting|] eqn:Ef;
    [|discriminate];
    apply find_some in Ef; destruct Ef as [Hin Hid];
    apply andb_true_iff in Hid; destruct Hid as [Hid _];
    apply str_eqb_eq in Hid.
  all: assert (Hnone : match CalendarSyncPayload.event_id payload with
                       | Some (_ :: _) => False
                       | _ => True
                       end)
    by (destruct (CalendarSyncPayload.event_id payload) as [[|c s]|];
        [exact I|discriminate|exact I]).
  all: destruct (CalendarSyncPayload.event_id payload) as [[|c s]|];
    try contradiction.
  all: unfold events_insert, bind, uuid4, ret;
    cbn [uuid_source uuid_count set_users Event.id events set_uuid_count
         set_events];
    destruct (uuid_source w (uuid_count w)) as [|c0 s0] eqn:Eid;
    [discriminate|];
    cbn [fst snd]; intros [= <-]; exists meeting;
    (split; [exact Hin|]); (split; [exact Hid|]);
    cbn [events set_meetings set_events set_uuid_count set_users];
    repeat split.
Qed.

End CalendarInsert.

Definition plain_payload : CalendarSyncPayload.t :=
  CalendarSyncPayload.mk None None None.

Definition linked : MeetingDict.t :=
  meeting_to_dict
    (synced stored_meeting "2024-01-15T10:30:00" "2024-01-15T11:30:00"
       "id-0").

(** A sync of the meeting of the example calendar without event id: a
    second event is added after the one the calendar held. *)
Lemma sync_without_event_id_inserts_witness :
  exists meeting,
    In meeting (meetings calendar_world)
    /\ Meeting.id meeting = "m1"
    /\ (let start_iso := resolve_start plain_payload meeting in
        let end_iso := resolve_end plain_payload meeting start_iso in
        events (snd (sync_meeting_calendar "m1" plain_payload alice_header
                       calendar_world))
        = events calendar_world
          ++ [(uuid_source calendar_world (uuid_count calendar_world),
               Event.mk
                 (Some (uuid_source calendar_world
                          (uuid_count calendar_world)))
                 (Some (Meeting.title meeting))
                 (Some (description_snippet meeting))
                 (Some (start_iso, ("UTC" : str)))
                 (Some (end_iso, ("UTC" : str))))]
        /\ MeetingDict.calendar_event_id linked
           = Some (uuid_source calendar_world (uuid_count calendar_world))
        /\ MeetingDict.start_time linked = Some start_iso
        /\ MeetingDict.end_time linked = Some end_iso).
Proof.
  apply (sync_without_event_id_inserts "m1" plain_payload alice_header
           calendar_world linked).
  - reflexivity.
  - vm_compute. reflexivity.
Defined.
